(** * FESTIM: hydrogen transport simulation -- a shallow embedding

    This development embeds the control logic of four source files of the
    FESTIM repository and states the properties of the specification over
    that embedding:

    - [FESTIM/post_processing.py]      (modules [PostProcessing],
      [DerivedQuantities] and [ComputeError])
    - [Cas_test_solubility/cas_test_solubility.py] (module [CasTestSolubility])
    - [FESTIM/generic_simulation.py]   (modules [GenericSimulation] and
      [GenericSimulationSetup])
    - [festim/hydrogen_transport_problem.py] (module [HydrogenTransport])

    Conventions of the embedding.
    - Python floats that stand for physical quantities (material data,
      temperatures, concentrations) are real numbers ([R]); simulation time
      and step sizes are exact rationals ([Q]) so that the time loop runs.
      Rounding is not modelled.
    - Python exceptions are values of [exn]; a function that may raise
      returns a [result].
    - The finite-element layer (function spaces, assembly, Newton solvers,
      projections) is outside the sources.  Weak forms are kept as syntax
      ([Ufl.expr], [Ufl.form]); solvers are oracles taken as section
      variables; their calls are recorded as events.
    - Python dictionaries are [gmap]s when they are accessed through
      computed keys, and records of optional fields otherwise. *)

From Stdlib Require Import Reals QArith ZArith Lra Lia List String Ascii Qreals Qround.
From Stdlib Require Lqa.
From stdpp Require Import gmap strings list pretty.
Import ListNotations.

Local Open Scope string_scope.

(** ** Python values, exceptions and results *)

Module Py.

Inductive exn : Type :=
| ValueError (msg : string)
| KeyError (msg : string)
| TypeError (msg : string)
| AttributeError (msg : string)
| NotImplementedError (msg : string)
| RuntimeError (msg : string)
| ZeroDivisionError (msg : string).

Inductive result (A : Type) : Type :=
| Ok (a : A)
| Raise (e : exn).
Arguments Ok {A} a.
Arguments Raise {A} e.

#[export] Instance result_ret : MRet result := fun A a => Ok a.
#[export] Instance result_bind : MBind result := fun A B f m =>
  match m with
  | Ok a => f a
  | Raise e => Raise e
  end.

Definition raises {A} (r : result A) : bool :=
  match r with Ok _ => false | Raise _ => true end.

(** [for x in l: body x], stopping at the first exception. *)
Fixpoint for_each {A} (body : A -> result unit) (l : list A) : result unit :=
  match l with
  | [] => Ok tt
  | x :: l' => body x ≫= fun _ => for_each body l'
  end.

(** Values found in the parameter dictionaries. *)
Inductive pyval : Type :=
| VFloat (x : R)
| VInt (n : Z)
| VCallable (f : R -> R)
| VList (l : list Z).

(** A material is a dictionary from key names to values. *)
Abbreviation material := (gmap string pyval).

(** [m[key]]. *)
Definition getitem (m : material) (key : string) : result pyval :=
  match m !! key with
  | Some v => Ok v
  | None => Raise (KeyError key)
  end.

(** [key in m.keys()]. *)
Definition has_key (m : material) (key : string) : bool :=
  match m !! key with
  | Some _ => true
  | None => false
  end.

(** A dictionary value used as an operand of float arithmetic. *)
Definition as_number (v : pyval) : result R :=
  match v with
  | VFloat x => Ok x
  | VInt n => Ok (IZR n)
  | _ => Raise (TypeError "unsupported operand type(s)")
  end.

(** [str.isdigit] and [int(str)] on ASCII strings. *)
Definition is_digit_char (c : ascii) : bool :=
  (48 <=? nat_of_ascii c)%nat && (nat_of_ascii c <=? 57)%nat.

Definition isdigit (s : string) : bool :=
  match s with
  | EmptyString => false
  | _ => forallb is_digit_char (list_ascii_of_string s)
  end.

Definition int_of_str (s : string) : Z :=
  fold_left (fun acc c => (10 * acc + (Z.of_nat (nat_of_ascii c) - 48))%Z)
            (list_ascii_of_string s) 0%Z.

(** [x in l] for a list of strings. *)
Definition str_in (x : string) (l : list string) : bool :=
  existsb (String.eqb x) l.

End Py.
Export Py.

(** ** FESTIM.helpers *)

(** The module [FESTIM.helpers] is not among the sources.  The functions
    that use it take its members as section variables; the definitions
    below are the instances used in the examples. *)
Module Helpers.

Definition has_id (m : material) (id : Z) : bool :=
  match m !! "id" with
  | Some (VInt n) => (n =? id)%Z
  | Some (VList l) => existsb (Z.eqb id) l
  | _ => false
  end.

(** Modelled from the spec: [FESTIM.helpers.find_material_from_id] is
    missing.  A material is "looked up by subdomain id", and asking for
    an id with "no registered material" is an error. *)
Fixpoint find_material_from_id (materials : list material) (id : Z) : result material :=
  match materials with
  | [] => Raise (ValueError ("Couldn't find ID " ++ pretty id ++ " in materials list"))
  | m :: materials' =>
      if has_id m id then Ok m else find_material_from_id materials' id
  end.

(** Modelled from the spec: [FESTIM.helpers.quantity_types] is missing.
    These are the kinds "surface flux, volume/surface total, volume
    average, volume extremum", under the keys that
    [header_derived_quantities] reads. *)
Definition quantity_types : list string :=
  ["surface_flux"; "average_volume"; "minimum_volume"; "maximum_volume";
   "total_volume"; "total_surface"].

(** Modelled from the spec: [FESTIM.helpers.field_types] is missing.
    These are the field names of [derived_quantities]: the mobile
    concentration, the retention and the temperature. *)
Definition field_types : list string := ["solute"; "retention"; "T"].

(** Modelled from the spec: [FESTIM.helpers.bc_types] is missing.  The
    "fixed-value" kinds constrain degrees of freedom; every other kind
    contributes a flux term. *)
Definition bc_types_dc : list string := ["dc"; "solubility"; "dc_imp"].

End Helpers.

(** ** Comparisons of rational times *)

Module QTime.

Definition Qltb (a b : Q) : bool :=
  (Qnum a * QDen b <? Qnum b * QDen a)%Z.

Definition Qgtb (a b : Q) : bool := Qltb b a.

End QTime.
Export QTime.

(** ** Weak forms as syntax *)

Module Ufl.

Inductive subdomain_id : Type :=
| SId (n : Z)
| SIds (l : list Z).

Inductive measure : Type :=
| dx                            (* the whole domain *)
| dx_sub (s : subdomain_id)     (* [dx(subdomain)] *)
| ds_sub (s : Z).               (* [ds(surface)] *)

Inductive expr : Type :=
| Cst (c : R)                   (* a Python number *)
| Sol (i : nat)                 (* [split(u)[i]], or [u] when it has one component *)
| SubFunction (i : nat)         (* [u.split()[i]], a Function *)
| Prev (i : nat)                (* component [i] of [u_n] *)
| Test (i : nat)                (* component [i] of the test function *)
| Temp                          (* [T] *)
| TempN                         (* [T_n] *)
| Dt                            (* [dt] *)
| Expression (code : string)    (* [Expression(code, degree=2, t=0)] *)
| Solubility                    (* the coefficient [S] *)
| BCForm (bc : nat) (temperature solute : expr)
                                (* [bc.form] after [bc.create_form_for_flux(T, solute)] *)
| Neg (a : expr)
| Add (a b : expr)
| Sub (a b : expr)
| Mul (a b : expr)
| Div (a b : expr)
| Exp (a : expr)
| Grad (a : expr)
| Dot (a b : expr)
| Project (a : expr).           (* [project(a, V_DG1)], a Function *)

Definition term : Type := expr * measure.

(** A form is the list of the terms added to it, oldest first; [[]] is
    the initial [F = 0]. *)
Definition form : Type := list term.

(** Values of the leaves at one point of the mesh. *)
Record env : Type := {
  sol : nat -> R;
  prev : nat -> R;
  test : nat -> R;
  temp : R;
  temp_n : R;
  dt : R;
  expression : string -> R;
  solubility : R;
  bc_form : nat -> R -> R -> R;
  projected : expr -> R
}.

(** Pointwise value of a scalar expression; gradients have none. *)
Fixpoint eval (rho : env) (e : expr) : option R :=
  match e with
  | Cst c => Some c
  | Sol i | SubFunction i => Some (sol rho i)
  | Prev i => Some (prev rho i)
  | Test i => Some (test rho i)
  | Temp => Some (temp rho)
  | TempN => Some (temp_n rho)
  | Dt => Some (dt rho)
  | Expression code => Some (expression rho code)
  | Solubility => Some (solubility rho)
  | BCForm bc T c =>
      t ← eval rho T; x ← eval rho c; Some (bc_form rho bc t x)
  | Neg a => x ← eval rho a; Some (- x)%R
  | Add a b => x ← eval rho a; y ← eval rho b; Some (x + y)%R
  | Sub a b => x ← eval rho a; y ← eval rho b; Some (x - y)%R
  | Mul a b => x ← eval rho a; y ← eval rho b; Some (x * y)%R
  | Div a b => x ← eval rho a; y ← eval rho b; Some (x / y)%R
  | Exp a => x ← eval rho a; Some (exp x)
  | Grad _ | Dot _ _ => None
  | Project a => Some (projected rho a)
  end.

(** Python's [sum(l)]: [0 + l[0] + l[1] + ...]. *)
Definition py_sum (l : list expr) : expr := fold_left Add l (Cst 0).

(** The index of the test function a term is tested with: terms are
    written [e * testfunctions[i]] or [dot(_, grad(testfunctions[i]))]. *)
Definition tested_with (e : expr) : option nat :=
  match e with
  | Mul _ (Test i) => Some i
  | Dot _ (Grad (Test i)) => Some i
  | _ => None
  end.

End Ufl.
Export Ufl.

(** ** post_processing.py *)

Module PostProcessing.

(** *** [check_keys_derived_quantities] *)

(** The value stored under ["field"]: the code tests [type(..) is int]
    and [type(..) is str] and has no branch for anything else. *)
Inductive pyfield : Type :=
| FInt (n : Z)
| FStr (s : string)
| FOther (repr : string).

(** One entry [f] of a derived-quantity list; [None] is an absent key. *)
Record dq_item : Type := {
  field : option pyfield;
  surfaces : option (list Z);
  volumes : option (list Z)
}.

(** The value under a key of [parameters["exports"]["derived_quantities"]]:
    a list of entries, or the string of the ["file"] and ["folder"] keys. *)
Inductive dq_value : Type :=
| DQItems (l : list dq_item)
| DQPath (s : string).

Record parameters : Type := {
  derived_quantities : list (string * dq_value);
  traps_len : nat
}.

Section CheckKeys.
(** [FESTIM.helpers.quantity_types] and [FESTIM.helpers.field_types]. *)
Variable quantity_types : list string.
Variable field_types : list string.

Definition check_field (nb_traps : Z) (f : pyfield) : result unit :=
  match f with
  | FInt n =>
      if (n >? nb_traps)%Z || (n <? 0)%Z
      then Raise (ValueError ("Unknown field: " ++ pretty n))
      else Ok tt
  | FStr s =>
      if negb (str_in s field_types) then
        if isdigit s then
          if (int_of_str s >? nb_traps)%Z || (int_of_str s <? 0)%Z
          then Raise (ValueError ("Unknown field: " ++ s))
          else Ok tt
        else Raise (ValueError ("Unknown field: " ++ s))
      else Ok tt
  | FOther _ => Ok tt
  end.

Definition check_item (nb_traps : Z) (f : dq_item) : result unit :=
  match field f with
  | None => Raise (KeyError "Missing key 'field'")
  | Some fld => check_field nb_traps fld
  end ≫= fun _ =>
  match surfaces f, volumes f with
  | None, None => Raise (KeyError "Missing key 'surfaces' or 'volumes'")
  | _, _ => Ok tt
  end.

(** Iterating over a string yields its characters, which have no
    [keys()]. *)
Definition check_entries (nb_traps : Z) (v : dq_value) : result unit :=
  match v with
  | DQItems l => for_each (check_item nb_traps) l
  | DQPath EmptyString => Ok tt
  | DQPath _ => Raise (AttributeError "'str' object has no attribute 'keys'")
  end.

Definition check_quantity (nb_traps : Z) (kv : string * dq_value) : result unit :=
  let '(quantity, v) := kv in
  if negb (str_in quantity (quantity_types ++ ["file"; "folder"])%list)
  then Raise (ValueError ("Unknown quantity: " ++ quantity))
  else if negb (str_in quantity ["file"; "folder"])
       then check_entries nb_traps v
       else Ok tt.

Definition check_keys_derived_quantities (p : parameters) : result unit :=
  for_each (check_quantity (Z.of_nat (traps_len p))) (derived_quantities p).

(** What the validation accepts, stated on its own: a field that is an
    integer must be an index in [0 .. nb_traps]; a field that is a
    string must be a known name or the decimal writing of such an
    index; every entry names a field and has surfaces or volumes. *)
Definition field_accepted (nb_traps : Z) (f : pyfield) : bool :=
  match f with
  | FInt n => (0 <=? n)%Z && (n <=? nb_traps)%Z
  | FStr s => str_in s field_types || (isdigit s && (int_of_str s <=? nb_traps)%Z)
  | FOther _ => true
  end.

Definition item_accepted (nb_traps : Z) (f : dq_item) : bool :=
  match field f with
  | Some fld => field_accepted nb_traps fld
  | None => false
  end
  && match surfaces f, volumes f with
     | None, None => false
     | _, _ => true
     end.

Definition quantity_accepted (nb_traps : Z) (kv : string * dq_value) : bool :=
  str_in (fst kv) (quantity_types ++ ["file"; "folder"])%list
  && (str_in (fst kv) ["file"; "folder"]
      || match snd kv with
         | DQItems l => forallb (item_accepted nb_traps) l
         | DQPath EmptyString => true
         | DQPath _ => false
         end).

Definition derived_quantities_accepted (p : parameters) : bool :=
  forallb (quantity_accepted (Z.of_nat (traps_len p))) (derived_quantities p).

(** *** [header_derived_quantities] *)

Definition str_of_field (f : pyfield) : string :=
  match f with
  | FInt n => pretty n
  | FStr s => s
  | FOther repr => repr
  end.

Definition dict_get (d : list (string * dq_value)) (key : string) : option dq_value :=
  snd <$> List.find (fun kv => String.eqb (fst kv) key) d.

(** The header cells of one entry: one per surface or volume. *)
Definition header_cells (on_surfaces : bool) (cell : string -> string -> string)
           (f : dq_item) : result (list string) :=
  match (if on_surfaces then surfaces f else volumes f) with
  | None => Raise (KeyError (if on_surfaces then "surfaces" else "volumes"))
  | Some targets =>
      match targets, field f with
      | [], _ => Ok []
      | _, None => Raise (KeyError "field")
      | _, Some fld => Ok (map (fun x => cell (pretty x) (str_of_field fld)) targets)
      end
  end.

Fixpoint header_entries (on_surfaces : bool) (cell : string -> string -> string)
         (l : list dq_item) : result (list string) :=
  match l with
  | [] => Ok []
  | f :: l' =>
      h ← header_cells on_surfaces cell f;
      h' ← header_entries on_surfaces cell l';
      Ok (h ++ h')%list
  end.

(** [if key in derived_quant_dict.keys(): for f in derived_quant_dict[key]: ...] *)
Definition header_block (d : list (string * dq_value)) (key : string)
           (on_surfaces : bool) (cell : string -> string -> string)
  : result (list string) :=
  match dict_get d key with
  | None => Ok []
  | Some (DQItems l) => header_entries on_surfaces cell l
  | Some (DQPath EmptyString) => Ok []
  | Some (DQPath _) => Raise (TypeError "string indices must be integers")
  end.

Definition header_derived_quantities (p : parameters) : result (list string) :=
  check_keys_derived_quantities p;;
  let d := derived_quantities p in
  h1 ← header_block d "surface_flux" true
         (fun x f => "Flux surface " ++ x ++ ": " ++ f);
  h2 ← header_block d "average_volume" false
         (fun x f => "Average " ++ f ++ " volume " ++ x);
  h3 ← header_block d "minimum_volume" false
         (fun x f => "Minimum " ++ f ++ " volume " ++ x);
  h4 ← header_block d "maximum_volume" false
         (fun x f => "Maximum " ++ f ++ " volume " ++ x);
  h5 ← header_block d "total_volume" false
         (fun x f => "Total " ++ f ++ " volume " ++ x);
  h6 ← header_block d "total_surface" true
         (fun x f => "Total " ++ f ++ " surface " ++ x);
  Ok (["t(s)"] ++ h1 ++ h2 ++ h3 ++ h4 ++ h5 ++ h6)%list.

End CheckKeys.

(** *** Material properties: [ArheniusCoeff], [ThermalProp], [create_properties] *)

Section Coefficients.
(** [FESTIM.k_B] and [FESTIM.helpers.find_material_from_id]. *)
Variable k_B : R.
Variable find_material_from_id : list material -> Z -> result material.

(** [ArheniusCoeff.eval_cell] in a cell marked [subdomain_id], where
    [self._T(x)] is [T]. *)
Definition ArheniusCoeff_eval_cell (materials : list material) (pre_exp E : string)
           (subdomain_id : Z) (T : R) : result R :=
  m ← find_material_from_id materials subdomain_id;
  D_0 ← getitem m pre_exp;
  E_D ← getitem m E;
  E_D ← as_number E_D;
  D_0 ← as_number D_0;
  Ok (D_0 * exp (- E_D / k_B / T))%R.

(** [ThermalProp.eval_cell]. *)
Definition ThermalProp_eval_cell (materials : list material) (key : string)
           (subdomain_id : Z) (T : R) : result R :=
  m ← find_material_from_id materials subdomain_id;
  v ← getitem m key;
  match v with
  | VCallable f => Ok (f T)
  | VFloat x => Ok x
  | VInt n => Ok (IZR n)
  | VList _ => Raise (ValueError "setting an array element with a sequence.")
  end.

(** The five accessors built by [create_properties]. *)
Definition diffusivity materials := ArheniusCoeff_eval_cell materials "D_0" "E_D".
Definition solubility_coefficient materials := ArheniusCoeff_eval_cell materials "S_0" "E_S".
Definition thermal_conductivity materials := ThermalProp_eval_cell materials "thermal_cond".
Definition heat_capacity materials := ThermalProp_eval_cell materials "heat_capacity".
Definition density materials := ThermalProp_eval_cell materials "rho".

End Coefficients.

Inductive coefficient : Type :=
| ArheniusCoeff (pre_exp E : string)
| ThermalProp (key : string)
| HCoeff.

Record properties : Type := {
  D : coefficient;
  thermal_cond : option coefficient;
  cp : option coefficient;
  rho : option coefficient;
  H : option coefficient;
  S : option coefficient
}.

(** Body of [for mat in materials] in [create_properties]. *)
Definition add_material_properties (acc : properties) (mat : material) : properties :=
  let acc :=
    if has_key mat "S_0"
    then {| D := D acc; thermal_cond := thermal_cond acc; cp := cp acc; rho := rho acc;
            H := H acc; S := Some (ArheniusCoeff "S_0" "E_S") |}
    else acc in
  let acc :=
    if has_key mat "thermal_cond"
    then {| D := D acc; thermal_cond := Some (ThermalProp "thermal_cond");
            cp := Some (ThermalProp "heat_capacity"); rho := Some (ThermalProp "rho");
            H := H acc; S := S acc |}
    else acc in
  if has_key mat "H"
  then {| D := D acc; thermal_cond := thermal_cond acc; cp := cp acc; rho := rho acc;
          H := Some HCoeff; S := S acc |}
  else acc.

Definition create_properties (materials : list material) : properties :=
  fold_left add_material_properties materials
    {| D := ArheniusCoeff "D_0" "E_D"; thermal_cond := None; cp := None; rho := None;
       H := None; S := None |}.

(** *** [run_post_processing]: the list [res] of fields handed to the exports *)

(** [res] after lines 36 to 51: the components of [u] (the mobile one
    rescaled when there is a solubility), then the retention, then [T].
    [nb_sub_spaces] is [u.function_space().num_sub_spaces()]. *)
Definition post_processing_fields (nb_sub_spaces : nat) (S : option coefficient)
  : list expr :=
  let res :=
    if (nb_sub_spaces =? 0)%nat then [SubFunction 0]
    else map SubFunction (seq 0 nb_sub_spaces) in
  let res :=
    match S, res with
    | Some _, r0 :: rest => Project (Mul r0 Solubility) :: rest
    | _, _ => res
    end in
  let retention := py_sum res in
  (res ++ [retention] ++ [Temp])%list.

End PostProcessing.

(** ** Cas_test_solubility/cas_test_solubility.py: [formulation] *)

Module CasTestSolubility.

(** The keys of a material read here are ["D_0"], ["S_0"], ["E_diff"],
    ["E_S"], ["id"], ["alpha"] and ["beta"]. *)

Inductive trap_materials : Type :=
| OneMaterial (id : Z)
| MaterialList (l : list Z).

(** A trap dictionary. [density] is the C code that
    [sp.printing.ccode(trap['density'])] prints. *)
Record trap : Type := {
  density : string;
  energy : R;
  materials : trap_materials
}.

Record parameters : Type := {
  p_materials : list material;
  p_traps : list trap
}.

(** A dictionary value used as the argument of [dx(...)]. *)
Definition as_subdomain (v : pyval) : result subdomain_id :=
  match v with
  | VInt n => Ok (SId n)
  | VList l => Ok (SIds l)
  | _ => Raise (TypeError "Invalid subdomain_id")
  end.

Definition as_list (m : trap_materials) : list Z :=
  match m with
  | OneMaterial id => [id]
  | MaterialList l => l
  end.

Section Formulation.
(** [FESTIM.k_B] and [FESTIM.helpers.find_material_from_id]. *)
Variable k_B : R.
Variable find_material_from_id : list material -> Z -> result material.

Definition v_0 : R := 1e13.

(** [a * exp(-E/k_B/T)]. *)
Definition arrhenius (a E : R) (T : expr) : expr :=
  Mul (Cst a) (Exp (Div (Cst (- E / k_B)) T)).

Definition mobile_time_derivative (dt : expr) (S_0 E_S : R) : expr :=
  Mul (Div (Sub (Mul (arrhenius S_0 E_S Temp) (Sol 0))
                (Mul (arrhenius S_0 E_S TempN) (Prev 0))) dt)
      (Test 0).

Definition diffusion (D_0 E_diff S_0 E_S : R) : expr :=
  Dot (Mul (arrhenius D_0 E_diff Temp)
           (Grad (Mul (arrhenius S_0 E_S Temp) (Sol 0))))
      (Grad (Test 0)).

(** [((solutions[i] - previous_solutions[i]) / dt) * testfunctions[j]]. *)
Definition trap_rate (dt : expr) (i j : nat) : expr :=
  Mul (Div (Sub (Sol i) (Prev i)) dt) (Test j).

Definition capture (D_0 E_diff alpha beta S_0 E_S : R) (dens : string) (i : nat) : expr :=
  Mul (Mul (Mul (Mul (Mul
    (Div (Div (Div (Mul (Cst (- D_0)) (Exp (Div (Cst (- E_diff / k_B)) Temp)))
                   (Cst alpha)) (Cst alpha)) (Cst beta))
    (Cst S_0)) (Exp (Div (Cst (- E_S / k_B)) Temp))) (Sol 0))
    (Sub (Expression dens) (Sol i))) (Test i).

Definition release (E : R) (i : nat) : expr :=
  Mul (Mul (Mul (Cst v_0) (Exp (Div (Cst (- E / k_B)) Temp))) (Sol i)) (Test i).

(** Body of [for material in parameters["materials"]]. *)
Definition material_terms (dt : expr) (transient : bool) (m : material) : result form :=
  D_0 ← getitem m "D_0";
  S_0 ← getitem m "S_0";
  E_diff ← getitem m "E_diff";
  E_S ← getitem m "E_S";
  subdomain ← getitem m "id";
  D_0 ← as_number D_0;
  S_0 ← as_number S_0;
  E_diff ← as_number E_diff;
  E_S ← as_number E_S;
  sd ← as_subdomain subdomain;
  Ok ((if transient then [(mobile_time_derivative dt S_0 E_S, dx_sub sd)] else [])
      ++ [(diffusion D_0 E_diff S_0 E_S, dx_sub sd)])%list.

(** Body of [for subdomain in material] for trap number [i]. *)
Definition trap_subdomain_terms (mats : list material) (tr : trap) (i : nat)
           (subdomain : Z) : result form :=
  m ← find_material_from_id mats subdomain;
  S_0 ← getitem m "S_0";
  E_S ← getitem m "E_S";
  D_0 ← getitem m "D_0";
  E_diff ← getitem m "E_diff";
  alpha ← getitem m "alpha";
  beta ← getitem m "beta";
  S_0 ← as_number S_0;
  E_S ← as_number E_S;
  D_0 ← as_number D_0;
  E_diff ← as_number E_diff;
  alpha ← as_number alpha;
  beta ← as_number beta;
  Ok [(capture D_0 E_diff alpha beta S_0 E_S (density tr) i, dx_sub (SId subdomain));
      (release (energy tr) i, dx_sub (SId subdomain))].

Fixpoint concat_results (l : list (result form)) : result form :=
  match l with
  | [] => Ok []
  | r :: l' => F ← r; G ← concat_results l'; Ok (F ++ G)%list
  end.

(** Body of [for trap in parameters["traps"]] for trap number [i]. *)
Definition trap_terms (dt : expr) (transient : bool) (mats : list material)
           (tr : trap) (i : nat) : result form :=
  per_subdomain ← concat_results
    (map (trap_subdomain_terms mats tr i) (as_list (materials tr)));
  Ok ((if transient then [(trap_rate dt i i, dx)] else [])
      ++ per_subdomain
      ++ [(trap_rate dt i 0, dx)])%list.

Fixpoint traps_terms (dt : expr) (transient : bool) (mats : list material)
         (trs : list trap) (i : nat) : result form :=
  match trs with
  | [] => Ok []
  | tr :: trs' =>
      F ← trap_terms dt transient mats tr i;
      G ← traps_terms dt transient mats trs' (S i);
      Ok (F ++ G)%list
  end.

(** [dt] is the stepsize the caller passes: a [Constant], or the
    integer [0] of a stationary run. *)
Definition formulation (p : parameters) (dt : expr) (transient : bool)
  : result (form * list expr) :=
  Fm ← concat_results (map (material_terms dt transient) (p_materials p));
  Ft ← traps_terms dt transient (p_materials p) (p_traps p) 1;
  Ok ((Fm ++ Ft)%list, map (fun tr => Expression (density tr)) (p_traps p)).

(** The number stored under a key of a material. *)
Definition number (m : material) (key : string) (x : R) : Prop :=
  exists v, m !! key = Some v /\ as_number v = Ok x.

(** The terms of the mobile equation, those tested with
    [testfunctions[0]]. *)
Inductive mobile_equation_term (dt : expr) : expr -> Prop :=
| met_time_derivative S_0 E_S :
    mobile_equation_term dt (mobile_time_derivative dt S_0 E_S)
| met_diffusion D_0 E_diff S_0 E_S :
    mobile_equation_term dt (diffusion D_0 E_diff S_0 E_S)
| met_trap_rate i :
    mobile_equation_term dt (trap_rate dt i 0).

Definition tested_with_mobile (tm : term) : bool :=
  match tested_with (fst tm) with
  | Some O => true
  | _ => false
  end.

(** *** [run] *)

Record run_parameters : Type := {
  solving_type : option string;      (* [solving_parameters["type"]], if present *)
  final_time : Q;
  initial_stepsize : Q;
  temperature_type : string;         (* [parameters["temperature"]["type"]] *)
  physics : parameters;              (* the materials and the traps *)
  exports_derived_quantities : option (list (string * PostProcessing.dq_value))
}.

(** Calls into the FESTIM package, in program order. *)
Inductive event : Type :=
| Ev_solve_stationary_heat
| Ev_update_expressions (time : Q)
| Ev_interpolate_T (time : Q)
| Ev_solve_heat (time : Q)
| Ev_solve_main (time : Q)
| Ev_solve_extrinsic (j : nat)
| Ev_solve_once
| Ev_post_processing (time : Q)
| Ev_assign_u_n
| Ev_assign_T_n
| Ev_assign_previous_trap (j : nat)
| Ev_write_to_csv.

(** A computation that emits events and may raise. *)
Definition W (A : Type) : Type := list event * result A.

#[local] Instance W_ret : MRet W := fun A a => ([], Ok a).
#[local] Instance W_bind : MBind W := fun A B f m =>
  match m with
  | (tr, Ok a) => let '(tr', r) := f a in ((tr ++ tr')%list, r)
  | (tr, Raise e) => (tr, Raise e)
  end.

Definition emit (e : event) : W unit := ([e], Ok tt).
Definition lift {A} (r : result A) : W A := ([], r).

Fixpoint for_range (body : nat -> W unit) (start n : nat) : W unit :=
  match n with
  | O => mret tt
  | S n' => body start ;; for_range body (S start) n'
  end.

(** [FESTIM.helpers.quantity_types], [FESTIM.helpers.field_types]. *)
Variable quantity_types : list string.
Variable field_types : list string.
(** The number of functions returned by
    [define_functions_extrinsic_traps]; the helpers that build
    [extrinsic_formulations] and [previous_solutions_traps] return one
    entry for each of them. *)
Variable nb_extrinsic : list trap -> nat.
(** The solvers: each one returns or raises; [solve_it] also yields the
    value of [dt] it leaves. *)
Variable solve_heat : Q -> result unit.
Variable solve_it : Q -> Q -> result Q.
Variable solve_extrinsic : nat -> Q -> result unit.

Definition check_transient (p : run_parameters) : result bool :=
  match solving_type p with
  | None => Ok true
  | Some ty =>
      if String.eqb ty "solve_transient" then Ok true
      else if String.eqb ty "solve_stationary" then Ok false
      else Raise (ValueError (ty ++ " unkown"))
  end.

Record loop_state : Type := {
  time : Q;
  stepsize : Q;                       (* [float(dt)] *)
  derived_quantities_global : list Q  (* the times of the rows appended *)
}.

(** Body of [while t < Time]. *)
Definition time_step (p : run_parameters) (st : loop_state) : W loop_state :=
  let t := (time st + stepsize st)%Q in
  let n := nb_extrinsic (p_traps (physics p)) in
  emit (Ev_update_expressions t);;
  (if String.eqb (temperature_type p) "expression"
   then emit (Ev_interpolate_T t) else mret tt);;
  (if String.eqb (temperature_type p) "solve_transient"
   then lift (solve_heat t);; emit (Ev_solve_heat t);; emit Ev_assign_T_n
   else mret tt);;
  dt' ← lift (solve_it t (stepsize st));
  emit (Ev_solve_main t);;
  for_range (fun j => lift (solve_extrinsic j t);; emit (Ev_solve_extrinsic j)) 0 n;;
  emit (Ev_post_processing t);;
  emit Ev_assign_u_n;;
  emit Ev_assign_T_n;;
  for_range (fun j => emit (Ev_assign_previous_trap j)) 0 n;;
  mret {| time := t; stepsize := dt';
          derived_quantities_global :=
            match exports_derived_quantities p with
            | Some _ => (derived_quantities_global st ++ [t])%list
            | None => derived_quantities_global st
            end |}.

Fixpoint time_loop (fuel : nat) (p : run_parameters) (st : loop_state)
  : option (W loop_state) :=
  if Qltb (time st) (final_time p) then
    match fuel with
    | O => None
    | S fuel' =>
        match time_step p st with
        | (tr, Raise e) => Some (tr, Raise e)
        | (tr, Ok st') =>
            match time_loop fuel' p st' with
            | None => None
            | Some (tr', r) => Some ((tr ++ tr')%list, r)
            end
        end
    end
  else Some ([], Ok st).

Record output : Type := {
  out_header : option (list string);
  out_rows : list Q
}.

(** Everything [run] does before [t = 0]: the exceptions of the
    set-up, and the header of the derived quantities. *)
Definition setup (p : run_parameters) : W (bool * option (list string)) :=
  transient ← lift (check_transient p);
  (if String.eqb (temperature_type p) "expression" then mret tt
   else if String.eqb (temperature_type p) "solve_stationary"
        then emit Ev_solve_stationary_heat else mret tt);;
  lift (formulation (physics p) (if transient : bool then Dt else Cst 0) transient);;
  header ← match exports_derived_quantities p with
           | None => mret None
           | Some dq =>
               h ← lift (PostProcessing.header_derived_quantities
                           quantity_types field_types
                           {| PostProcessing.derived_quantities := dq;
                              PostProcessing.traps_len := length (p_traps (physics p)) |});
               mret (Some h)
           end;
  mret (transient, header).

Definition run (fuel : nat) (p : run_parameters) : option (W output) :=
  match setup p with
  | (tr, Raise e) => Some (tr, Raise e)
  | (tr, Ok (transient, header)) =>
      let st0 := {| time := 0; stepsize := if transient then initial_stepsize p else 0;
                    derived_quantities_global := [] |} in
      let close (st : loop_state) : W output :=
        (match header with Some _ => emit Ev_write_to_csv | None => mret tt end);;
        mret {| out_header := header; out_rows := derived_quantities_global st |} in
      if transient : bool then
        match time_loop fuel p st0 with
        | None => None
        | Some (tr', Raise e) => Some ((tr ++ tr')%list, Raise e)
        | Some (tr', Ok st) =>
            let '(tr'', r) := close st in Some ((tr ++ tr' ++ tr'')%list, r)
        end
      else
        let '(tr', r) :=
          (emit Ev_solve_once;; emit (Ev_post_processing 0);;
           close {| time := 0; stepsize := 0;
                    derived_quantities_global :=
                      match header with Some _ => [0%Q] | None => [] end |}) in
        Some ((tr ++ tr')%list, r)
  end.

(** The dictionary handed to the validation. *)
Definition validated (p : run_parameters) (dq : list (string * PostProcessing.dq_value))
  : PostProcessing.parameters :=
  {| PostProcessing.derived_quantities := dq;
     PostProcessing.traps_len := length (p_traps (physics p)) |}.

(** The events of a pass that completes: the solves in the order
    heat, main, extrinsic; then the post-processing; then the
    assignments of the previous values. *)
Definition step_events (p : run_parameters) (t : Q) : list event :=
  let n := nb_extrinsic (p_traps (physics p)) in
  ([Ev_update_expressions t]
     ++ (if String.eqb (temperature_type p) "expression" then [Ev_interpolate_T t] else [])
     ++ (if String.eqb (temperature_type p) "solve_transient"
         then [Ev_solve_heat t; Ev_assign_T_n] else [])
     ++ [Ev_solve_main t]
     ++ map Ev_solve_extrinsic (seq 0 n)
     ++ [Ev_post_processing t; Ev_assign_u_n; Ev_assign_T_n]
     ++ map Ev_assign_previous_trap (seq 0 n))%list.

(** The events that overwrite a previous-value slot. *)
Definition is_commit (ev : event) : bool :=
  match ev with
  | Ev_assign_u_n | Ev_assign_previous_trap _ => true
  | _ => false
  end.

(** The events of the time loop. *)
Definition is_step_event (ev : event) : bool :=
  match ev with
  | Ev_solve_stationary_heat | Ev_solve_once | Ev_write_to_csv => false
  | _ => true
  end.

End Formulation.

End CasTestSolubility.


(** ** FESTIM/generic_simulation.py *)

Module GenericSimulation.

(** Keys of [label_to_function] and values of [quantity.field]:
    integers and strings. *)
Inductive label : Type :=
| LInt (n : Z)
| LStr (s : string).

#[export] Instance label_eq_dec : EqDecision label.
Proof. solve_decision. Defined.

#[export] Instance label_countable : Countable label.
Proof.
  refine (inj_countable'
            (fun l => match l with LInt n => inl n | LStr s => inr s end)
            (fun x => match x with inl n => LInt n | inr s => LStr s end) _).
  intros []; reflexivity.
Defined.

Record Settings : Type := {
  transient : bool;
  final_time : Q;
  update_jacobian : bool
}.

Record BoundaryCondition : Type := {
  component : label;
  bc_type : string;                    (* [bc.type] *)
  surfaces : list Z;
  sub_expressions : list expr
}.

Inductive quantity_class : Type :=
| SurfaceFlux
| MaximumVolume
| MinimumVolume
| OtherQuantity.

Record Quantity : Type := {
  q_class : quantity_class;
  q_field : label                      (* [quantity.field] *)
}.

(** The export objects.  Their attributes [function], [append] and
    [data] are written here and read by the export layer only: the
    writes are events. *)
Inductive Export : Type :=
| DerivedQuantities (derived_quantities : list Quantity)
                    (nb_iterations_between_compute : nat)
| XDMFExport (field : label)
| TXTExport (field : label)
| Error (field : label).

(** The Function objects a coefficient can point to through [_T]. *)
Inductive fref : Type :=
| Ref_T                                (* [self.T.T] *)
| Ref_T_n.                             (* [self.T.T_n] *)

(** [self.D._T], [self.H._T], [self.thermal_cond._T], [self.S._T];
    [None] when the coefficient itself is [None]. *)
Record Coefficients : Type := {
  D_T : fref;
  H_T : option fref;
  thermal_cond_T : option fref;
  S_T : option fref
}.

Section Simulation.
(** The degrees of freedom held by a Function. *)
Context {fn : Type}.

(** [density] and [density_previous_solution] are the contents of
    [trap.density[0]] and [trap.density_previous_solution]; they are
    read and written for extrinsic traps only. *)
Record Trap : Type := {
  id : Z;
  extrinsic : bool;                  (* [isinstance(trap, ExtrinsicTrap)] *)
  density : fn;
  density_previous_solution : fn;
  post_processing_solution : expr
}.

Record Simulation : Type := mkSimulation {
  settings : Settings;
  chemical_pot : bool;
  T_type : string;                   (* [self.T.type] *)
  boundary_conditions : list BoundaryCondition;
  traps : list Trap;
  exports : list Export;
  coefficients : Coefficients;
  F : form;
  expressions : list expr;
  J : bool;                          (* [self.J is not None] *)
  t : Q;
  dt : Q;                            (* [self.dt.value] *)
  nb_iterations : nat;
  u : fn;
  u_n : fn;
  T_T : fn;                          (* contents of [self.T.T] *)
  T_T_n : fn;                        (* contents of [self.T.T_n] *)
  mobile_post_processing_solution : expr
}.

Definition set_chemical_pot (x : bool) (s : Simulation) : Simulation :=
  mkSimulation (settings s) x (T_type s) (boundary_conditions s) (traps s) (exports
    s) (coefficients s) (F s) (expressions s) (J s) (t s) (dt s) (nb_iterations s)
    (u s) (u_n s) (T_T s) (T_T_n s) (mobile_post_processing_solution s).
Definition set_traps (x : list Trap) (s : Simulation) : Simulation :=
  mkSimulation (settings s) (chemical_pot s) (T_type s) (boundary_conditions s) x
    (exports s) (coefficients s) (F s) (expressions s) (J s) (t s) (dt s)
    (nb_iterations s) (u s) (u_n s) (T_T s) (T_T_n s)
    (mobile_post_processing_solution s).
Definition set_coefficients (x : Coefficients) (s : Simulation) : Simulation :=
  mkSimulation (settings s) (chemical_pot s) (T_type s) (boundary_conditions s)
    (traps s) (exports s) x (F s) (expressions s) (J s) (t s) (dt s) (nb_iterations
    s) (u s) (u_n s) (T_T s) (T_T_n s) (mobile_post_processing_solution s).
Definition set_F (x : form) (s : Simulation) : Simulation :=
  mkSimulation (settings s) (chemical_pot s) (T_type s) (boundary_conditions s)
    (traps s) (exports s) (coefficients s) x (expressions s) (J s) (t s) (dt s)
    (nb_iterations s) (u s) (u_n s) (T_T s) (T_T_n s)
    (mobile_post_processing_solution s).
Definition set_expressions (x : list expr) (s : Simulation) : Simulation :=
  mkSimulation (settings s) (chemical_pot s) (T_type s) (boundary_conditions s)
    (traps s) (exports s) (coefficients s) (F s) x (J s) (t s) (dt s) (nb_iterations
    s) (u s) (u_n s) (T_T s) (T_T_n s) (mobile_post_processing_solution s).
Definition set_J (x : bool) (s : Simulation) : Simulation :=
  mkSimulation (settings s) (chemical_pot s) (T_type s) (boundary_conditions s)
    (traps s) (exports s) (coefficients s) (F s) (expressions s) x (t s) (dt s)
    (nb_iterations s) (u s) (u_n s) (T_T s) (T_T_n s)
    (mobile_post_processing_solution s).
Definition set_t (x : Q) (s : Simulation) : Simulation :=
  mkSimulation (settings s) (chemical_pot s) (T_type s) (boundary_conditions s)
    (traps s) (exports s) (coefficients s) (F s) (expressions s) (J s) x (dt s)
    (nb_iterations s) (u s) (u_n s) (T_T s) (T_T_n s)
    (mobile_post_processing_solution s).
Definition set_dt (x : Q) (s : Simulation) : Simulation :=
  mkSimulation (settings s) (chemical_pot s) (T_type s) (boundary_conditions s)
    (traps s) (exports s) (coefficients s) (F s) (expressions s) (J s) (t s) x
    (nb_iterations s) (u s) (u_n s) (T_T s) (T_T_n s)
    (mobile_post_processing_solution s).
Definition set_nb_iterations (x : nat) (s : Simulation) : Simulation :=
  mkSimulation (settings s) (chemical_pot s) (T_type s) (boundary_conditions s)
    (traps s) (exports s) (coefficients s) (F s) (expressions s) (J s) (t s) (dt s)
    x (u s) (u_n s) (T_T s) (T_T_n s) (mobile_post_processing_solution s).
Definition set_u (x : fn) (s : Simulation) : Simulation :=
  mkSimulation (settings s) (chemical_pot s) (T_type s) (boundary_conditions s)
    (traps s) (exports s) (coefficients s) (F s) (expressions s) (J s) (t s) (dt s)
    (nb_iterations s) x (u_n s) (T_T s) (T_T_n s) (mobile_post_processing_solution
    s).
Definition set_u_n (x : fn) (s : Simulation) : Simulation :=
  mkSimulation (settings s) (chemical_pot s) (T_type s) (boundary_conditions s)
    (traps s) (exports s) (coefficients s) (F s) (expressions s) (J s) (t s) (dt s)
    (nb_iterations s) (u s) x (T_T s) (T_T_n s) (mobile_post_processing_solution s).
Definition set_T_T (x : fn) (s : Simulation) : Simulation :=
  mkSimulation (settings s) (chemical_pot s) (T_type s) (boundary_conditions s)
    (traps s) (exports s) (coefficients s) (F s) (expressions s) (J s) (t s) (dt s)
    (nb_iterations s) (u s) (u_n s) x (T_T_n s) (mobile_post_processing_solution s).
Definition set_T_T_n (x : fn) (s : Simulation) : Simulation :=
  mkSimulation (settings s) (chemical_pot s) (T_type s) (boundary_conditions s)
    (traps s) (exports s) (coefficients s) (F s) (expressions s) (J s) (t s) (dt s)
    (nb_iterations s) (u s) (u_n s) (T_T s) x (mobile_post_processing_solution s).
Definition set_mobile_post_processing_solution (x : expr) (s : Simulation) : Simulation :=
  mkSimulation (settings s) (chemical_pot s) (T_type s) (boundary_conditions s)
    (traps s) (exports s) (coefficients s) (F s) (expressions s) (J s) (t s) (dt s)
    (nb_iterations s) (u s) (u_n s) (T_T s) (T_T_n s) x.

Definition set_trap_density (x : fn) (tr : Trap) : Trap :=
  {| id := id tr; extrinsic := extrinsic tr; density := x;
     density_previous_solution := density_previous_solution tr;
     post_processing_solution := post_processing_solution tr |}.

Definition set_trap_density_previous_solution (x : fn) (tr : Trap) : Trap :=
  {| id := id tr; extrinsic := extrinsic tr; density := density tr;
     density_previous_solution := x;
     post_processing_solution := post_processing_solution tr |}.

Definition set_trap_post_processing_solution (x : expr) (tr : Trap) : Trap :=
  {| id := id tr; extrinsic := extrinsic tr; density := density tr;
     density_previous_solution := density_previous_solution tr;
     post_processing_solution := x |}.

(** What a coefficient reads when it evaluates [self._T(x)]. *)
Definition deref (s : Simulation) (r : fref) : fn :=
  match r with
  | Ref_T => T_T s
  | Ref_T_n => T_T_n s
  end.

(** The temperatures read by the coefficients that exist, in the
    order [D], [H], [thermal_cond], [S]; the solubility is part of
    the problem when the chemical potential is on. *)
Definition coefficient_temperatures (s : Simulation) : list fn :=
  let c := coefficients s in
  map (deref s)
      (D_T c :: option_list (H_T c) ++ option_list (thermal_cond_T c)
           ++ (if chemical_pot s then option_list (S_T c) else []))%list.

(** Effects on the outside of the simulation object, in program order. *)
Inductive event : Type :=
| Ev_update_expressions (time : Q)
| Ev_update_T_sub_expressions (time : Q)
| Ev_interpolate_T (time : Q)
| Ev_bind_coefficients
| Ev_print (msg : string)
| Ev_compute_jacobian
| Ev_solve_heat (T_new : fn)
| Ev_solve_main (T_of_coefficients : list fn) (u_new : fn)
| Ev_solve_extrinsic (trap_id : Z) (density_new : fn)
| Ev_solve_once (nb : nat) (converged : bool)
| Ev_assign_function (export_index : nat) (field : label) (f : expr)
| Ev_compute (export_index : nat) (time : Q)
| Ev_write (export_index : nat) (time : Q)
| Ev_assign_u_n (u_new : fn)
| Ev_assign_density_previous (trap_id : Z) (density_new : fn).

(** A computation on the simulation object: the events it emits, its
    result or exception, and the object afterwards. *)
Definition M (A : Type) : Type := Simulation -> list event * result A * Simulation.

#[local] Instance M_ret : MRet M := fun A a s => ([], Ok a, s).
#[local] Instance M_bind : MBind M := fun A B f m s =>
  let '(tr1, r, s1) := m s in
  match r with
  | Ok a => let '(tr2, r2, s2) := f a s1 in ((tr1 ++ tr2)%list, r2, s2)
  | Raise e => (tr1, Raise e, s1)
  end.

Definition get : M Simulation := fun s => ([], Ok s, s).
Definition modify (f : Simulation -> Simulation) : M unit := fun s => ([], Ok tt, f s).
Definition emit (e : event) : M unit := fun s => ([e], Ok tt, s).
Definition raise {A} (e : exn) : M A := fun s => ([], Raise e, s).
Definition lift {A} (r : result A) : M A := fun s => ([], r, s).

Fixpoint for_each_M {A} (body : A -> M unit) (l : list A) : M unit :=
  match l with
  | [] => mret tt
  | x :: l' => body x ;; for_each_M body l'
  end.

(** *** [create_H_fluxes] *)

Section Fluxes.
(** [FESTIM.helpers.bc_types["dc"]]. *)
Variable bc_types_dc : list string.

Definition is_flux_bc (bc : BoundaryCondition) : bool :=
  bool_decide (component bc <> LStr "T") && negb (str_in (bc_type bc) bc_types_dc).

(** The terms [-test_solute*bc.form*self.ds(surf)] of boundary
    condition number [i]. *)
Definition flux_terms (solute : expr) (i : nat) (bc : BoundaryCondition) : form :=
  if is_flux_bc bc
  then map (fun surf => (Mul (Neg (Test 0)) (BCForm i Temp solute), ds_sub surf))
           (surfaces bc)
  else [].

Definition flux_solute (s : Simulation) : expr :=
  if chemical_pot s then Mul (Sol 0) Solubility else Sol 0.

Definition create_H_fluxes (s : Simulation) : Simulation :=
  let solute := flux_solute s in
  let bcs := boundary_conditions s in
  let Fl := concat (imap (flux_terms solute) bcs) in
  let exprs := concat (map sub_expressions (List.filter is_flux_bc bcs)) in
  set_expressions (expressions s ++ exprs)%list (set_F (F s ++ Fl)%list s).
End Fluxes.

(** *** [initialise]: the properties and the change of variable *)

(** Lines 210 to 215: [self.S is not None] switches the chemical
    potential on; the coefficients are created pointing to [self.T.T]. *)
Definition initialise_properties (materials : list material) (s : Simulation) : Simulation :=
  let props := PostProcessing.create_properties materials in
  let bind (c : option PostProcessing.coefficient) :=
    match c with Some _ => Some Ref_T | None => None end in
  let s := set_coefficients
             {| D_T := Ref_T;
                H_T := bind (PostProcessing.H props);
                thermal_cond_T := bind (PostProcessing.thermal_cond props);
                S_T := bind (PostProcessing.S props) |} s in
  match PostProcessing.S props with
  | Some _ => set_chemical_pot true s
  | None => s
  end.

(** *** [update_post_processing_solutions] *)

Definition update_post_processing_solutions (s : Simulation) : Simulation :=
  let solute :=
    if chemical_pot s then Project (Mul (SubFunction 0) Solubility)
    else SubFunction 0 in
  set_traps
    (imap (fun i tr => set_trap_post_processing_solution (SubFunction (1 + i)) tr)
          (traps s))
    (set_mobile_post_processing_solution solute s).

(** *** The dictionary [label_to_function] *)

Definition add_trap_labels (d : gmap label expr) (tr : Trap) : gmap label expr :=
  <[LStr (pretty (id tr)) := post_processing_solution tr]>
    (<[LInt (id tr) := post_processing_solution tr]> d).

Definition retention (s : Simulation) : expr :=
  py_sum (mobile_post_processing_solution s :: map post_processing_solution (traps s)).

Definition label_to_function (s : Simulation) : gmap label expr :=
  let m := mobile_post_processing_solution s in
  fold_left add_trap_labels (traps s)
    (<[LStr "retention" := retention s]>
       (<[LStr "T" := Temp]>
          (<[LInt 0 := m]> (<[LStr "0" := m]> (<[LStr "solute" := m]> ∅))))).

Definition is_solute_label (l : label) : bool :=
  bool_decide (l = LStr "0") || bool_decide (l = LInt 0) || bool_decide (l = LStr "solute").

Definition quantity_needs_solute (q : Quantity) : bool :=
  match q_class q with
  | SurfaceFlux => is_solute_label (q_field q)
  | _ => false
  end.

Definition need_projecting_solute (s : Simulation) : bool :=
  existsb (fun export =>
             match export with
             | DerivedQuantities qs _ => existsb quantity_needs_solute qs
             | XDMFExport field => is_solute_label field
             | _ => false
             end) (exports s).

(** [label_to_function] once lines 513 to 518 have run. *)
Definition label_to_function_rescaled (s : Simulation) : gmap label expr :=
  let d := label_to_function s in
  if chemical_pot s then
    if need_projecting_solute s
    then <[LStr "solute" := Project (Mul (Sol 0) Solubility)]> d
    else <[LStr "solute" := Mul (Sol 0) Solubility]> d
  else d.

Definition lookup_label (d : gmap label expr) (l : label) : result expr :=
  match d !! l with
  | Some f => Ok f
  | None => Raise (KeyError "label_to_function")
  end.

(** *** The solver and export layer *)

(** The events of an auxiliary solve and of a commit, and what the
    commit does to one trap. *)
Definition solve_event (tr : Trap) : event :=
  Ev_solve_extrinsic (id tr) (density tr).

Definition commit_event (tr : Trap) : event :=
  Ev_assign_density_previous (id tr) (density tr).

Definition commit_trap (tr : Trap) : Trap :=
  if extrinsic tr then set_trap_density_previous_solution (density tr) tr else tr.

Section Run.
(** [interpolate(self.T.expression, self.V_CG1)] at a given time. *)
Variable interpolate_T : Q -> fn.
(** [solver.solve()] of the heat problem: the new contents of
    [self.T.T], or the exception it raises. *)
Variable heat_solver : Simulation -> result fn.
(** [FESTIM.solve_it]: the new contents of [self.u] and the new value
    of [self.dt], or the exception it raises. *)
Variable solve_it : Simulation -> result (fn * Q).
(** [FESTIM.solve_once]: new contents of [self.u], number of
    iterations, convergence flag. *)
Variable solve_once : Simulation -> fn * nat * bool.
(** [solve(trap.form_density == 0, trap.density[0], [])]. *)
Variable solve_density : Simulation -> Trap -> result fn.
(** [isinstance(f, Function)]. *)
Variable is_Function : expr -> bool.
Variable is_export_derived_quantities : Simulation -> Export -> bool.
Variable is_export_xdmf : Simulation -> Export -> bool.
(** The value of [self.dt] after [export.write(self.t, self.dt)]. *)
Variable txt_write_stepsize : Simulation -> Export -> Q.
(** [export.compute(self.t)] of an [Error] export. *)
Variable error_compute : Simulation -> nat -> expr -> R.

(** *** [run_post_processing] *)

(** [if not isinstance(d[l], Function): d[l] = project(d[l], V_DG1)] *)
Definition project_unless_Function (d : gmap label expr) (l : label)
  : result (gmap label expr) :=
  f ← lookup_label d l;
  Ok (if is_Function f then d else <[l := Project f]> d).

Fixpoint assign_quantities (k : nat) (qs : list Quantity) (d : gmap label expr)
  : M (gmap label expr) :=
  match qs with
  | [] => mret d
  | q :: qs' =>
      d1 ← match q_class q with
           | MaximumVolume | MinimumVolume =>
               lift (project_unless_Function d (q_field q))
           | _ => mret d
           end;
      f ← lift (lookup_label d1 (q_field q));
      emit (Ev_assign_function k (q_field q) f);;
      assign_quantities k qs' d1
  end.

(** Body of [for export in self.exports.exports] for export number [k]. *)
Definition post_process_export (k : nat) (export : Export) (d : gmap label expr)
  : M (gmap label expr) :=
  match export with
  | DerivedQuantities qs n =>
      d1 ← assign_quantities k qs d;
      s ← get;
      (if (n =? 0)%nat then raise (ZeroDivisionError "integer modulo by zero")
       else if (nb_iterations s mod n =? 0)%nat then emit (Ev_compute k (t s))
            else mret tt);;
      (if is_export_derived_quantities s export then emit (Ev_write k (t s))
       else mret tt);;
      mret d1
  | XDMFExport field =>
      s ← get;
      if is_export_xdmf s export then
        d1 ← (if bool_decide (field = LStr "retention")
              then lift (project_unless_Function d (LStr "retention"))
              else mret d);
        f ← lift (lookup_label d1 field);
        emit (Ev_assign_function k field f);;
        emit (Ev_write k (t s));;
        mret d1
      else mret d
  | TXTExport field =>
      d1 ← lift (project_unless_Function d field);
      f ← lift (lookup_label d1 field);
      emit (Ev_assign_function k field f);;
      s ← get;
      emit (Ev_write k (t s));;
      modify (set_dt (txt_write_stepsize s export));;
      mret d1
  | Error _ => mret d
  end.

Fixpoint post_process_exports (k : nat) (l : list Export) (d : gmap label expr)
  : M unit :=
  match l with
  | [] => mret tt
  | export :: l' =>
      d1 ← post_process_export k export d;
      post_process_exports (S k) l' d1
  end.

Definition run_post_processing : M unit :=
  modify update_post_processing_solutions;;
  s ← get;
  post_process_exports 0 (exports s) (label_to_function_rescaled s).

(** *** [make_output] *)

Record Output : Type := {
  out_error : option (list R);
  out_derived_quantities : option nat;  (* the export whose [data] is returned *)
  out_solutions : gmap string expr
}.

Fixpoint output_errors (k : nat) (l : list Export) (d : gmap label expr)
         (acc : option (list R)) : M (option (list R)) :=
  match l with
  | [] => mret acc
  | Error field :: l' =>
      f ← lift (lookup_label d field);
      emit (Ev_assign_function k field f);;
      s ← get;
      output_errors (S k) l' d (Some (default [] acc ++ [error_compute s k f])%list)
  | _ :: l' => output_errors (S k) l' d acc
  end.

Fixpoint output_derived_quantities (k : nat) (l : list Export) (acc : option nat)
  : option nat :=
  match l with
  | [] => acc
  | DerivedQuantities _ _ :: l' => output_derived_quantities (S k) l' (Some k)
  | _ :: l' => output_derived_quantities (S k) l' acc
  end.

Definition output_solutions (s : Simulation) (retention_field : expr)
  : gmap string expr :=
  <["retention" := Project retention_field]>
    (fold_left
       (fun m tr => <["trap_" ++ pretty (id tr) := post_processing_solution tr]> m)
       (traps s)
       (<["T" := Temp]> (<["solute" := mobile_post_processing_solution s]> ∅))).

Definition make_output : M Output :=
  modify update_post_processing_solutions;;
  s ← get;
  let d := label_to_function s in
  errors ← output_errors 0 (exports s) d None;
  ret_field ← lift (lookup_label d (LStr "retention"));
  mret {| out_error := errors;
          out_derived_quantities := output_derived_quantities 0 (exports s) None;
          out_solutions := output_solutions s ret_field |}.

(** *** [iterate] *)

Definition bind_coefficients (s : Simulation) : result Coefficients :=
  let c := coefficients s in
  let rebind (o : option fref) :=
    match o with Some _ => Some Ref_T | None => None end in
  S' ← (if chemical_pot s then
          match S_T c with
          | Some _ => Ok (Some Ref_T)
          | None => Raise (AttributeError "'NoneType' object has no attribute '_T'")
          end
        else Ok (S_T c));
  Ok {| D_T := Ref_T; H_T := rebind (H_T c);
        thermal_cond_T := rebind (thermal_cond_T c); S_T := S' |}.

(** [for trap in self.traps.traps: body], with the position of each
    trap in the list. *)
Definition for_each_trap (body : nat -> Trap -> M unit) : M unit :=
  s ← get;
  for_each_M (fun jt => body (fst jt) (snd jt)) (imap pair (traps s)).

Definition solve_extrinsic_trap (j : nat) (tr : Trap) : M unit :=
  if extrinsic tr then
    s ← get;
    d ← lift (solve_density s tr);
    modify (fun s => set_traps (<[j := set_trap_density d tr]> (traps s)) s);;
    emit (Ev_solve_extrinsic (id tr) d)
  else mret tt.

Definition commit_extrinsic_trap (j : nat) (tr : Trap) : M unit :=
  if extrinsic tr then
    modify (fun s =>
              set_traps (<[j := set_trap_density_previous_solution (density tr) tr]>
                           (traps s)) s);;
    emit (Ev_assign_density_previous (id tr) (density tr))
  else mret tt.

(** Lines 430 to 457: the time, the expressions, the temperature
    given as an expression, the temperature of the coefficients. *)
Definition update_current_time : M unit :=
  s ← get;
  let t' := (t s + dt s)%Q in
  modify (set_t t');;
  emit (Ev_update_expressions t');;
  emit (Ev_update_T_sub_expressions t');;
  (if String.eqb (T_type s) "expression" then
     modify (fun s => set_T_T_n (T_T s) s);;
     modify (set_T_T (interpolate_T t'));;
     emit (Ev_interpolate_T t')
   else mret tt);;
  s ← get;
  c ← lift (bind_coefficients s);
  modify (set_coefficients c);;
  emit Ev_bind_coefficients;;
  emit (Ev_print "progress").

(** Lines 459 to 471. *)
Definition solve_heat_transfers : M unit :=
  s ← get;
  if String.eqb (T_type s) "solve_transient" then
    T' ← lift (heat_solver s);
    modify (set_T_T T');;
    emit (Ev_solve_heat T');;
    modify (set_T_T_n T')
  else mret tt.

(** Lines 473 to 476.  The coefficients are evaluated when the
    problem is assembled: they read the temperature then. *)
Definition solve_main_problem : M unit :=
  s ← get;
  sol ← lift (solve_it s);
  modify (set_u (fst sol));;
  modify (set_dt (snd sol));;
  emit (Ev_solve_main (coefficient_temperatures s) (fst sol)).

(** Lines 478 to 481. *)
Definition solve_extrinsic_traps : M unit :=
  for_each_trap solve_extrinsic_trap.

(** Lines 486 to 491. *)
Definition update_previous_solutions : M unit :=
  s ← get;
  modify (set_u_n (u s));;
  emit (Ev_assign_u_n (u s));;
  for_each_trap commit_extrinsic_trap;;
  modify (fun s => set_nb_iterations (S (nb_iterations s)) s).

(** Lines 493 to 495. *)
Definition avoid_overshoot : M unit :=
  s ← get;
  if Qgtb (t s + dt s) (final_time (settings s))
  then modify (set_dt (final_time (settings s) - t s)%Q)
  else mret tt.

Definition iterate : M unit :=
  update_current_time;;
  solve_heat_transfers;;
  solve_main_problem;;
  solve_extrinsic_traps;;
  run_post_processing;;
  update_previous_solutions;;
  avoid_overshoot.

(** *** [run] *)

(** [while self.t < self.settings.final_time: self.iterate()];
    [None] when [fuel] iterations were not enough. *)
Fixpoint time_stepping (fuel : nat) (s : Simulation)
  : option (list event * result unit * Simulation) :=
  if Qltb (t s) (final_time (settings s)) then
    match fuel with
    | O => None
    | S fuel' =>
        let '(tr1, r, s1) := iterate s in
        match r with
        | Raise e => Some (tr1, Raise e, s1)
        | Ok _ =>
            match time_stepping fuel' s1 with
            | None => None
            | Some (tr2, r2, s2) => Some ((tr1 ++ tr2)%list, r2, s2)
            end
        end
    end
  else Some ([], Ok tt, s).

(** The steady-state branch.  The message of the exception also
    holds the elapsed time, which is left out. *)
Definition solve_steady_state : M unit :=
  emit (Ev_print "Solving steady state problem...");;
  s ← get;
  let '(u', nb, converged) := solve_once s in
  modify (set_u u');;
  emit (Ev_solve_once nb converged);;
  run_post_processing;;
  if converged : bool then emit (Ev_print "Solved problem")
  else raise (ValueError ("The solver diverged in " ++ pretty nb ++ " iteration(s)")).

Fixpoint write_derived_quantities (k : nat) (l : list Export) : M unit :=
  match l with
  | [] => mret tt
  | DerivedQuantities _ _ :: l' =>
      s ← get;
      emit (Ev_write k (t s));;
      write_derived_quantities (S k) l'
  | _ :: l' => write_derived_quantities (S k) l'
  end.

(** Lines 420 to 427. *)
Definition finish : M Output :=
  s ← get;
  write_derived_quantities 0 (exports s);;
  emit (Ev_print "\007");;
  make_output.

Definition run (fuel : nat) (s : Simulation)
  : option (list event * result Output * Simulation) :=
  let s := set_t 0 s in
  if transient (settings s) then
    let '(tr0, s) :=
      if update_jacobian (settings s) then ([], s)
      else ([Ev_compute_jacobian], set_J true s) in
    match time_stepping fuel s with
    | None => None
    | Some (tr1, Raise e, s1) =>
        Some ((tr0 ++ Ev_print "Time stepping..." :: tr1)%list, Raise e, s1)
    | Some (tr1, Ok _, s1) =>
        let '(tr2, r, s2) := (emit (Ev_print "Solved problem");; finish) s1 in
        Some ((tr0 ++ Ev_print "Time stepping..." :: tr1 ++ tr2)%list, r, s2)
    end
  else Some ((solve_steady_state;; finish) s).

(** *** The phases of [iterate] *)

(** The state after lines 486 to 495, and the events of the commit. *)
Definition committed (s5 : Simulation) : Simulation :=
  let s6 := set_nb_iterations (S (nb_iterations s5))
              (set_traps (map commit_trap (traps s5)) (set_u_n (u s5) s5)) in
  if Qgtb (t s6 + dt s6) (final_time (settings s6))
  then set_dt (final_time (settings s6) - t s6)%Q s6 else s6.

Definition commit_events (s5 : Simulation) : list event :=
  Ev_assign_u_n (u s5) :: map commit_event (List.filter extrinsic (traps s5)).

(** The run of [iterate]: the phases in order, up to the first one
    that raises. *)
Inductive iterate_run (s : Simulation)
  : list event -> result unit -> Simulation -> Prop :=
| run_stops_1 tr1 e s1 :
    update_current_time s = (tr1, Raise e, s1) ->
    iterate_run s tr1 (Raise e) s1
| run_stops_2 tr1 s1 tr2 e s2 :
    update_current_time s = (tr1, Ok tt, s1) ->
    solve_heat_transfers s1 = (tr2, Raise e, s2) ->
    iterate_run s (tr1 ++ tr2)%list (Raise e) s2
| run_stops_3 tr1 s1 tr2 s2 tr3 e s3 :
    update_current_time s = (tr1, Ok tt, s1) ->
    solve_heat_transfers s1 = (tr2, Ok tt, s2) ->
    solve_main_problem s2 = (tr3, Raise e, s3) ->
    iterate_run s (tr1 ++ tr2 ++ tr3)%list (Raise e) s3
| run_stops_4 tr1 s1 tr2 s2 tr3 s3 tr4 e s4 :
    update_current_time s = (tr1, Ok tt, s1) ->
    solve_heat_transfers s1 = (tr2, Ok tt, s2) ->
    solve_main_problem s2 = (tr3, Ok tt, s3) ->
    solve_extrinsic_traps s3 = (tr4, Raise e, s4) ->
    iterate_run s (tr1 ++ tr2 ++ tr3 ++ tr4)%list (Raise e) s4
| run_stops_5 tr1 s1 tr2 s2 tr3 s3 tr4 s4 tr5 e s5 :
    update_current_time s = (tr1, Ok tt, s1) ->
    solve_heat_transfers s1 = (tr2, Ok tt, s2) ->
    solve_main_problem s2 = (tr3, Ok tt, s3) ->
    solve_extrinsic_traps s3 = (tr4, Ok tt, s4) ->
    run_post_processing s4 = (tr5, Raise e, s5) ->
    iterate_run s (tr1 ++ tr2 ++ tr3 ++ tr4 ++ tr5)%list (Raise e) s5
| run_completes tr1 s1 tr2 s2 tr3 s3 tr4 s4 tr5 s5 :
    update_current_time s = (tr1, Ok tt, s1) ->
    solve_heat_transfers s1 = (tr2, Ok tt, s2) ->
    solve_main_problem s2 = (tr3, Ok tt, s3) ->
    solve_extrinsic_traps s3 = (tr4, Ok tt, s4) ->
    run_post_processing s4 = (tr5, Ok tt, s5) ->
    iterate_run s (tr1 ++ tr2 ++ tr3 ++ tr4 ++ tr5 ++ commit_events s5)%list (Ok tt)
                (committed s5).

End Run.

(** *** Observations on states and events *)

(** Two states that differ at most by the stepsize and by the
    post-processing solutions. *)
Definition same_fields (s s' : Simulation) : Prop :=
  settings s' = settings s /\ chemical_pot s' = chemical_pot s
  /\ T_type s' = T_type s /\ exports s' = exports s
  /\ coefficients s' = coefficients s
  /\ t s' = t s /\ nb_iterations s' = nb_iterations s
  /\ u s' = u s /\ u_n s' = u_n s /\ T_T s' = T_T s /\ T_T_n s' = T_T_n s
  /\ map id (traps s') = map id (traps s)
  /\ map extrinsic (traps s') = map extrinsic (traps s)
  /\ map density (traps s') = map density (traps s)
  /\ map density_previous_solution (traps s')
     = map density_previous_solution (traps s).

Definition is_post_processing_event (ev : event) : bool :=
  match ev with
  | Ev_assign_function _ _ _ | Ev_compute _ _ | Ev_write _ _ => true
  | _ => false
  end.

Definition is_heat_solve (ev : event) : bool :=
  match ev with Ev_solve_heat _ => true | _ => false end.

Definition is_main_solve (ev : event) : bool :=
  match ev with Ev_solve_main _ _ => true | _ => false end.

Definition is_auxiliary_solve (ev : event) : bool :=
  match ev with Ev_solve_extrinsic _ _ => true | _ => false end.

Definition is_solve (ev : event) : bool :=
  is_heat_solve ev || is_main_solve ev || is_auxiliary_solve ev.

(** The events that overwrite a previous-value slot. *)
Definition is_commit (ev : event) : bool :=
  match ev with
  | Ev_assign_u_n _ | Ev_assign_density_previous _ _ => true
  | _ => false
  end.

(** No event of the class [P] happens after an event of the class [Q]:
    every [P] comes before every [Q]. *)
Fixpoint all_before (P Q : event -> bool) (tr : list event) : bool :=
  match tr with
  | [] => true
  | ev :: tr' => (negb (Q ev) || negb (existsb P tr')) && all_before P Q tr'
  end.

(** A trap up to its density. *)
Definition same_trap (a b : Trap) : Prop :=
  id b = id a /\ extrinsic b = extrinsic a
  /\ density_previous_solution b = density_previous_solution a
  /\ post_processing_solution b = post_processing_solution a.

Definition is_preparation (ev : event) : bool :=
  match ev with
  | Ev_update_expressions _ | Ev_update_T_sub_expressions _ | Ev_interpolate_T _
  | Ev_bind_coefficients | Ev_print _ => true
  | _ => false
  end.

(** Every coefficient of the problem points to [self.T.T]. *)
Definition bound_to_T (chemical_pot : bool) (c : Coefficients) : Prop :=
  D_T c = Ref_T
  /\ (forall r, H_T c = Some r -> r = Ref_T)
  /\ (forall r, thermal_cond_T c = Some r -> r = Ref_T)
  /\ (chemical_pot = true -> forall r, S_T c = Some r -> r = Ref_T).

(** The ids of the extrinsic traps. *)
Definition extrinsic_ids (s : Simulation) : list Z :=
  map id (List.filter extrinsic (traps s)).

Definition solved_extrinsic_ids (tr : list event) : list Z :=
  omap (fun ev => match ev with Ev_solve_extrinsic i _ => Some i | _ => None end) tr.

Definition committed_extrinsic_ids (tr : list event) : list Z :=
  omap (fun ev => match ev with Ev_assign_density_previous i _ => Some i | _ => None end)
       tr.

(** The times of the steps of a trace: [self.t] after each
    [self.t += float(self.dt.value)]. *)
Definition step_times (tr : list event) : list Q :=
  omap (fun ev => match ev with Ev_update_expressions time => Some time | _ => None end)
       tr.

(** A field up to the projections onto [V_DG1]. *)
Fixpoint unprojected (e : expr) : expr :=
  match e with
  | Project a => unprojected a
  | _ => e
  end.

(** The field is the physical concentration [theta * S], projected
    or not. *)
Definition rescaled (f : expr) : Prop :=
  forall rho, eval rho (unprojected f) = Some (sol rho 0 * solubility rho)%R.

(** The fields that [update_post_processing_solutions] stores: the
    mobile concentration, then one field for each trap. *)
Definition mobile_field (chemical_pot : bool) : expr :=
  if chemical_pot then Project (Mul (SubFunction 0) Solubility) else SubFunction 0.

Definition stored_fields (s : Simulation) : list expr :=
  mobile_field (chemical_pot s) :: map SubFunction (seq 1 (length (traps s))).

(** The field is the sum of the fields of [l], projected or not. *)
Definition sum_of (l : list expr) (f : expr) : Prop :=
  unprojected f = py_sum l.

End Simulation.

Arguments Trap : clear implicits.
Arguments Simulation : clear implicits.
Arguments event : clear implicits.
Arguments M : clear implicits.
Arguments Output : clear implicits.

End GenericSimulation.
(** ** festim/hydrogen_transport_problem.py *)

Module HydrogenTransport.

Record Species : Type := {
  name : string;
  solution : expr;
  prev_solution : expr;
  test_function : expr
}.

(** [assign_functions_to_species]: species number [idx] is bound to the
    components number [idx] of [u], [u_n] and the test function. *)
Definition assign_functions_to_species (names : list string) : list Species :=
  imap (fun idx n =>
          {| name := n; solution := Sol idx; prev_solution := Prev idx;
             test_function := Test idx |}) names.

Section Problem.
(** The classes [festim.Material] and [festim.Source], and the call
    [vol.material.get_diffusion_coefficient(mesh, temperature, spe)]. *)
Variable Material : Type.
Variable Source : Type.
Variable get_diffusion_coefficient : Material -> Species -> expr.

Record VolumeSubdomain : Type := {
  id : Z;
  material : Material
}.

Record HydrogenTransportProblem : Type := {
  species : list Species;
  volume_subdomains : list VolumeSubdomain;
  sources : list Source
}.

Definition with_sources (l : list Source) (p : HydrogenTransportProblem)
  : HydrogenTransportProblem :=
  {| species := species p; volume_subdomains := volume_subdomains p; sources := l |}.

(** The two terms added for one species and one volume. *)
Definition volume_terms (spe : Species) (vol : VolumeSubdomain) : form :=
  let u := solution spe in
  let u_n := prev_solution spe in
  let v := test_function spe in
  let D := get_diffusion_coefficient (material vol) spe in
  [ (Dot (Mul D (Grad u)) (Grad v), dx_sub (SId (id vol)));
    (Mul (Div (Sub u u_n) Dt) v, dx_sub (SId (id vol))) ].

Definition create_formulation (p : HydrogenTransportProblem) : result form :=
  if (1 <? length (sources p))%nat
  then Raise (NotImplementedError "Sources not implemented yet")
  else Ok (flat_map (fun spe => flat_map (volume_terms spe) (volume_subdomains p))
                    (species p)).

(** *** [run] *)

(** The finite-element functions are values of [fn]; [solve] is
    [self.solver.solve(self.u)] at the given time, and [surface_flux]
    assembles the flux of one species through surface 2. *)
Variable fn : Type.
Variable solve : Q -> fn -> fn -> result fn.
Variable surface_flux : nat -> fn -> R.

Record run_state : Type := {
  t : Q;
  u : fn;
  u_n : fn;
  times : list Q;
  flux_values : list R;
  flux_values_1 : list R;
  flux_values_2 : list R
}.

Inductive fluxes : Type :=
| OneSpecies (l : list R)
| TwoSpecies (l1 l2 : list R).

(** Body of the [while] loop, for [nb_species] species. *)
Definition run_step (nb_species : nat) (dt : Q) (st : run_state) : result run_state :=
  let t' := (t st + dt)%Q in
  u' ← solve t' (u_n st) (u st);
  match nb_species with
  | 1%nat =>
      Ok {| t := t'; u := u'; u_n := u';
            times := (times st ++ [t'])%list;
            flux_values := (flux_values st ++ [surface_flux 0 u'])%list;
            flux_values_1 := flux_values_1 st;
            flux_values_2 := flux_values_2 st |}
  | 2%nat =>
      Ok {| t := t'; u := u'; u_n := u';
            times := (times st ++ [t'])%list;
            flux_values := flux_values st;
            flux_values_1 := (flux_values_1 st ++ [surface_flux 0 u'])%list;
            flux_values_2 := (flux_values_2 st ++ [surface_flux 1 u'])%list |}
  | _ => Raise (ValueError "not enough values to unpack")
  end.

Fixpoint run_loop (fuel : nat) (nb_species : nat) (dt final_time : Q)
         (st : run_state) : option (result run_state) :=
  if Qltb (t st) final_time then
    match fuel with
    | O => None
    | S fuel' =>
        match run_step nb_species dt st with
        | Ok st' => run_loop fuel' nb_species dt final_time st'
        | Raise e => Some (Raise e)
        end
    end
  else Some (Ok st).

(** [run]: [None] when [fuel] iterations did not reach the final time. *)
Definition run (fuel : nat) (nb_species : nat) (dt final_time : Q) (u0 u_n0 : fn)
  : option (result (list Q * fluxes)) :=
  let st0 := {| t := 0; u := u0; u_n := u_n0; times := []; flux_values := [];
                flux_values_1 := []; flux_values_2 := [] |} in
  match run_loop fuel nb_species dt final_time st0 with
  | None => None
  | Some (Raise e) => Some (Raise e)
  | Some (Ok st) =>
      Some (Ok (times st,
                if (nb_species =? 2)%nat
                then TwoSpecies (flux_values_1 st) (flux_values_2 st)
                else OneSpecies (flux_values st)))
  end.

End Problem.

Arguments id {Material} _.
Arguments material {Material} _.
Arguments species {Material Source} _.
Arguments volume_subdomains {Material Source} _.
Arguments sources {Material Source} _.
Arguments with_sources {Material Source} _ _.
Arguments volume_terms {Material} _ _ _.
Arguments create_formulation {Material Source} _ _.
Arguments run {fn} _ _ _ _ _ _ _ _.

End HydrogenTransport.
(** ** Python list indexing *)

(** The functions below index lists, which raises [IndexError] out of
    range. *)
Module PyIndex.

Inductive exception : Type :=
| Std (e : exn)
| IndexError (msg : string)
| UnboundLocalError (msg : string).

Inductive outcome (A : Type) : Type :=
| Return (a : A)
| Throw (e : exception).
Arguments Return {A} a.
Arguments Throw {A} e.

#[export] Instance outcome_ret : MRet outcome := fun A a => Return a.
#[export] Instance outcome_bind : MBind outcome := fun A B f m =>
  match m with
  | Return a => f a
  | Throw e => Throw e
  end.
#[export] Instance outcome_fmap : FMap outcome := fun A B f m =>
  match m with
  | Return a => Return (f a)
  | Throw e => Throw e
  end.

Definition throws {A} (r : outcome A) : bool :=
  match r with Return _ => false | Throw _ => true end.

Definition of_result {A} (r : result A) : outcome A :=
  match r with
  | Ok a => Return a
  | Raise e => Throw (Std e)
  end.

(** [l[i]]: a negative index counts from the end. *)
Definition list_getitem {A} (l : list A) (i : Z) : outcome A :=
  let n := Z.of_nat (length l) in
  let j := if (i <? 0)%Z then (i + n)%Z else i in
  if (j <? 0)%Z then Throw (IndexError "list index out of range")
  else match l !! Z.to_nat j with
       | Some x => Return x
       | None => Throw (IndexError "list index out of range")
       end.

(** [d[key]] for a dictionary with string keys. *)
Definition dict_getitem {V} (d : gmap string V) (key : string) : outcome V :=
  match d !! key with
  | Some v => Return v
  | None => Throw (Std (KeyError key))
  end.

End PyIndex.

(** ** post_processing.py: [derived_quantities] *)

Module DerivedQuantities.
Import PostProcessing PyIndex.

Section DerivedQuantities.
(** The solutions (Functions or Expressions), the properties and the
    markers. *)
Context {A Pr Mk : Type}.
(** [isinstance(val, function.expression.Expression)] and
    [interpolate(val, W)]. *)
Variable is_Expression : A -> bool.
Variable interpolate : A -> A.

(** The numbers appended to [tab], as the calls that compute them. *)
Inductive quantity : Type :=
| QSurfaceFlux (prop : Pr) (sol : A) (surf : Z) (soret_term : option (Pr * A))
    (** [assemble(prop*dot(grad(sol), n)*ds(surf))], and with
        [Some (Q, T)] the term
        [assemble(prop*sol*Q/(FESTIM.R*T**2)*dot(grad(T), n)*ds(surf))]
        added to it *)
| QAverageVolume (sol : A) (vol : Z)
    (** [assemble(sol*dx(vol))/assemble(1*dx(vol))] *)
| QMinimumVolume (sol : A) (vol : Z)
    (** [calculate_minimum_volume(sol, volume_markers, vol)] *)
| QMinimumRetention (fs : list A) (vol : Z)
    (** the sum of [calculate_minimum_volume(f, volume_markers, vol)]
        for [f] in [fs] *)
| QMaximumVolume (sol : A) (vol : Z)
| QMaximumRetention (fs : list A) (vol : Z)
| QTotalVolume (sol : A) (vol : Z)
    (** [assemble(sol*dx(vol))] *)
| QTotalSurface (sol : A) (surf : Z).
    (** [assemble(sol*ds(surf))] *)

(** [str(f["field"])], [f["surfaces"]] and [f["volumes"]]. *)
Definition field_key (f : dq_item) : outcome string :=
  match field f with
  | Some fld => Return (str_of_field fld)
  | None => Throw (Std (KeyError "field"))
  end.

Definition item_surfaces (f : dq_item) : outcome (list Z) :=
  match surfaces f with
  | Some l => Return l
  | None => Throw (Std (KeyError "surfaces"))
  end.

Definition item_volumes (f : dq_item) : outcome (list Z) :=
  match volumes f with
  | Some l => Return l
  | None => Throw (Std (KeyError "volumes"))
  end.

(** [for f in l: body], where the body appends to [tab]. *)
Fixpoint for_entries (body : dq_item -> outcome (list quantity)) (l : list dq_item)
  : outcome (list quantity) :=
  match l with
  | [] => Return []
  | f :: l' =>
      q ← body f;
      q' ← for_entries body l';
      Return (q ++ q')%list
  end.

(** [if key in derived_quant_dict.keys(): for f in derived_quant_dict[key]: body] *)
Definition block (d : list (string * dq_value)) (key : string)
           (body : dq_item -> outcome (list quantity)) : outcome (list quantity) :=
  match dict_get d key with
  | None => Return []
  | Some (DQItems l) => for_entries body l
  | Some (DQPath EmptyString) => Return []
  | Some (DQPath _) => Throw (Std (TypeError "string indices must be integers"))
  end.

(** The dictionary [field_to_sol] of lines 366 to 377: the entries
    ['solute'], ['retention'] and ['T'], then [str(i)] for [i] in
    [range(1, len(solutions)-2)]; the Expressions are interpolated. *)
Definition field_to_sol (solutions : list A) (s0 ret T : A) : gmap string A :=
  let d := <["T" := T]> (<["retention" := ret]> (<["solute" := s0]> ∅)) in
  let d := fold_left (fun d i =>
                        match solutions !! i with
                        | Some x => <[pretty (Z.of_nat i) := x]> d
                        | None => d
                        end)
                     (seq 1 (length solutions - 3)) d in
  (fun val => if is_Expression val then interpolate val else val) <$> d.

(** [parameters["temperature"]["soret"] is True], where each of the
    two keys may be absent. *)
Definition soret_is_True (soret : option (option bool)) : bool :=
  match soret with
  | Some (Some true) => true
  | _ => false
  end.

Definition derived_quantities (soret : option (option bool))
           (derived_quant_dict : list (string * dq_value))
           (solutions : list A) (markers : list Mk) (properties : list Pr)
  : outcome (list quantity) :=
  D ← list_getitem properties 0;
  thermal_cond ← list_getitem properties 1;
  Q ← (if soret_is_True soret then Some <$> list_getitem properties 2
       else Return None);
  _ ← list_getitem markers 0;
  _ ← list_getitem markers 1;
  s0 ← list_getitem solutions 0;
  ret ← list_getitem solutions (Z.of_nat (length solutions) - 2);
  T ← list_getitem solutions (Z.of_nat (length solutions) - 1);
  let field_to_sol := field_to_sol solutions s0 ret T in
  let field_to_prop : gmap string Pr := <["T" := thermal_cond]> (<["solute" := D]> ∅) in
  let on_volumes (make : A -> Z -> quantity) (f : dq_item) :=
    key ← field_key f;
    sol ← dict_getitem field_to_sol key;
    vols ← item_volumes f;
    Return (map (make sol) vols) in
  let extremum (make : A -> Z -> quantity) (of_retention : list A -> Z -> quantity)
               (f : dq_item) :=
    key ← field_key f;
    if String.eqb key "retention" then
      vols ← item_volumes f;
      Return (map (of_retention (take (length solutions - 2) solutions)) vols)
    else
      sol ← dict_getitem field_to_sol key;
      vols ← item_volumes f;
      Return (map (make sol) vols) in
  t1 ← block derived_quant_dict "surface_flux"
         (fun flux =>
            key ← field_key flux;
            sol ← dict_getitem field_to_sol key;
            prop ← dict_getitem field_to_prop key;
            surfs ← item_surfaces flux;
            Return (map (fun surf =>
                           QSurfaceFlux prop sol surf
                             (match Q with
                              | Some q => if String.eqb key "solute" then Some (q, T)
                                          else None
                              | None => None
                              end)) surfs));
  t2 ← block derived_quant_dict "average_volume" (on_volumes QAverageVolume);
  t3 ← block derived_quant_dict "minimum_volume"
         (extremum QMinimumVolume QMinimumRetention);
  t4 ← block derived_quant_dict "maximum_volume"
         (extremum QMaximumVolume QMaximumRetention);
  t5 ← block derived_quant_dict "total_volume" (on_volumes QTotalVolume);
  t6 ← block derived_quant_dict "total_surface"
         (fun total =>
            key ← field_key total;
            sol ← dict_getitem field_to_sol key;
            surfs ← item_surfaces total;
            Return (map (QTotalSurface sol) surfs));
  Return (t1 ++ t2 ++ t3 ++ t4 ++ t5 ++ t6)%list.

(** *** When [derived_quantities] returns *)

(** The keys of [field_to_sol] for [n] solutions. *)
Definition has_solution (n : nat) (key : string) : bool :=
  str_in key ["solute"; "retention"; "T"]
  || existsb (fun i => String.eqb key (pretty (Z.of_nat i))) (seq 1 (n - 3)).

Definition flux_ready (f : dq_item) : bool :=
  match field f, surfaces f with
  | Some fld, Some _ => str_in (str_of_field fld) ["solute"; "T"]
  | _, _ => false
  end.

Definition surface_ready (n : nat) (f : dq_item) : bool :=
  match field f, surfaces f with
  | Some fld, Some _ => has_solution n (str_of_field fld)
  | _, _ => false
  end.

Definition volume_ready (n : nat) (f : dq_item) : bool :=
  match field f, volumes f with
  | Some fld, Some _ => has_solution n (str_of_field fld)
  | _, _ => false
  end.

Definition block_ready (d : list (string * dq_value)) (key : string)
           (ready : dq_item -> bool) : bool :=
  match dict_get d key with
  | None => true
  | Some (DQItems l) => forallb ready l
  | Some (DQPath EmptyString) => true
  | Some (DQPath _) => false
  end.

Definition ready (d : list (string * dq_value)) (n : nat) : bool :=
  block_ready d "surface_flux" flux_ready
  && block_ready d "average_volume" (volume_ready n)
  && block_ready d "minimum_volume" (volume_ready n)
  && block_ready d "maximum_volume" (volume_ready n)
  && block_ready d "total_volume" (volume_ready n)
  && block_ready d "total_surface" (surface_ready n).

End DerivedQuantities.

End DerivedQuantities.
(** ** post_processing.py: [compute_error] *)

Module ComputeError.
Import PyIndex.

Section ComputeError.
(** The solutions and the exact solutions. *)
Context {A E : Type}.

(** One error dictionary; [None] is an absent key.  The entries of
    ["computed_solutions"] are tested with [type(err) is str] and
    [type(err) is int], as the fields of the derived quantities. *)
Record error_dict : Type := {
  exact_solutions : option (list E);
  computed_solutions : option (list PostProcessing.pyfield);
  degree : option Z;
  norm : option string
}.

Definition with_computed_solutions (l : list PostProcessing.pyfield) (error : error_dict) : error_dict :=
  {| exact_solutions := exact_solutions error;
     computed_solutions := Some l;
     degree := degree error;
     norm := norm error |}.

(** The members of a row [er]: the time, then one error for each
    exact solution, as the call that computes it. *)
Inductive cell : Type :=
| CTime (t : Q)
| CErrorMax (computed_sol : A) (exact : E) (degree : Z)
    (** [np.max(np.abs(vertex_values_u - vertex_values_sol))] *)
| CErrorNorm (computed_sol : A) (exact : E) (degree : Z) (norm : string).
    (** [errornorm(exact_sol, computed_sol, error["norm"])] *)

(** [error[name]]. *)
Definition key {V} (name : string) (v : option V) : outcome V :=
  match v with
  | Some x => Return x
  | None => Throw (Std (KeyError name))
  end.

(** Lines 107 to 119: the value of the local variable [computed_sol]
    after the tests on [type(err)]; [None] is the variable not yet
    assigned.  An entry that is neither a string nor an integer
    leaves the variable as it is. *)
Definition select (res : list A) (solution_dict : gmap string A)
           (computed_sol : option A) (err : PostProcessing.pyfield) : outcome (option A) :=
  match err with
  | PostProcessing.FStr s =>
      if isdigit s then Some <$> list_getitem res (int_of_str s)
      else match solution_dict !! s with
           | Some x => Return (Some x)
           | None => Throw (Std (KeyError ("The key " ++ s ++ " is unknown.")))
           end
  | PostProcessing.FInt n => Some <$> list_getitem res n
  | PostProcessing.FOther _ => Return computed_sol
  end.

(** Reading the local variable. *)
Definition read (computed_sol : option A) : outcome A :=
  match computed_sol with
  | Some x => Return x
  | None => Throw (UnboundLocalError
                     "local variable 'computed_sol' referenced before assignment")
  end.

(** [for i in range(len(error["exact_solutions"]))], from index [i]
    on: the errors appended to [er] and the last value of
    [computed_sol]. *)
Fixpoint error_entries (res : list A) (solution_dict : gmap string A)
         (error : error_dict) (exacts : list E) (i : nat) (computed_sol : option A)
  : outcome (list cell * option A) :=
  match exacts with
  | [] => Return ([], computed_sol)
  | exact :: exacts' =>
      deg ← key "degree" (degree error);
      computed ← key "computed_solutions" (computed_solutions error);
      err ← list_getitem computed (Z.of_nat i);
      computed_sol ← select res solution_dict computed_sol err;
      nrm ← key "norm" (norm error);
      c ← read computed_sol;
      let e := if String.eqb nrm "error_max" then CErrorMax c exact deg
               else CErrorNorm c exact deg nrm in
      rest ← error_entries res solution_dict error exacts' (S i) computed_sol;
      Return (e :: fst rest, snd rest)
  end.

(** [for error in parameters]. *)
Fixpoint error_rows (t : Q) (res : list A) (solution_dict : gmap string A)
         (parameters : list error_dict) (computed_sol : option A)
  : outcome (list (list cell)) :=
  match parameters with
  | [] => Return []
  | error :: parameters' =>
      exacts ← key "exact_solutions" (exact_solutions error);
      er ← error_entries res solution_dict error exacts 0 computed_sol;
      tab ← error_rows t res solution_dict parameters' (snd er);
      Return ((CTime t :: fst er) :: tab)
  end.

Definition compute_error (parameters : list error_dict) (t : Q) (res : list A)
  : outcome (list (list cell)) :=
  s0 ← list_getitem res 0;
  ret ← list_getitem res (Z.of_nat (length res) - 2);
  T ← list_getitem res (Z.of_nat (length res) - 1);
  let solution_dict : gmap string A :=
    <["T" := T]> (<["retention" := ret]> (<["solute" := s0]> ∅)) in
  error_rows t res solution_dict parameters None.

(** A digit string written as the integer it denotes. *)
Definition as_integer (err : PostProcessing.pyfield) : PostProcessing.pyfield :=
  match err with
  | PostProcessing.FStr s => if isdigit s then PostProcessing.FInt (int_of_str s) else err
  | _ => err
  end.

Definition with_integers (error : error_dict) : error_dict :=
  {| exact_solutions := exact_solutions error;
     computed_solutions := map as_integer <$> computed_solutions error;
     degree := degree error;
     norm := norm error |}.

End ComputeError.

Arguments error_dict : clear implicits.
Arguments cell : clear implicits.

End ComputeError.
(** ** FESTIM/generic_simulation.py: the objects created by [Simulation.__init__] *)

Module GenericSimulationSetup.
Import PyIndex.

(** [d[name]] for a key that may be absent. *)
Definition key {V} (name : string) (v : option V) : outcome V :=
  match v with
  | Some x => Return x
  | None => Throw (Std (KeyError name))
  end.

(** *** [create_boundarycondition_objects] *)

Section BoundaryConditions.
(** A boundary-condition dictionary and its entry ["type"]. *)
Context {BC : Type}.
Variable type_of : BC -> option string.

(** The objects [FESTIM.DirichletBC] and [FESTIM.FluxBC] made from
    the entries of a dictionary; [temperature] is the argument
    [component="T"]. *)
Inductive bc_object : Type :=
| DirichletBC (temperature : bool) (kwargs : BC)
| FluxBC (temperature : bool) (kwargs : BC).

(** [parameters["boundary_conditions"]] and
    [parameters["temperature"]["boundary_conditions"]]. *)
Record bc_parameters : Type := {
  boundary_conditions : option (list BC);
  temperature : option (option (list BC))
}.

(** Reading the local variable [my_BC]. *)
Definition read (my_BC : option bc_object) : outcome bc_object :=
  match my_BC with
  | Some x => Return x
  | None => Throw (UnboundLocalError
                     "local variable 'my_BC' referenced before assignment")
  end.

(** One of the two loops; the state is the local variable [my_BC]
    and the list [self.boundary_conditions]. *)
Fixpoint bc_loop (temperature : bool) (dc neumann robin : list string)
         (l : list BC) (my_BC : option bc_object) (acc : list bc_object)
  : outcome (option bc_object * list bc_object) :=
  match l with
  | [] => Return (my_BC, acc)
  | bc :: l' =>
      ty ← key "type" (type_of bc);
      let my_BC :=
        if str_in ty dc then Some (DirichletBC temperature bc)
        else if negb (str_in ty neumann) || negb (str_in ty robin)
             then Some (FluxBC temperature bc)
             else my_BC in
      obj ← read my_BC;
      bc_loop temperature dc neumann robin l' my_BC (acc ++ [obj])%list
  end.

Section Types.
(** [FESTIM.helpers.bc_types] and [FESTIM.helpers.T_bc_types], under
    their keys ["dc"], ["neumann"] and ["robin"]. *)
Variables dc neumann robin : list string.
Variables T_dc T_neumann T_robin : list string.

Definition create_boundarycondition_objects (p : bc_parameters)
  : outcome (list bc_object) :=
  st ← match boundary_conditions p with
       | Some l => bc_loop false dc neumann robin l None []
       | None => Return (None, [])
       end;
  st ← match temperature p with
       | Some (Some l) => bc_loop true T_dc T_neumann T_robin l (fst st) (snd st)
       | _ => Return st
       end;
  Return (snd st).

(** The class of the object created for a dictionary whose type is
    [ty]: a Dirichlet condition for the types of ["dc"], a flux
    for every other type. *)
Definition classify (temperature : bool) (dc : list string) (bc : BC) (ty : string)
  : bc_object :=
  if str_in ty dc then DirichletBC temperature bc else FluxBC temperature bc.

End Types.

End BoundaryConditions.

(** *** [create_exports] *)

Section Exports.
(** The dictionaries under ["xdmf"], ["derived_quantities"] and
    ["txt"], the export objects made from the first and the last,
    and the members of an error dictionary. *)
Context {XDMF DQ TXT XDMFExport TXTExport Field Exact Norm Degree : Type}.
(** The attribute [xdmf_exports] of the [FESTIM.XDMFExports] and the
    attribute [exports] of the [FESTIM.TXTExports] made from the
    entries of a dictionary. *)
Variable xdmf_exports : XDMF -> list XDMFExport.
Variable txt_exports : TXT -> list TXTExport.

Record error_dict : Type := {
  fields : option (list Field);
  exact_solutions : option (list Exact);
  norm : option Norm;
  degree : option Degree
}.

Record exports_dict : Type := {
  xdmf : option XDMF;
  derived_quantities : option DQ;
  txt : option TXT;
  error : option (list error_dict)
}.

Inductive export_object : Type :=
| OfXDMF (export : XDMFExport)
| DerivedQuantities (kwargs : DQ)
| OfTXT (export : TXTExport)
| Error (field : Field) (exact : Exact) (norm : Norm) (degree : Degree).

(** [for field, exact in zip(...)]. *)
Fixpoint error_objects (error_dict : error_dict) (l : list (Field * Exact))
  : outcome (list export_object) :=
  match l with
  | [] => Return []
  | (field, exact) :: l' =>
      n ← key "norm" (norm error_dict);
      d ← key "degree" (degree error_dict);
      rest ← error_objects error_dict l';
      Return (Error field exact n d :: rest)
  end.

(** [for error_dict in self.parameters["exports"]["error"]]. *)
Fixpoint error_exports (l : list error_dict) : outcome (list export_object) :=
  match l with
  | [] => Return []
  | error_dict :: l' =>
      fs ← key "fields" (fields error_dict);
      es ← key "exact_solutions" (exact_solutions error_dict);
      objs ← error_objects error_dict (combine fs es);
      rest ← error_exports l';
      Return (objs ++ rest)%list
  end.

(** [self.exports.exports] after [create_exports]; the argument is
    [parameters["exports"]], if present. *)
Definition create_exports (exports : option exports_dict)
  : outcome (list export_object) :=
  match exports with
  | None => Return []
  | Some d =>
      let l1 := match xdmf d with
                | Some x => map OfXDMF (xdmf_exports x)
                | None => []
                end in
      let l2 := match derived_quantities d with
                | Some dq => [DerivedQuantities dq]
                | None => []
                end in
      let l3 := match txt d with
                | Some x => map OfTXT (txt_exports x)
                | None => []
                end in
      l4 ← match error d with
           | Some l => error_exports l
           | None => Return []
           end;
      Return (l1 ++ l2 ++ l3 ++ l4)%list
  end.

Definition is_Error (export : export_object) : bool :=
  match export with Error _ _ _ _ => true | _ => false end.

(** The number of pairs of [zip(error_dict["fields"],
    error_dict["exact_solutions"])]. *)
Definition nb_pairs (error_dict : error_dict) : nat :=
  Nat.min (length (default [] (fields error_dict)))
          (length (default [] (exact_solutions error_dict))).

End Exports.

End GenericSimulationSetup.

(** ** Sample inputs *)

Module Samples.
Import CasTestSolubility.

(** A material with a callable pre-exponential factor and a constant
    thermal conductivity. *)
Definition callable_material : material :=
  <["id" := VInt 1]>
    (<["D_0" := VCallable (fun T => 2 * T)%R]>
       (<["E_D" := VFloat 1]>
          (<["S_0" := VFloat 5]>
             (<["E_S" := VFloat 0]>
                (<["thermal_cond" := VFloat 3]>
                   (<["rho" := VCallable (fun T => T + 1)%R]> ∅)))))).

(** One material and one trap in it. *)
Definition sample_material : material :=
  <["id" := VInt 1]>
    (<["D_0" := VFloat 2]>
       (<["E_diff" := VFloat 1]>
          (<["S_0" := VFloat 5]>
             (<["E_S" := VFloat 3]>
                (<["alpha" := VFloat 4]> (<["beta" := VFloat 6]> ∅)))))).

Definition sample_trap : trap :=
  {| density := "1e20"; energy := 7; materials := OneMaterial 1 |}.

Definition sample_parameters : parameters :=
  {| p_materials := [sample_material]; p_traps := [sample_trap] |}.

Definition sample_formulation (dt : expr) (transient : bool) : result (form * list expr) :=
  formulation 1 Helpers.find_material_from_id sample_parameters dt transient.

(** A flux of the mobile concentration that names no surface. *)
Definition flux_without_surface : PostProcessing.dq_item :=
  {| PostProcessing.field := Some (PostProcessing.FStr "solute");
     PostProcessing.surfaces := None;
     PostProcessing.volumes := None |}.

Definition sample_derived_quantities : list (string * PostProcessing.dq_value) :=
  [("surface_flux", PostProcessing.DQItems [flux_without_surface])].

Definition sample_run_parameters : run_parameters :=
  {| solving_type := Some "solve_transient";
     final_time := 10;
     initial_stepsize := 3;
     temperature_type := "expression";
     physics := sample_parameters;
     exports_derived_quantities := Some sample_derived_quantities |}.

(** A run of the hydrogen transport problem whose solver always
    converges: one species, functions without content. *)
Definition sample_run (fuel : nat) (dt final_time : Q) : option (result (list Q * HydrogenTransport.fluxes)) :=
  HydrogenTransport.run (fun _ _ (_ : unit) => Ok tt) (fun _ _ => 0%R) fuel 1 dt final_time tt tt.

Definition run_times (r : option (result (list Q * HydrogenTransport.fluxes))) : option (list Q) :=
  match r with
  | Some (Ok (times, _)) => Some times
  | _ => None
  end.

(** *** Simulations whose functions have no content *)

Definition no_coefficients : GenericSimulation.Coefficients :=
  {| GenericSimulation.D_T := GenericSimulation.Ref_T;
     GenericSimulation.H_T := None;
     GenericSimulation.thermal_cond_T := None;
     GenericSimulation.S_T := None |}.

(** A simulation at [t = 0] without traps, given its settings, its
    stepsize and its exports. *)
Definition simulation (transient : bool) (final_time dt : Q)
           (exports : list GenericSimulation.Export) : GenericSimulation.Simulation unit :=
  GenericSimulation.mkSimulation
    {| GenericSimulation.transient := transient;
       GenericSimulation.final_time := final_time;
       GenericSimulation.update_jacobian := true |}
    false "expression" [] [] exports no_coefficients [] [] false 0 dt 0 tt tt tt tt
    (SubFunction 0).

(** [Simulation.run] with solvers that always succeed and keep the
    stepsize; the steady-state solver reports [nb] iterations and
    [converged]. *)
Definition run_simulation (nb : nat) (converged : bool) (fuel : nat)
           (s : GenericSimulation.Simulation unit) :=
  GenericSimulation.run
    (fun _ => tt) (fun _ => Ok tt) (fun s => Ok (tt, GenericSimulation.dt s))
    (fun _ => (tt, nb, converged)) (fun _ _ => Ok tt) (fun _ => false)
    (fun _ _ => true) (fun _ _ => true) (fun s _ => GenericSimulation.dt s)
    (fun _ _ _ => 0%R) fuel s.

(** The loop of a transient run, with the same solvers. *)
Definition time_stepping_simulation (fuel : nat) (s : GenericSimulation.Simulation unit) :=
  GenericSimulation.time_stepping
    (fun _ => tt) (fun _ => Ok tt) (fun s => Ok (tt, GenericSimulation.dt s))
    (fun _ _ => Ok tt) (fun _ => false)
    (fun _ _ => true) (fun _ _ => true) (fun s _ => GenericSimulation.dt s) fuel s.

(** The events and the result of a run. *)
Definition outcome {A} (r : option (list (GenericSimulation.event unit) * result A
                                    * GenericSimulation.Simulation unit))
  : option (list (GenericSimulation.event unit) * result A) :=
  match r with
  | Some (tr, res, _) => Some (tr, res)
  | None => None
  end.

(** The times of the steps of a run and the time it ends at. *)
Definition times_of {A} (r : option (list (GenericSimulation.event unit) * result A
                                     * GenericSimulation.Simulation unit))
  : option (list Q * Q) :=
  match r with
  | Some (tr, _, s) => Some (GenericSimulation.step_times tr, GenericSimulation.t s)
  | None => None
  end.

End Samples.
(** ** Sample simulations with traps and exports *)

Module TrapSamples.
Import GenericSimulation.

Definition trap (i : Z) : Trap unit :=
  {| id := i;
     extrinsic := false;
     density := tt;
     density_previous_solution := tt;
     post_processing_solution := SubFunction 0 |}.

(** An XDMF export of the second trap, derived quantities on the first
    trap and on the retention, an error on the mobile concentration and
    a TXT export of the temperature. *)
Definition sample_exports : list Export :=
  [XDMFExport (LStr "2");
   DerivedQuantities [{| q_class := SurfaceFlux; q_field := LInt 1 |};
                      {| q_class := MaximumVolume; q_field := LStr "retention" |}] 1;
   Error (LStr "solute");
   TXTExport (LStr "T")].

(** A simulation with the traps 1 and 2 and these exports. *)
Definition simulation (transient : bool) (final_time dt : Q) : Simulation unit :=
  mkSimulation
    {| GenericSimulation.transient := transient;
       GenericSimulation.final_time := final_time;
       update_jacobian := true |}
    true "expression" [] [trap 1; trap 2] sample_exports Samples.no_coefficients
    [] [] false 0 dt 0 tt tt tt tt (SubFunction 0).

End TrapSamples.
(** ** Sample derived quantities *)

Module DQSamples.
Import PostProcessing.

Definition on_surfaces (fld : pyfield) (surfs : list Z) : dq_item :=
  {| field := Some fld; surfaces := Some surfs; volumes := None |}.

Definition on_volumes (fld : pyfield) (vols : list Z) : dq_item :=
  {| field := Some fld; surfaces := None; volumes := Some vols |}.

(** The flux of the mobile concentration through two surfaces, the
    total retention in one volume and the total of the first trap in
    two volumes. *)
Definition sample_dict : list (string * dq_value) :=
  [("surface_flux", DQItems [on_surfaces (FStr "solute") [1; 2]%Z]);
   ("total_volume", DQItems [on_volumes (FStr "retention") [1]%Z;
                             on_volumes (FInt 1) [1; 2]%Z]);
   ("file", DQPath "derived_quantities.csv")].

Definition sample_parameters : parameters :=
  {| derived_quantities := sample_dict; traps_len := 1 |}.

(** The average of field 0 in one volume. *)
Definition zero_dict : list (string * dq_value) :=
  [("average_volume", DQItems [on_volumes (FInt 0) [1]%Z])].

(** The flux of the first trap through one surface. *)
Definition trap_flux_dict : list (string * dq_value) :=
  [("surface_flux", DQItems [on_surfaces (FInt 1) [1]%Z])].

(** [derived_quantities] on the mobile concentration, one trap, the
    retention and the temperature, all of them Functions, with the
    Soret effect. *)
Definition sample_derived_quantities (d : list (string * dq_value)) :=
  DerivedQuantities.derived_quantities
    (fun _ : string => false) (fun x => x) (Some (Some true)) d
    ["u_0"; "u_1"; "retention"; "T"] [tt; tt] ["D"; "thermal_cond"; "H"].

End DQSamples.
(** ** Sample error dictionaries *)

Module ErrorSamples.
Import ComputeError.

(** Two exact solutions; the second computed solution is a float. *)
Definition sample_error : error_dict string :=
  {| exact_solutions := Some ["x"; "2*x"];
     computed_solutions := Some [PostProcessing.FStr "solute"; PostProcessing.FOther "1.0"];
     degree := Some 2%Z;
     norm := Some "L2" |}.

Definition sample_res : list string := ["u_0"; "u_1"; "retention"; "T"].

Definition sample_table : list (list (cell string string)) :=
  [[CTime 0; CErrorNorm "u_0" "x" 2 "L2"; CErrorNorm "u_0" "2*x" 2 "L2"]].

End ErrorSamples.

(** * Properties *)

(** ** Results and loops *)

Module PyFacts.

Lemma raises_false_Ok {A} (r : result A) : raises r = false <-> exists a, r = Ok a.
Proof.
  destruct r as [a|e]; simpl; split; intros H; eauto; try discriminate.
  destruct H as [x H]; discriminate.
Qed.

Lemma raises_true_Raise {A} (r : result A) : raises r = true <-> exists e, r = Raise e.
Proof.
  destruct r as [a|e]; simpl; split; intros H; eauto; try discriminate.
  destruct H as [x H]; discriminate.
Qed.

Lemma for_each_Ok {A} (body : A -> result unit) (l : list A) :
  for_each body l = Ok tt <-> Forall (fun x => body x = Ok tt) l.
Proof.
  induction l as [|x l IH]; simpl.
  - split; [constructor | reflexivity].
  - unfold mbind, result_bind. destruct (body x) as [[]|e] eqn:Hx.
    + rewrite IH. split.
      * intros Hl. constructor; assumption.
      * intros Hl. inversion Hl; assumption.
    + split; [discriminate|]. intros Hl. inversion Hl; congruence.
Qed.

Lemma str_in_In (x : string) (l : list string) : str_in x l = true <-> In x l.
Proof.
  unfold str_in. rewrite existsb_exists. split.
  - intros (y & Hy & Heq). apply String.eqb_eq in Heq. subst. assumption.
  - intros Hx. exists x. split; [assumption | apply String.eqb_refl].
Qed.

(** A string of digits denotes a natural number: the test [int(s) < 0]
    of the validation never fires. *)
Lemma digits_fold_nonneg (l : list ascii) (acc : Z) :
  (0 <= acc)%Z -> forallb is_digit_char l = true ->
  (0 <= fold_left (fun a c => (10 * a + (Z.of_nat (nat_of_ascii c) - 48))%Z) l acc)%Z.
Proof.
  revert acc. induction l as [|c l IH]; intros acc Hacc Hd; simpl in *.
  - assumption.
  - apply andb_prop in Hd as [Hc Hl]. apply IH; [|assumption].
    unfold is_digit_char in Hc. apply andb_prop in Hc as [Hlo _].
    apply Nat.leb_le in Hlo. lia.
Qed.

Lemma int_of_str_nonneg (s : string) : isdigit s = true -> (0 <= int_of_str s)%Z.
Proof.
  intros Hd. unfold int_of_str. apply digits_fold_nonneg; [lia|].
  destruct s; [discriminate | exact Hd].
Qed.

End PyFacts.

(** ** post_processing.py *)

Module PostProcessingFacts.
Import PostProcessing PyFacts.

Section CheckKeys.
Variable quantity_types : list string.
Variable field_types : list string.

Lemma check_field_accepted (nb : Z) (f : pyfield) :
  check_field field_types nb f = Ok tt <-> field_accepted field_types nb f = true.
Proof.
  destruct f as [n|s|r]; simpl.
  - destruct (n >? nb)%Z eqn:Hgt; destruct (n <? 0)%Z eqn:Hlt; simpl;
      rewrite andb_true_iff, Z.leb_le, Z.leb_le;
      (split; [intros H; try discriminate; lia | intros [H1 H2]; try reflexivity; lia]).
  - destruct (str_in s field_types); simpl; [split; reflexivity|].
    destruct (isdigit s) eqn:Hd; simpl; [|split; discriminate].
    pose proof (int_of_str_nonneg s Hd) as Hnn.
    destruct (int_of_str s >? nb)%Z eqn:Hgt; destruct (int_of_str s <? 0)%Z eqn:Hlt;
      simpl; rewrite Z.leb_le;
      (split; [intros H; try discriminate; lia | intros H; try reflexivity; lia]).
  - split; reflexivity.
Qed.

Lemma check_item_accepted (nb : Z) (f : dq_item) :
  check_item field_types nb f = Ok tt <-> item_accepted field_types nb f = true.
Proof.
  unfold check_item, item_accepted. destruct (field f) as [fld|]; simpl.
  - pose proof (check_field_accepted nb fld) as Hf.
    destruct (check_field field_types nb fld) as [[]|e];
      destruct (field_accepted field_types nb fld); simpl;
      destruct (surfaces f), (volumes f); simpl;
      try (split; reflexivity); try (split; discriminate);
      try (exfalso; destruct Hf as [H1 H2];
           first [specialize (H1 eq_refl) | specialize (H2 eq_refl)]; discriminate).
  - split; discriminate.
Qed.

Lemma check_entries_accepted (nb : Z) (q : string) (v : dq_value) :
  check_entries field_types nb v = Ok tt <->
  match v with
  | DQItems l => forallb (item_accepted field_types nb) l
  | DQPath EmptyString => true
  | DQPath _ => false
  end = true.
Proof.
  destruct v as [l|[|c s]]; simpl.
  - rewrite for_each_Ok, forallb_forall, Forall_forall.
    split; intros H x Hx.
    + apply check_item_accepted, H. apply list_elem_of_In, Hx.
    + apply check_item_accepted, H. apply list_elem_of_In, Hx.
  - split; reflexivity.
  - split; discriminate.
Qed.

Lemma check_quantity_accepted (nb : Z) (kv : string * dq_value) :
  check_quantity quantity_types field_types nb kv = Ok tt <->
  quantity_accepted quantity_types field_types nb kv = true.
Proof.
  destruct kv as [q v]. unfold check_quantity, quantity_accepted. simpl fst; simpl snd.
  set (known := str_in q (quantity_types ++ ["file"; "folder"])).
  set (path := str_in q ["file"; "folder"]).
  destruct known, path; cbn [negb andb orb];
    try (split; reflexivity); try (split; discriminate).
  apply (check_entries_accepted nb q v).
Qed.

(** The validation succeeds exactly on the accepted dictionaries. *)
Lemma check_keys_accepted (p : parameters) :
  check_keys_derived_quantities quantity_types field_types p = Ok tt <->
  derived_quantities_accepted quantity_types field_types p = true.
Proof.
  unfold check_keys_derived_quantities, derived_quantities_accepted.
  rewrite for_each_Ok, forallb_forall, Forall_forall.
  split; intros H x Hx.
  - apply check_quantity_accepted, H. apply list_elem_of_In, Hx.
  - apply check_quantity_accepted, H. apply list_elem_of_In, Hx.
Qed.

Lemma check_keys_rejected (p : parameters) :
  derived_quantities_accepted quantity_types field_types p = false ->
  exists e, check_keys_derived_quantities quantity_types field_types p = Raise e.
Proof.
  intros Hacc.
  destruct (check_keys_derived_quantities quantity_types field_types p) as [[]|e] eqn:Hc.
  - apply check_keys_accepted in Hc. congruence.
  - eauto.
Qed.

Lemma header_rejected (p : parameters) :
  derived_quantities_accepted quantity_types field_types p = false ->
  exists e, header_derived_quantities quantity_types field_types p = Raise e.
Proof.
  intros Hacc. destruct (check_keys_rejected p Hacc) as [e He].
  exists e. unfold header_derived_quantities. rewrite He. reflexivity.
Qed.

End CheckKeys.

(** *** Material properties *)

Section Coefficients.
Variable k_B : R.
Variable find_material_from_id : list material -> Z -> result material.

Lemma arrhenius_exponent (e T : R) : (- e / k_B / T = - e / (k_B * T))%R.
Proof. unfold Rdiv. rewrite Rinv_mult. ring. Qed.

Lemma ArheniusCoeff_numbers materials pre E id T m a e :
  find_material_from_id materials id = Ok m ->
  m !! pre = Some (VFloat a) -> m !! E = Some (VFloat e) ->
  ArheniusCoeff_eval_cell k_B find_material_from_id materials pre E id T
  = Ok (a * exp (- e / (k_B * T)))%R.
Proof.
  intros Hm Hpre HE. unfold ArheniusCoeff_eval_cell, getitem.
  rewrite Hm. simpl. rewrite Hpre, HE. simpl.
  rewrite arrhenius_exponent. reflexivity.
Qed.

Lemma ArheniusCoeff_callable materials pre E id T m f e :
  find_material_from_id materials id = Ok m ->
  m !! pre = Some (VCallable f) -> m !! E = Some e ->
  ArheniusCoeff_eval_cell k_B find_material_from_id materials pre E id T
  = Raise (TypeError "unsupported operand type(s)").
Proof.
  intros Hm Hpre HE. unfold ArheniusCoeff_eval_cell, getitem.
  rewrite Hm. simpl. rewrite Hpre, HE. simpl.
  destruct e; reflexivity.
Qed.

Lemma ThermalProp_callable materials key id T m f :
  find_material_from_id materials id = Ok m ->
  m !! key = Some (VCallable f) ->
  ThermalProp_eval_cell find_material_from_id materials key id T = Ok (f T).
Proof.
  intros Hm Hkey. unfold ThermalProp_eval_cell, getitem.
  rewrite Hm. simpl. rewrite Hkey. reflexivity.
Qed.

Lemma ThermalProp_number materials key id T m x :
  find_material_from_id materials id = Ok m ->
  m !! key = Some (VFloat x) ->
  ThermalProp_eval_cell find_material_from_id materials key id T = Ok x.
Proof.
  intros Hm Hkey. unfold ThermalProp_eval_cell, getitem.
  rewrite Hm. simpl. rewrite Hkey. reflexivity.
Qed.

(** C5 (amended).  In a cell whose material is [m]: the diffusivity
    and the solubility are the Arrhenius law of the two numbers stored
    under their keys, [a * exp(-e / (k_B * T))], and a callable
    pre-exponential factor is not invoked but is a [TypeError]; the
    thermal conductivity, the heat capacity and the density are the
    result of the stored callable at [T], or else the stored number
    itself. *)
Theorem property_accessors (materials : list material) (id : Z) (T : R) (m : material) :
  find_material_from_id materials id = Ok m ->
  (forall acc pre E,
      In (acc, (pre, E))
         [(diffusivity k_B find_material_from_id, ("D_0", "E_D"));
          (solubility_coefficient k_B find_material_from_id, ("S_0", "E_S"))] ->
      (forall a e, m !! pre = Some (VFloat a) -> m !! E = Some (VFloat e) ->
                   acc materials id T = Ok (a * exp (- e / (k_B * T)))%R) /\
      (forall f e, m !! pre = Some (VCallable f) -> m !! E = Some e ->
                   exists msg, acc materials id T = Raise (TypeError msg)))
  /\
  (forall acc key,
      In (acc, key)
         [(thermal_conductivity find_material_from_id, "thermal_cond");
          (heat_capacity find_material_from_id, "heat_capacity");
          (density find_material_from_id, "rho")] ->
      (forall f, m !! key = Some (VCallable f) -> acc materials id T = Ok (f T)) /\
      (forall x, m !! key = Some (VFloat x) -> acc materials id T = Ok x)).
Proof.
  intros Hm. split.
  - intros acc pre E Hin. simpl in Hin.
    destruct Hin as [Heq|[Heq|[]]]; inversion Heq; subst; clear Heq; split.
    + intros a e Ha He. eapply ArheniusCoeff_numbers; eassumption.
    + intros f e Hf He. eexists. eapply ArheniusCoeff_callable; eassumption.
    + intros a e Ha He. eapply ArheniusCoeff_numbers; eassumption.
    + intros f e Hf He. eexists. eapply ArheniusCoeff_callable; eassumption.
  - intros acc key Hin. simpl in Hin.
    destruct Hin as [Heq|[Heq|[Heq|[]]]]; inversion Heq; subst; clear Heq; split;
      intros; first [eapply ThermalProp_callable | eapply ThermalProp_number];
      eassumption.
Qed.

End Coefficients.

Lemma property_accessors_witness :
  Helpers.find_material_from_id [Samples.callable_material] 1 = Ok Samples.callable_material /\
  solubility_coefficient 1 Helpers.find_material_from_id [Samples.callable_material] 1 300
  = Ok (5 * exp (- 0 / (1 * 300)))%R /\
  density Helpers.find_material_from_id [Samples.callable_material] 1 300 = Ok (300 + 1)%R.
Proof.
  assert (Hm : Helpers.find_material_from_id [Samples.callable_material] 1 = Ok Samples.callable_material)
    by reflexivity.
  destruct (property_accessors 1 Helpers.find_material_from_id
              [Samples.callable_material] 1 300 Samples.callable_material Hm) as [HA HT].
  split; [exact Hm|]. split.
  - refine (proj1 (HA _ "S_0" "E_S" _) 5%R 0%R _ _);
      [right; left; reflexivity | reflexivity | reflexivity].
  - refine (proj1 (HT _ "rho" _) (fun T => T + 1)%R _);
      [right; right; left; reflexivity | reflexivity].
Defined.

(** C5 as stated fails.  The material supplies a callable under
    ["D_0"]: the statement has the diffusivity return [2 * 300], the code
    raises [TypeError].  The thermal conductivity is stored as the
    number [3]: the statement has an Arrhenius law evaluated, the code
    returns [3] at every temperature. *)
Lemma accessors_not_uniform :
  diffusivity 1 Helpers.find_material_from_id [Samples.callable_material] 1 300
  = Raise (TypeError "unsupported operand type(s)")
  /\ diffusivity 1 Helpers.find_material_from_id [Samples.callable_material] 1 300
     <> Ok (2 * 300)%R
  /\ (forall T : R,
        thermal_conductivity Helpers.find_material_from_id [Samples.callable_material] 1 T = Ok 3%R).
Proof.
  split; [reflexivity|]. split; [discriminate|]. intros T. reflexivity.
Qed.

End PostProcessingFacts.

(** ** Cas_test_solubility/cas_test_solubility.py *)

Module CasTestSolubilityFacts.
Import CasTestSolubility PyFacts.

(** Inversion of a successful sequence of binds. *)
Ltac bind_inv H :=
  unfold mbind, result_bind in H;
  repeat match type of H with
         | match ?r with Ok _ => _ | Raise _ => _ end = Ok _ =>
             let E := fresh "E" in
             destruct r eqn:E; [|discriminate H]
         end.

Section Formulation.
Variable k_B : R.
Variable find_material_from_id : list material -> Z -> result material.

Abbreviation formulation' := (formulation k_B find_material_from_id).

Lemma concat_results_In (l : list (result form)) (F G : form) :
  concat_results l = Ok F -> In (Ok G) l -> incl G F.
Proof.
  revert F. induction l as [|r l IH]; intros F HF Hin; [destruct Hin|].
  simpl in HF. bind_inv HF. injection HF as <-.
  destruct Hin as [Hin|Hin].
  - injection Hin as ->. apply incl_appl, incl_refl.
  - apply incl_appr. eapply IH; [reflexivity | assumption].
Qed.

Lemma concat_results_elem (l : list (result form)) (F : form) (tm : term) :
  concat_results l = Ok F -> In tm F -> exists G, In (Ok G) l /\ In tm G.
Proof.
  revert F. induction l as [|r l IH]; intros F HF Hin.
  - injection HF as <-. destruct Hin.
  - simpl in HF. bind_inv HF. injection HF as <-.
    apply in_app_or in Hin as [Hin|Hin].
    + exists a. split; [left; reflexivity | assumption].
    + destruct (IH _ eq_refl Hin) as (G & HG & Htm).
      exists G. split; [right; assumption | assumption].
Qed.

Lemma concat_results_map_Ok {A} (f : A -> result form) (l : list A) (F : form) (x : A) :
  concat_results (map f l) = Ok F -> In x l -> exists G, f x = Ok G /\ incl G F.
Proof.
  revert F. induction l as [|y l IH]; intros F HF Hin; [destruct Hin|].
  simpl in HF. bind_inv HF. injection HF as <-.
  destruct Hin as [->|Hin].
  - exists a. split; [assumption | apply incl_appl, incl_refl].
  - destruct (IH _ eq_refl Hin) as (G & HG & Hincl).
    exists G. split; [assumption | apply incl_appr, Hincl].
Qed.

Lemma traps_terms_lookup dt transient mats trs i F j tr :
  traps_terms k_B find_material_from_id dt transient mats trs i = Ok F ->
  trs !! j = Some tr ->
  exists G, trap_terms k_B find_material_from_id dt transient mats tr (i + j) = Ok G
            /\ incl G F.
Proof.
  revert i F j. induction trs as [|tr0 trs IH]; intros i F j HF Hj; [discriminate|].
  simpl in HF. bind_inv HF. injection HF as <-.
  destruct j as [|j]; simpl in Hj.
  - injection Hj as ->. rewrite Nat.add_0_r.
    exists a. split; [assumption | apply incl_appl, incl_refl].
  - destruct (IH _ _ _ E0 Hj) as (G & HG & Hincl).
    exists G. split.
    + rewrite <- HG. f_equal. lia.
    + apply incl_appr, Hincl.
Qed.

Lemma traps_terms_elem dt transient mats trs i F tm :
  traps_terms k_B find_material_from_id dt transient mats trs i = Ok F ->
  In tm F ->
  exists j tr G, trs !! j = Some tr
                 /\ trap_terms k_B find_material_from_id dt transient mats tr (i + j) = Ok G
                 /\ In tm G.
Proof.
  revert i F. induction trs as [|tr0 trs IH]; intros i F HF Hin.
  - injection HF as <-. destruct Hin.
  - simpl in HF. bind_inv HF. injection HF as <-.
    apply in_app_or in Hin as [Hin|Hin].
    + exists 0%nat, tr0, a. rewrite Nat.add_0_r. auto.
    + destruct (IH _ _ E0 Hin) as (j & tr & G & Hj & HG & Htm).
      exists (S j), tr, G. split; [exact Hj|]. split; [|exact Htm].
      rewrite <- HG. f_equal. lia.
Qed.

(** What one subdomain of a trap contributes. *)
Lemma trap_subdomain_terms_inv mats tr i sub H :
  trap_subdomain_terms k_B find_material_from_id mats tr i sub = Ok H ->
  exists m D_0 E_diff alpha beta S_0 E_S,
    find_material_from_id mats sub = Ok m
    /\ number m "D_0" D_0 /\ number m "E_diff" E_diff
    /\ number m "alpha" alpha /\ number m "beta" beta
    /\ number m "S_0" S_0 /\ number m "E_S" E_S
    /\ H = [(capture k_B D_0 E_diff alpha beta S_0 E_S (density tr) i, dx_sub (SId sub));
            (release k_B (energy tr) i, dx_sub (SId sub))].
Proof.
  intros HH. unfold trap_subdomain_terms in HH. bind_inv HH.
  injection HH as <-.
  unfold getitem in *.
  repeat match goal with
         | Hg : match ?m !! ?k with Some _ => _ | None => _ end = Ok _ |- _ =>
             let Ek := fresh "Ek" in
             destruct (m !! k) eqn:Ek; [injection Hg as -> | discriminate Hg]
         end.
  unfold number. do 7 eexists. split; [reflexivity|].
  repeat (split; [eexists; split; eassumption|]).
  reflexivity.
Qed.

Lemma trap_terms_inv dt transient mats tr i G :
  trap_terms k_B find_material_from_id dt transient mats tr i = Ok G ->
  exists per,
    concat_results (map (trap_subdomain_terms k_B find_material_from_id mats tr i)
                        (as_list (materials tr))) = Ok per
    /\ G = ((if transient then [(trap_rate dt i i, dx)] else [])
              ++ per ++ [(trap_rate dt i 0, dx)])%list.
Proof.
  intros HG. unfold trap_terms in HG. bind_inv HG. injection HG as <-.
  exists a. split; reflexivity.
Qed.

Lemma material_terms_inv dt transient m G :
  material_terms k_B dt transient m = Ok G ->
  exists D_0 E_diff S_0 E_S sd,
    number m "D_0" D_0 /\ number m "E_diff" E_diff
    /\ number m "S_0" S_0 /\ number m "E_S" E_S
    /\ G = ((if transient then [(mobile_time_derivative k_B dt S_0 E_S, dx_sub sd)] else [])
              ++ [(diffusion k_B D_0 E_diff S_0 E_S, dx_sub sd)])%list.
Proof.
  intros HG. unfold material_terms in HG. bind_inv HG. injection HG as <-.
  unfold getitem in *.
  repeat match goal with
         | Hg : match ?m !! ?k with Some _ => _ | None => _ end = Ok _ |- _ =>
             let Ek := fresh "Ek" in
             destruct (m !! k) eqn:Ek; [injection Hg as -> | discriminate Hg]
         end.
  unfold number. do 5 eexists.
  repeat (split; [eexists; split; eassumption|]).
  reflexivity.
Qed.

(** *** Values of the rate terms *)

Lemma eval_capture rho D_0 E_diff alpha beta S_0 E_S dens i :
  eval rho (capture k_B D_0 E_diff alpha beta S_0 E_S dens i)
  = Some (- (D_0 * exp (- E_diff / (k_B * temp rho)) / (alpha * alpha * beta))
          * (S_0 * exp (- E_S / (k_B * temp rho)))
          * sol rho 0 * (expression rho dens - sol rho i) * test rho i)%R.
Proof.
  simpl. f_equal.
  replace (- E_diff / k_B / temp rho)%R with (- E_diff / (k_B * temp rho))%R
    by (unfold Rdiv; rewrite Rinv_mult; ring).
  replace (- E_S / k_B / temp rho)%R with (- E_S / (k_B * temp rho))%R
    by (unfold Rdiv; rewrite Rinv_mult; ring).
  unfold Rdiv. rewrite !Rinv_mult. ring.
Qed.

Lemma eval_release rho E i :
  eval rho (release k_B E i)
  = Some (v_0 * exp (- E / (k_B * temp rho)) * sol rho i * test rho i)%R.
Proof.
  simpl. f_equal.
  replace (- E / k_B / temp rho)%R with (- E / (k_B * temp rho))%R
    by (unfold Rdiv; rewrite Rinv_mult; ring).
  reflexivity.
Qed.

Lemma eval_trap_rate rho dt i j d :
  eval rho dt = Some d ->
  eval rho (trap_rate dt i j) = Some ((sol rho i - prev rho i) / d * test rho j)%R.
Proof. intros Hd. simpl. rewrite Hd. reflexivity. Qed.

Lemma formulation_inv p dt transient Fx exprs :
  formulation' p dt transient = Ok (Fx, exprs) ->
  exists Fm Ft,
    concat_results (map (material_terms k_B dt transient) (p_materials p)) = Ok Fm
    /\ traps_terms k_B find_material_from_id dt transient (p_materials p) (p_traps p) 1
       = Ok Ft
    /\ Fx = (Fm ++ Ft)%list.
Proof.
  intros HF. unfold formulation in HF. bind_inv HF. injection HF as <- <-.
  eauto.
Qed.

(** Only three kinds of terms are tested with the mobile test
    function: the time derivative of the mobile concentration, its
    diffusion, and the rate of change of each trap. *)
Lemma mobile_equation_terms p dt transient Fx exprs tm :
  formulation' p dt transient = Ok (Fx, exprs) ->
  In tm Fx -> tested_with (fst tm) = Some 0%nat ->
  mobile_equation_term k_B dt (fst tm).
Proof.
  intros HF Hin Htest.
  destruct (formulation_inv _ _ _ _ _ HF) as (Fm & Ft & HFm & HFt & ->).
  apply in_app_or in Hin as [Hin|Hin].
  - destruct (concat_results_elem _ _ _ HFm Hin) as (G & HG & Htm).
    apply in_map_iff in HG as (m & HG & _).
    destruct (material_terms_inv _ _ _ _ HG)
      as (D_0 & E_diff & S_0 & E_S & sd & _ & _ & _ & _ & ->).
    apply in_app_or in Htm as [Htm|Htm].
    + destruct transient; [|destruct Htm].
      destruct Htm as [<-|[]]. constructor.
    + destruct Htm as [<-|[]]. constructor.
  - destruct (traps_terms_elem _ _ _ _ _ _ _ HFt Hin) as (j & tr & G & Hj & HG & Htm).
    destruct (trap_terms_inv _ _ _ _ _ _ HG) as (per & Hper & ->).
    apply in_app_or in Htm as [Htm|Htm].
    { destruct transient; [|destruct Htm].
      destruct Htm as [<-|[]]. simpl in Htest. discriminate. }
    apply in_app_or in Htm as [Htm|Htm].
    + destruct (concat_results_elem _ _ _ Hper Htm) as (H & HH & HtmH).
      apply in_map_iff in HH as (sub & HH & _).
      destruct (trap_subdomain_terms_inv _ _ _ _ _ HH)
        as (m & D_0 & E_diff & alpha & beta & S_0 & E_S & _ & _ & _ & _ & _ & _ & _ & ->).
      destruct HtmH as [<-|[<-|[]]]; simpl in Htest; discriminate.
    + destruct Htm as [<-|[]]. constructor.
Qed.

(** C3 (amended).  For every trap (number [S j]) and every subdomain
    of it, the residual holds the capture term
    [- D(T)/(alpha^2 beta) * S(T) * c_mobile * (density - c_trap)] and
    the release term [v_0 * exp(-E/(k_B T)) * c_trap], both tested with
    the test function of the trap.  The mobile equation holds neither:
    in a transient run it receives the rate of change of the trap,
    [(c_trap - c_trap_prev)/dt], tested with the mobile test function,
    and its terms are only time derivatives, diffusion and such rates. *)
Theorem trap_reaction_terms p dt transient Fx exprs j tr sub :
  formulation' p dt transient = Ok (Fx, exprs) ->
  p_traps p !! j = Some tr ->
  In sub (as_list (materials tr)) ->
  exists m D_0 E_diff alpha beta S_0 E_S,
    find_material_from_id (p_materials p) sub = Ok m
    /\ number m "D_0" D_0 /\ number m "E_diff" E_diff
    /\ number m "alpha" alpha /\ number m "beta" beta
    /\ number m "S_0" S_0 /\ number m "E_S" E_S
    /\ In (capture k_B D_0 E_diff alpha beta S_0 E_S (density tr) (S j),
           dx_sub (SId sub)) Fx
    /\ In (release k_B (energy tr) (S j), dx_sub (SId sub)) Fx
    /\ tested_with (capture k_B D_0 E_diff alpha beta S_0 E_S (density tr) (S j))
       = Some (S j)
    /\ tested_with (release k_B (energy tr) (S j)) = Some (S j)
    /\ (forall rho,
           eval rho (capture k_B D_0 E_diff alpha beta S_0 E_S (density tr) (S j))
           = Some (- (D_0 * exp (- E_diff / (k_B * temp rho)) / (alpha * alpha * beta))
                   * (S_0 * exp (- E_S / (k_B * temp rho)))
                   * sol rho 0 * (expression rho (density tr) - sol rho (S j))
                   * test rho (S j))%R)
    /\ (forall rho,
           eval rho (release k_B (energy tr) (S j))
           = Some (v_0 * exp (- energy tr / (k_B * temp rho)) * sol rho (S j)
                   * test rho (S j))%R)
    /\ (transient = true -> In (trap_rate dt (S j) 0, dx) Fx)
    /\ (forall tm, In tm Fx -> tested_with (fst tm) = Some 0%nat ->
                   mobile_equation_term k_B dt (fst tm)).
Proof.
  intros HF Hj Hsub.
  destruct (formulation_inv _ _ _ _ _ HF) as (Fm & Ft & HFm & HFt & HFx).
  destruct (traps_terms_lookup _ _ _ _ _ _ _ _ HFt Hj) as (G & HG & HGF).
  destruct (trap_terms_inv _ _ _ _ _ _ HG) as (per & Hper & HGeq).
  destruct (concat_results_map_Ok _ _ _ _ Hper Hsub) as (H & HH & HHper).
  destruct (trap_subdomain_terms_inv _ _ _ _ _ HH)
    as (m & D_0 & E_diff & alpha & beta & S_0 & E_S & Hm & H1 & H2 & H3 & H4 & H5 & H6 & HHeq).
  exists m, D_0, E_diff, alpha, beta, S_0, E_S.
  assert (HinG : forall tm, In tm H -> In tm Fx).
  { intros tm Htm. subst Fx. apply in_or_app. right. apply HGF. subst G.
    apply in_or_app. right. apply in_or_app. left. apply HHper, Htm. }
  repeat (split; [assumption|]).
  split; [apply HinG; subst H; left; reflexivity|].
  split; [apply HinG; subst H; right; left; reflexivity|].
  split; [reflexivity|]. split; [reflexivity|].
  split; [intros rho; apply eval_capture|].
  split; [intros rho; apply eval_release|].
  split.
  - intros _. subst Fx. apply in_or_app. right. apply HGF. subst G.
    apply in_or_app. right. apply in_or_app. right. left. reflexivity.
  - intros tm Htm Htest. eapply mobile_equation_terms; eassumption.
Qed.


End Formulation.

(** *** [run]: the set-up and the loop *)

#[local] Existing Instance W_ret.
#[local] Existing Instance W_bind.

Section Run.
Variable k_B : R.
Variable find_material_from_id : list material -> Z -> result material.
Variable quantity_types : list string.
Variable field_types : list string.
Variable nb_extrinsic : list trap -> nat.
Variable solve_heat : Q -> result unit.
Variable solve_it : Q -> Q -> result Q.
Variable solve_extrinsic : nat -> Q -> result unit.

Abbreviation setup' :=
  (setup k_B find_material_from_id quantity_types field_types).
Abbreviation time_step' :=
  (time_step nb_extrinsic solve_heat solve_it solve_extrinsic).
Abbreviation run' :=
  (run k_B find_material_from_id quantity_types field_types nb_extrinsic
       solve_heat solve_it solve_extrinsic).

(** A rejected dictionary stops the set-up. *)
Lemma setup_rejected (p : run_parameters) dq :
  exports_derived_quantities p = Some dq ->
  PostProcessing.derived_quantities_accepted quantity_types field_types (validated p dq)
  = false ->
  exists tr e, setup' p = (tr, Raise e)
               /\ Forall (fun ev => is_step_event ev = false) tr.
Proof.
  intros Hdq Hacc.
  destruct (PostProcessingFacts.header_rejected quantity_types field_types _ Hacc)
    as [e He].
  unfold setup. rewrite Hdq. fold (validated p dq). rewrite He.
  unfold mbind, W_bind, lift, emit, mret, W_ret.
  destruct (check_transient p) as [transient|e0]; [|eexists _, _; split; [reflexivity|constructor]].
  destruct (String.eqb (temperature_type p) "expression");
    [|destruct (String.eqb (temperature_type p) "solve_stationary")];
    simpl;
    destruct (formulation k_B find_material_from_id (physics p) _ transient);
    simpl; eexists _, _; (split; [reflexivity|]); repeat constructor.
Qed.

Lemma run_rejected (p : run_parameters) dq (fuel : nat) :
  exports_derived_quantities p = Some dq ->
  PostProcessing.derived_quantities_accepted quantity_types field_types (validated p dq)
  = false ->
  exists tr e, run' fuel p = Some (tr, Raise e)
               /\ Forall (fun ev => is_step_event ev = false) tr.
Proof.
  intros Hdq Hacc. destruct (setup_rejected p dq Hdq Hacc) as (tr & e & Hs & Htr).
  exists tr, e. unfold run. rewrite Hs. auto.
Qed.


(** *** One pass through the loop *)

Lemma for_range_emit (f : nat -> event) (start n : nat) :
  for_range (fun j => emit (f j)) start n = (map f (seq start n), Ok tt).
Proof.
  revert start. induction n as [|n IH]; intros start; simpl; [reflexivity|].
  unfold mbind, W_bind. unfold emit at 1. rewrite IH. reflexivity.
Qed.

Lemma for_range_solve (t : Q) (start n : nat) :
  let body := fun j => lift (solve_extrinsic j t);; emit (Ev_solve_extrinsic j) in
  (for_range body start n = (map Ev_solve_extrinsic (seq start n), Ok tt))
  \/ (exists k e, (k < n)%nat
                  /\ for_range body start n
                     = (map Ev_solve_extrinsic (seq start k), Raise e)).
Proof.
  revert start. induction n as [|n IH]; intros start; simpl; [left; reflexivity|].
  unfold mbind, W_bind, lift, emit.
  destruct (solve_extrinsic start t) as [[]|e]; simpl.
  - destruct (IH (S start)) as [Hok|(k & e & Hk & Hraise)]; simpl in *.
    + left. unfold mbind, W_bind, lift, emit in Hok. rewrite Hok. reflexivity.
    + right. exists (S k), e. split; [lia|].
      unfold mbind, W_bind, lift, emit in Hraise. rewrite Hraise. reflexivity.
  - right. exists 0%nat, e. split; [lia | reflexivity].
Qed.

Lemma no_commit_among_solves (l : list nat) :
  existsb is_commit (map Ev_solve_extrinsic l) = false.
Proof. induction l as [|x l IH]; simpl; auto. Qed.

Lemma time_step_events (p : run_parameters) (st : loop_state) tr r :
  time_step' p st = (tr, r) ->
  match r with
  | Ok st' => tr = step_events nb_extrinsic p (time st + stepsize st)%Q
              /\ time st' = (time st + stepsize st)%Q
  | Raise _ => existsb is_commit tr = false
  end.
Proof.
  unfold time_step, step_events.
  set (t := (time st + stepsize st)%Q). set (n := nb_extrinsic _).
  pose proof (for_range_solve t 0 n) as Hsolve. simpl in Hsolve.
  pose proof (for_range_emit Ev_assign_previous_trap 0 n) as Hcommit.
  unfold mbind, W_bind, lift, emit, mret, W_ret in *.
  destruct (String.eqb (temperature_type p) "expression");
    destruct (String.eqb (temperature_type p) "solve_transient");
    try destruct (solve_heat t) as [[]|eh];
    destruct (solve_it t (stepsize st)) as [dt'|em]; simpl;
    try (intros [= <- <-]; reflexivity);
    (destruct Hsolve as [Hs|(k & e & Hk & Hs)]; rewrite Hs; simpl;
     [ rewrite Hcommit; simpl; intros [= <- <-]; rewrite ?app_nil_r; split; reflexivity
     | intros [= <- <-]; simpl;
       rewrite ?app_nil_r; apply no_commit_among_solves ]).
Qed.

End Run.

(** *** A sample problem: one material, one trap in it *)

Lemma sample_formulation_transient :
  Samples.sample_formulation Dt true
  = Ok ([(mobile_time_derivative 1 Dt 5 3, dx_sub (SId 1));
         (diffusion 1 2 1 5 3, dx_sub (SId 1));
         (trap_rate Dt 1 1, dx);
         (capture 1 2 1 4 6 5 3 "1e20" 1, dx_sub (SId 1));
         (release 1 7 1, dx_sub (SId 1));
         (trap_rate Dt 1 0, dx)],
        [Expression "1e20"]).
Proof. reflexivity. Qed.

Lemma trap_reaction_terms_witness :
  Samples.sample_formulation Dt true
  = Ok ([(mobile_time_derivative 1 Dt 5 3, dx_sub (SId 1));
         (diffusion 1 2 1 5 3, dx_sub (SId 1));
         (trap_rate Dt 1 1, dx);
         (capture 1 2 1 4 6 5 3 "1e20" 1, dx_sub (SId 1));
         (release 1 7 1, dx_sub (SId 1));
         (trap_rate Dt 1 0, dx)],
        [Expression "1e20"])
  /\ p_traps Samples.sample_parameters !! 0%nat = Some Samples.sample_trap
  /\ In 1%Z (as_list (materials Samples.sample_trap))
  /\ exists m D_0 E_diff alpha beta S_0 E_S,
      Helpers.find_material_from_id (p_materials Samples.sample_parameters) 1 = Ok m
      /\ number m "D_0" D_0 /\ number m "E_diff" E_diff
      /\ number m "alpha" alpha /\ number m "beta" beta
      /\ number m "S_0" S_0 /\ number m "E_S" E_S
      /\ In (capture 1 D_0 E_diff alpha beta S_0 E_S "1e20" 1, dx_sub (SId 1))
            [(mobile_time_derivative 1 Dt 5 3, dx_sub (SId 1));
             (diffusion 1 2 1 5 3, dx_sub (SId 1));
             (trap_rate Dt 1 1, dx);
             (capture 1 2 1 4 6 5 3 "1e20" 1, dx_sub (SId 1));
             (release 1 7 1, dx_sub (SId 1));
             (trap_rate Dt 1 0, dx)].
Proof.
  split; [reflexivity|]. split; [reflexivity|]. split; [left; reflexivity|].
  destruct (trap_reaction_terms 1 Helpers.find_material_from_id Samples.sample_parameters Dt true
              _ _ 0%nat Samples.sample_trap 1%Z sample_formulation_transient eq_refl
              (or_introl eq_refl))
    as (m & D_0 & E_diff & alpha & beta & S_0 & E_S & Hm & H1 & H2 & H3 & H4 & H5 & H6
        & Hcap & _).
  exists m, D_0, E_diff, alpha, beta, S_0, E_S.
  repeat (split; [assumption|]). exact Hcap.
Defined.

(** C3 as stated fails.  In the transient formulation of the sample
    problem the terms tested with the mobile test function are the time
    derivative, the diffusion and the rate of change of the trap: the
    capture and release rates are entered into the equation of the trap
    only, not into the mobile equation with the opposite sign. *)
Lemma mobile_equation_has_no_reaction_term :
  exists Fx exprs,
    Samples.sample_formulation Dt true = Ok (Fx, exprs)
    /\ List.filter tested_with_mobile Fx
       = [(mobile_time_derivative 1 Dt 5 3, dx_sub (SId 1));
          (diffusion 1 2 1 5 3, dx_sub (SId 1));
          (trap_rate Dt 1 0, dx)]
    /\ List.filter (fun tm => negb (tested_with_mobile tm)) Fx
       = [(trap_rate Dt 1 1, dx);
          (capture 1 2 1 4 6 5 3 "1e20" 1, dx_sub (SId 1));
          (release 1 7 1, dx_sub (SId 1))].
Proof.
  do 2 eexists. split; [apply sample_formulation_transient|].
  split; reflexivity.
Qed.



(** The stationary formulation of the sample problem, built with the
    stepsize [0] that [run] passes: its last term is the rate of change
    of the trap, a time derivative divided by zero. *)
Lemma stationary_sample_formulation :
  Samples.sample_formulation (Cst 0) false
  = Ok ([(diffusion 1 2 1 5 3, dx_sub (SId 1));
         (capture 1 2 1 4 6 5 3 "1e20" 1, dx_sub (SId 1));
         (release 1 7 1, dx_sub (SId 1));
         (Mul (Div (Sub (Sol 1) (Prev 1)) (Cst 0)) (Test 0), dx)],
        [Expression "1e20"]).
Proof. reflexivity. Qed.


End CasTestSolubilityFacts.

(** ** festim/hydrogen_transport_problem.py *)

Module HydrogenTransportFacts.
Import HydrogenTransport PyFacts.

Section CreateFormulation.
Variables Material Source : Type.
Variable get_diffusion_coefficient : Material -> Species -> expr.

Abbreviation problem := (HydrogenTransportProblem Material Source).

Lemma create_formulation_Ok (p : problem) :
  (length (sources p) <= 1)%nat ->
  create_formulation get_diffusion_coefficient p
  = Ok (flat_map (fun spe =>
                    flat_map (volume_terms get_diffusion_coefficient spe)
                             (volume_subdomains p))
                 (species p)).
Proof.
  intros Hlen. unfold create_formulation.
  destruct (Nat.ltb_spec 1 (length (sources p))); [lia | reflexivity].
Qed.

Lemma create_formulation_Raise (p : problem) :
  (1 < length (sources p))%nat ->
  create_formulation get_diffusion_coefficient p
  = Raise (NotImplementedError "Sources not implemented yet").
Proof.
  intros Hlen. unfold create_formulation.
  destruct (Nat.ltb_spec 1 (length (sources p))); [reflexivity | lia].
Qed.

(** C10.  [create_formulation] raises exactly when more than one
    source is declared; with one source it raises nothing and returns
    the formulation of the same problem without sources: the terms of
    the species and volumes, and no term for the source. *)
Theorem create_formulation_sources (p : problem) :
  (raises (create_formulation get_diffusion_coefficient p) = true
   <-> (1 < length (sources p))%nat)
  /\ (forall src : Source,
         raises (create_formulation get_diffusion_coefficient (with_sources [src] p))
         = false
         /\ create_formulation get_diffusion_coefficient (with_sources [src] p)
            = create_formulation get_diffusion_coefficient (with_sources [] p)
         /\ create_formulation get_diffusion_coefficient (with_sources [src] p)
            = Ok (flat_map (fun spe =>
                              flat_map (volume_terms get_diffusion_coefficient spe)
                                       (volume_subdomains p))
                           (species p))).
Proof.
  split.
  - destruct (Nat.lt_ge_cases 1 (length (sources p))) as [Hlt|Hge].
    + rewrite (create_formulation_Raise p Hlt). simpl. tauto.
    + rewrite (create_formulation_Ok p Hge). simpl. split; [discriminate | lia].
  - intros src.
    rewrite (create_formulation_Ok (with_sources [src] p)) by (simpl; lia).
    rewrite (create_formulation_Ok (with_sources [] p)) by (simpl; lia).
    simpl. auto.
Qed.

End CreateFormulation.

End HydrogenTransportFacts.

(** ** FESTIM/generic_simulation.py *)

Module GenericSimulationFacts.
Import GenericSimulation PyFacts.
Local Open Scope list_scope.

#[local] Existing Instance M_ret.
#[local] Existing Instance M_bind.

(** Unfolding of one monadic step. *)
Ltac munfold :=
  unfold mbind, M_bind, mret, M_ret, get, modify, emit, raise, lift.
Ltac munfold_in H :=
  unfold mbind, M_bind, mret, M_ret, get, modify, emit, raise, lift in H.

(** Case analysis on the scrutinee of a match in the goal. *)
Ltac destruct_scrutinee :=
  match goal with
  | |- context [match ?x with _ => _ end] =>
      lazymatch x with
      | context [match _ with _ => _ end] => fail
      | _ => idtac
      end;
      match type of x with
      | result _ => destruct x eqn:?
      | (_ * _)%type => destruct x as [? ?] eqn:?
      | bool => destruct x eqn:?
      | quantity_class => destruct x eqn:?
      | option _ => destruct x eqn:?
      end; simpl
  end.

Section Simulation.
Context {fn : Type}.
Variable interpolate_T : Q -> fn.
Variable heat_solver : Simulation fn -> result fn.
Variable solve_it : Simulation fn -> result (fn * Q).
Variable solve_once : Simulation fn -> fn * nat * bool.
Variable solve_density : Simulation fn -> Trap fn -> result fn.
Variable is_Function : expr -> bool.
Variable is_export_derived_quantities : Simulation fn -> Export -> bool.
Variable is_export_xdmf : Simulation fn -> Export -> bool.
Variable txt_write_stepsize : Simulation fn -> Export -> Q.
Variable error_compute : Simulation fn -> nat -> expr -> R.

Abbreviation run_post_processing' :=
  (run_post_processing is_Function is_export_derived_quantities is_export_xdmf
                       txt_write_stepsize).
Abbreviation post_process_exports' :=
  (post_process_exports is_Function is_export_derived_quantities is_export_xdmf
                        txt_write_stepsize).
Abbreviation post_process_export' :=
  (post_process_export is_Function is_export_derived_quantities is_export_xdmf
                       txt_write_stepsize).
Abbreviation iterate' :=
  (iterate interpolate_T heat_solver solve_it solve_density is_Function
           is_export_derived_quantities is_export_xdmf txt_write_stepsize).
Abbreviation time_stepping' :=
  (time_stepping interpolate_T heat_solver solve_it solve_density is_Function
                 is_export_derived_quantities is_export_xdmf txt_write_stepsize).
Abbreviation run' :=
  (run interpolate_T heat_solver solve_it solve_once solve_density is_Function
       is_export_derived_quantities is_export_xdmf txt_write_stepsize error_compute).

(** *** What the post-processing leaves alone *)

Lemma same_fields_refl (s : Simulation fn) : same_fields s s.
Proof. unfold same_fields. repeat split; reflexivity. Qed.

Lemma same_fields_trans (s1 s2 s3 : Simulation fn) :
  same_fields s1 s2 -> same_fields s2 s3 -> same_fields s1 s3.
Proof.
  unfold same_fields. intros H12 H23.
  repeat match goal with H : _ /\ _ |- _ => destruct H end.
  repeat split; congruence.
Qed.

Lemma set_dt_same (s : Simulation fn) : set_dt (dt s) s = s.
Proof. destruct s; reflexivity. Qed.

Lemma map_imap_invariant {A B C} (f : B -> C) (g : nat -> A -> B) (h : A -> C)
      (l : list A) :
  (forall i x, f (g i x) = h x) -> map f (imap g l) = map h l.
Proof.
  revert g. induction l as [|x l IH]; intros g Hg; simpl; [reflexivity|].
  rewrite Hg. f_equal. apply IH. intros i y. apply Hg.
Qed.

Lemma update_post_processing_solutions_same (s : Simulation fn) :
  same_fields s (update_post_processing_solutions s).
Proof.
  unfold same_fields, update_post_processing_solutions. simpl.
  repeat split; apply map_imap_invariant; reflexivity.
Qed.

Lemma assign_quantities_frame k qs d (s : Simulation fn) tr r s' :
  assign_quantities is_Function k qs d s = (tr, r, s') ->
  s' = s /\ forallb is_post_processing_event tr = true.
Proof.
  revert d s tr r s'. induction qs as [|q qs IH]; intros d s tr r s'; simpl.
  - munfold. intros [= <- <- <-]. auto.
  - munfold. repeat destruct_scrutinee; intros [= <- <- <-]; auto;
      try match goal with
      | H : assign_quantities _ _ _ _ _ = _ |- _ =>
          destruct (IH _ _ _ _ _ H) as [-> Htr]; auto
      end.
Qed.

Lemma post_process_export_frame k export d (s : Simulation fn) tr r s' :
  post_process_export' k export d s = (tr, r, s') ->
  (exists x, s' = set_dt x s) /\ forallb is_post_processing_event tr = true.
Proof.
  destruct export as [qs n|field|field|field]; simpl.
  - munfold.
    destruct (assign_quantities is_Function k qs d s) as [[tr1 r1] s1] eqn:Hq.
    destruct (assign_quantities_frame _ _ _ _ _ _ _ Hq) as [-> Htr1].
    destruct r1 as [d1|e].
    2:{ intros [= <- <- <-]. split; [exists (dt s); symmetry; apply set_dt_same | assumption]. }
    destruct (n =? 0)%nat; simpl.
    { intros [= <- <- <-].
      split; [exists (dt s); symmetry; apply set_dt_same|].
      rewrite app_nil_r. assumption. }
    destruct (nb_iterations s mod n =? 0)%nat;
      destruct (is_export_derived_quantities s (DerivedQuantities qs n)); simpl;
      intros [= <- <- <-];
      (split; [exists (dt s); symmetry; apply set_dt_same|]);
      rewrite forallb_app, Htr1; reflexivity.
  - munfold. destruct (is_export_xdmf s (XDMFExport field)).
    2:{ intros [= <- <- <-]. split; [exists (dt s); symmetry; apply set_dt_same | reflexivity]. }
    destruct (bool_decide (field = LStr "retention")); simpl.
    + destruct (project_unless_Function is_Function d (LStr "retention")) as [d1|e];
        simpl; [|intros [= <- <- <-];
                 split; [exists (dt s); symmetry; apply set_dt_same | reflexivity]].
      destruct (lookup_label d1 field) as [f|e]; simpl; intros [= <- <- <-];
        (split; [exists (dt s); symmetry; apply set_dt_same | reflexivity]).
    + destruct (lookup_label d field) as [f|e]; simpl; intros [= <- <- <-];
        (split; [exists (dt s); symmetry; apply set_dt_same | reflexivity]).
  - munfold.
    destruct (project_unless_Function is_Function d field) as [d1|e]; simpl;
      [|intros [= <- <- <-];
        split; [exists (dt s); symmetry; apply set_dt_same | reflexivity]].
    destruct (lookup_label d1 field) as [f|e]; simpl; intros [= <- <- <-].
    + split; [eexists; reflexivity | reflexivity].
    + split; [exists (dt s); symmetry; apply set_dt_same | reflexivity].
  - munfold. intros [= <- <- <-].
    split; [exists (dt s); symmetry; apply set_dt_same | reflexivity].
Qed.

Lemma post_process_exports_frame l k d (s : Simulation fn) tr r s' :
  post_process_exports' k l d s = (tr, r, s') ->
  (exists x, s' = set_dt x s) /\ forallb is_post_processing_event tr = true.
Proof.
  revert k d s tr r s'. induction l as [|export l IH]; intros k d s tr r s'; simpl.
  - munfold. intros [= <- <- <-].
    split; [exists (dt s); symmetry; apply set_dt_same | reflexivity].
  - unfold mbind, M_bind.
    destruct (post_process_export' k export d s) as [[tr1 r1] s1] eqn:H1.
    destruct (post_process_export_frame _ _ _ _ _ _ _ H1) as [[x ->] Htr1].
    destruct r1 as [d1|e]; [|intros [= <- <- <-]; eauto].
    destruct (post_process_exports' (S k) l d1 (set_dt x s)) as [[tr2 r2] s2] eqn:H2.
    destruct (IH _ _ _ _ _ _ H2) as [[y ->] Htr2].
    intros [= <- <- <-]. split; [exists y; reflexivity|].
    rewrite forallb_app, Htr1, Htr2. reflexivity.
Qed.

Lemma run_post_processing_frame (s : Simulation fn) tr r s' :
  run_post_processing' s = (tr, r, s') ->
  (exists x, s' = set_dt x (update_post_processing_solutions s))
  /\ forallb is_post_processing_event tr = true.
Proof.
  unfold run_post_processing. munfold. simpl.
  destruct (post_process_exports' 0 _ _ _) as [[tr1 r1] s1] eqn:H1.
  destruct (post_process_exports_frame _ _ _ _ _ _ _ H1) as [Hs Htr].
  intros [= <- <- <-]. auto.
Qed.

(** *** The loops over the traps *)

Lemma insert_middle {A} (pre : list A) (x y : A) (l : list A) :
  <[length pre := y]> (pre ++ x :: l) = pre ++ y :: l.
Proof.
  rewrite insert_app_r_alt by lia. rewrite Nat.sub_diag. reflexivity.
Qed.

Lemma solve_loop_from (l pre : list (Trap fn)) (k : nat) (s : Simulation fn) tr r s' :
  traps s = (pre ++ l)%list -> k = length pre ->
  for_each_M (fun jt => solve_extrinsic_trap solve_density (fst jt) (snd jt))
             (imap (fun i x => ((k + i)%nat, x)) l) s = (tr, r, s') ->
  exists l', s' = set_traps (pre ++ l') s
             /\ Forall2 same_trap l l'
             /\ forallb is_auxiliary_solve tr = true
             /\ (r = Ok tt ->
                 tr = map solve_event (List.filter extrinsic l')).
Proof.
  revert pre k s tr r s'.
  induction l as [|x l IH]; intros pre k s tr r s' Htraps Hk; simpl.
  - munfold. intros [= <- <- <-]. exists []. rewrite app_nil_r in *.
    rewrite <- Htraps. split; [destruct s; reflexivity|]. repeat split; constructor.
  - rewrite Nat.add_0_r. unfold mbind at 1, M_bind at 1.
    unfold solve_extrinsic_trap at 1. simpl.
    destruct (extrinsic x) eqn:Hext.
    + munfold. destruct (solve_density s x) as [d|e] eqn:Hd.
      2:{ intros [= <- <- <-]. exists (x :: l). rewrite <- Htraps.
          split; [destruct s; reflexivity|].
          split; [apply Forall2_same_length_lookup_2; [reflexivity|];
                  intros i a b Ha Hb; rewrite Ha in Hb; injection Hb as <-;
                  repeat split|].
          split; [reflexivity | discriminate]. }
      simpl. rewrite Htraps, Hk, insert_middle.
      set (x' := set_trap_density d x).
      set (s1 := set_traps (pre ++ x' :: l) s).
      destruct (for_each_M _ (imap _ l) s1) as [[tr2 r2] s2] eqn:Hrest.
      intros [= <- <- <-].
      assert (Hrest' :
               for_each_M (fun jt => solve_extrinsic_trap solve_density (fst jt) (snd jt))
                 (imap (fun i y => ((S (length pre) + i)%nat, y)) l) s1 = (tr2, r2, s2)).
      { rewrite <- Hrest. f_equal. apply imap_ext. intros i y _. simpl.
        f_equal. lia. }
      destruct (IH (pre ++ [x']) (S (length pre)) s1 tr2 r2 s2) as (l' & Hs2 & HR & Hev & Hok).
      { subst s1. simpl. rewrite <- app_assoc. reflexivity. }
      { rewrite length_app. simpl. lia. }
      { exact Hrest'. }
      exists (x' :: l'). split.
      { rewrite Hs2. subst s1. rewrite <- app_assoc. reflexivity. }
      split; [constructor; [repeat split | exact HR]|].
      split; [simpl; exact Hev|].
      intros ->. simpl. rewrite Hext. simpl. f_equal. apply Hok. reflexivity.
    + munfold.
      destruct (for_each_M _ (imap _ l) s) as [[tr2 r2] s2] eqn:Hrest.
      intros [= <- <- <-].
      assert (Hrest' :
               for_each_M (fun jt => solve_extrinsic_trap solve_density (fst jt) (snd jt))
                 (imap (fun i y => ((S (length pre) + i)%nat, y)) l) s = (tr2, r2, s2)).
      { rewrite <- Hrest. f_equal. apply imap_ext. intros i y _. simpl.
        f_equal. subst k. lia. }
      destruct (IH (pre ++ [x]) (S (length pre)) s tr2 r2 s2) as (l' & Hs2 & HR & Hev & Hok).
      { rewrite Htraps, <- app_assoc. reflexivity. }
      { rewrite length_app. simpl. lia. }
      { exact Hrest'. }
      exists (x :: l'). split.
      { rewrite Hs2, <- app_assoc. reflexivity. }
      split; [constructor; [repeat split | exact HR]|].
      split; [exact Hev|].
      intros ->. simpl. rewrite Hext. apply Hok. reflexivity.
Qed.

Lemma solve_loop (s : Simulation fn) tr r s' :
  for_each_trap (solve_extrinsic_trap solve_density) s = (tr, r, s') ->
  exists l', s' = set_traps l' s
             /\ Forall2 same_trap (traps s) l'
             /\ forallb is_auxiliary_solve tr = true
             /\ (r = Ok tt ->
                 tr = map solve_event (List.filter extrinsic l')).
Proof.
  unfold for_each_trap. munfold. simpl. intros Hloop.
  destruct (for_each_M _ _ s) as [[tr2 r2] s2] eqn:Hrest.
  injection Hloop as <- <- <-.
  apply (solve_loop_from (traps s) [] 0%nat s tr2 r2 s2); [reflexivity | reflexivity|].
  exact Hrest.
Qed.

Lemma commit_loop_from (l pre : list (Trap fn)) (k : nat) (s : Simulation fn) :
  traps s = (pre ++ l)%list -> k = length pre ->
  for_each_M (fun jt => commit_extrinsic_trap (fst jt) (snd jt))
             (imap (fun i x => ((k + i)%nat, x)) l) s
  = (map commit_event (List.filter extrinsic l), Ok tt,
     set_traps (pre ++ map commit_trap l) s).
Proof.
  revert pre k s. induction l as [|x l IH]; intros pre k s Htraps Hk; simpl.
  - munfold. rewrite app_nil_r in *. rewrite <- Htraps. destruct s; reflexivity.
  - rewrite Nat.add_0_r. unfold mbind at 1, M_bind at 1.
    unfold commit_extrinsic_trap at 1, commit_trap at 1. simpl.
    destruct (extrinsic x) eqn:Hext; munfold; simpl.
    + rewrite Htraps, Hk, insert_middle.
      set (x' := set_trap_density_previous_solution (density x) x).
      set (s1 := set_traps (pre ++ x' :: l) s).
      rewrite (imap_ext _ (fun i y => ((S (length pre) + i)%nat, y)))
        by (intros i y _; simpl; f_equal; lia).
      rewrite (IH (pre ++ [x']) (S (length pre)) s1).
      * subst s1. simpl. rewrite <- app_assoc. reflexivity.
      * subst s1. simpl. rewrite <- app_assoc. reflexivity.
      * rewrite length_app. simpl. lia.
    + rewrite (imap_ext _ (fun i y => ((S (length pre) + i)%nat, y)))
        by (intros i y _; simpl; f_equal; lia).
      rewrite (IH (pre ++ [x]) (S (length pre)) s).
      * rewrite <- app_assoc. reflexivity.
      * rewrite Htraps, <- app_assoc. reflexivity.
      * rewrite length_app. simpl. lia.
Qed.

Lemma commit_loop (s : Simulation fn) :
  for_each_trap commit_extrinsic_trap s
  = (map commit_event (List.filter extrinsic (traps s)), Ok tt,
     set_traps (map commit_trap (traps s)) s).
Proof.
  unfold for_each_trap. munfold. simpl.
  change (imap pair (traps s)) with (imap (fun i x => ((0 + i)%nat, x)) (traps s)).
  rewrite (commit_loop_from (traps s) [] 0%nat s) by reflexivity.
  reflexivity.
Qed.

(** *** The phases of [iterate] *)

Abbreviation update_current_time' := (update_current_time interpolate_T).
Abbreviation solve_heat_transfers' := (solve_heat_transfers heat_solver).
Abbreviation solve_main_problem' := (solve_main_problem solve_it).
Abbreviation solve_extrinsic_traps' := (solve_extrinsic_traps solve_density).
Abbreviation iterate_run' :=
  (iterate_run interpolate_T heat_solver solve_it solve_density is_Function
               is_export_derived_quantities is_export_xdmf txt_write_stepsize).

Lemma bind_run {A B} (m : M fn A) (k : A -> M fn B) (s : Simulation fn) :
  (m ≫= k) s
  = let '(tr1, r, s1) := m s in
    match r with
    | Ok a => let '(tr2, r2, s2) := k a s1 in (tr1 ++ tr2, r2, s2)
    | Raise e => (tr1, Raise e, s1)
    end.
Proof. reflexivity. Qed.

Lemma set_coefficients_same (s : Simulation fn) : set_coefficients (coefficients s) s = s.
Proof. destruct s; reflexivity. Qed.

Lemma bind_coefficients_bound (s : Simulation fn) c :
  bind_coefficients s = Ok c -> bound_to_T (chemical_pot s) c.
Proof.
  unfold bind_coefficients, bound_to_T. munfold. unfold result_bind.
  destruct (chemical_pot s); destruct (S_T (coefficients s));
    destruct (H_T (coefficients s)); destruct (thermal_cond_T (coefficients s));
    simpl; intros [= <-]; simpl; repeat split; try discriminate;
    intros; congruence.
Qed.

Lemma bound_to_T_temperatures (s : Simulation fn) :
  bound_to_T (chemical_pot s) (coefficients s) ->
  Forall (eq (T_T s)) (coefficient_temperatures s).
Proof.
  unfold bound_to_T, coefficient_temperatures. intros (HD & HH & Ht & HS).
  rewrite HD. simpl. constructor; [reflexivity|].
  rewrite !map_app. repeat apply Forall_app_2.
  - destruct (H_T (coefficients s)) as [r|]; simpl; [|constructor].
    rewrite (HH r eq_refl). repeat constructor.
  - destruct (thermal_cond_T (coefficients s)) as [r|]; simpl; [|constructor].
    rewrite (Ht r eq_refl). repeat constructor.
  - destruct (chemical_pot s); [|constructor].
    destruct (S_T (coefficients s)) as [r|]; simpl; [|constructor].
    rewrite (HS eq_refl r eq_refl). repeat constructor.
Qed.

(** The first phase moves the time by the stepsize and touches neither
    the stepsize, nor the concentrations, nor the traps. *)
Lemma update_current_time_spec (s : Simulation fn) tr r s1 :
  update_current_time' s = (tr, r, s1) ->
  forallb is_preparation tr = true
  /\ (exists c TT Tn,
         s1 = set_coefficients c (set_T_T TT (set_T_T_n Tn (set_t (t s + dt s)%Q s)))
         /\ (r = Ok tt -> bound_to_T (chemical_pot s) c)).
Proof.
  unfold update_current_time. munfold. simpl.
  destruct (String.eqb (T_type s) "expression"); simpl.
  - destruct (bind_coefficients _) as [c|e] eqn:Hc; simpl; intros [= <- <- <-].
    + split; [reflexivity|]. exists c, (interpolate_T (t s + dt s)%Q), (T_T s).
      split; [reflexivity|]. intros _. eapply bind_coefficients_bound, Hc.
    + split; [reflexivity|].
      exists (coefficients s), (interpolate_T (t s + dt s)%Q), (T_T s).
      split; [destruct s; reflexivity | discriminate].
  - destruct (bind_coefficients _) as [c|e] eqn:Hc; simpl; intros [= <- <- <-].
    + split; [reflexivity|]. exists c, (T_T s), (T_T_n s).
      split; [destruct s; reflexivity|]. intros _. eapply bind_coefficients_bound, Hc.
    + split; [reflexivity|]. exists (coefficients s), (T_T s), (T_T_n s).
      split; [destruct s; reflexivity | discriminate].
Qed.

Lemma solve_heat_transfers_spec (s : Simulation fn) tr r s2 :
  solve_heat_transfers' s = (tr, r, s2) ->
  (String.eqb (T_type s) "solve_transient" = true
   /\ exists T', heat_solver s = Ok T' /\ tr = [Ev_solve_heat T'] /\ r = Ok tt
                 /\ s2 = set_T_T_n T' (set_T_T T' s))
  \/ (String.eqb (T_type s) "solve_transient" = true
      /\ exists e, heat_solver s = Raise e /\ tr = [] /\ r = Raise e /\ s2 = s)
  \/ (String.eqb (T_type s) "solve_transient" = false /\ tr = [] /\ r = Ok tt /\ s2 = s).
Proof.
  unfold solve_heat_transfers. munfold. simpl.
  destruct (String.eqb (T_type s) "solve_transient"); simpl.
  - destruct (heat_solver s) as [T'|e]; simpl; intros [= <- <- <-].
    + left. split; [reflexivity|]. exists T'. auto.
    + right. left. split; [reflexivity|]. exists e. auto.
  - intros [= <- <- <-]. right. right. auto.
Qed.

Lemma solve_main_problem_spec (s : Simulation fn) tr r s3 :
  solve_main_problem' s = (tr, r, s3) ->
  (exists u' d', solve_it s = Ok (u', d')
                 /\ tr = [Ev_solve_main (coefficient_temperatures s) u']
                 /\ r = Ok tt /\ s3 = set_dt d' (set_u u' s))
  \/ (exists e, solve_it s = Raise e /\ tr = [] /\ r = Raise e /\ s3 = s).
Proof.
  unfold solve_main_problem. munfold. simpl.
  destruct (solve_it s) as [[u' d']|e]; simpl; intros [= <- <- <-].
  - left. exists u', d'. auto.
  - right. exists e. auto.
Qed.

Lemma update_previous_solutions_spec (s : Simulation fn) :
  update_previous_solutions s
  = (Ev_assign_u_n (u s) :: map commit_event (List.filter extrinsic (traps s)), Ok tt,
     set_nb_iterations (S (nb_iterations s))
       (set_traps (map commit_trap (traps s)) (set_u_n (u s) s))).
Proof.
  unfold update_previous_solutions.
  rewrite bind_run. unfold get at 1.
  rewrite bind_run. unfold modify at 1.
  rewrite bind_run. unfold emit at 1.
  rewrite bind_run. rewrite commit_loop. unfold modify. simpl.
  rewrite app_nil_r. reflexivity.
Qed.

Lemma avoid_overshoot_spec (s : Simulation fn) :
  avoid_overshoot s
  = ([], Ok tt,
     if Qgtb (t s + dt s) (final_time (settings s))
     then set_dt (final_time (settings s) - t s)%Q s else s).
Proof.
  unfold avoid_overshoot. munfold. simpl.
  destruct (Qgtb (t s + dt s) (final_time (settings s))); reflexivity.
Qed.

(** *** Classes of events *)

Lemma existsb_class (C P : event fn -> bool) (l : list (event fn)) :
  forallb C l = true -> (forall ev, C ev = true -> P ev = false) ->
  existsb P l = false.
Proof.
  intros Hl HCP. induction l as [|ev l IH]; simpl in *; [reflexivity|].
  apply andb_prop in Hl as [Hev Hl]. rewrite (HCP ev Hev), (IH Hl). reflexivity.
Qed.

Lemma forallb_In (C : event fn -> bool) (l : list (event fn)) ev :
  forallb C l = true -> In ev l -> C ev = true.
Proof. intros Hl Hin. rewrite forallb_forall in Hl. apply Hl, Hin. Qed.

Lemma all_before_app (P Q : event fn -> bool) (l1 l2 : list (event fn)) :
  all_before P Q (l1 ++ l2)
  = all_before P Q l1 && all_before P Q l2
    && (negb (existsb Q l1) || negb (existsb P l2)).
Proof.
  induction l1 as [|ev l1 IH]; simpl.
  - rewrite andb_true_r. reflexivity.
  - rewrite IH, existsb_app.
    destruct (Q ev), (existsb P l1), (existsb P l2), (existsb Q l1),
      (all_before P Q l1), (all_before P Q l2); reflexivity.
Qed.

Lemma all_before_without_P (P Q : event fn -> bool) (l : list (event fn)) :
  existsb P l = false -> all_before P Q l = true.
Proof.
  induction l as [|ev l IH]; simpl; [reflexivity|].
  intros H. apply orb_false_elim in H as [_ H]. rewrite H, (IH H).
  rewrite orb_true_r. reflexivity.
Qed.

Lemma all_before_without_Q (P Q : event fn -> bool) (l : list (event fn)) :
  existsb Q l = false -> all_before P Q l = true.
Proof.
  induction l as [|ev l IH]; simpl; [reflexivity|].
  intros H. apply orb_false_elim in H as [Hev H]. rewrite Hev, (IH H). reflexivity.
Qed.

Lemma omap_class {B} (C : event fn -> bool) (f : event fn -> option B)
      (l : list (event fn)) :
  forallb C l = true -> (forall ev, C ev = true -> f ev = None) -> omap f l = [].
Proof.
  intros Hl HC. induction l as [|ev l IH]; simpl in *; [reflexivity|].
  apply andb_prop in Hl as [Hev Hl]. rewrite (HC ev Hev). apply IH, Hl.
Qed.

Lemma solved_ids_of_solves (l : list (Trap fn)) :
  solved_extrinsic_ids (map solve_event l) = map id l.
Proof. induction l as [|x l IH]; simpl; [reflexivity|]. f_equal. exact IH. Qed.

Lemma committed_ids_of_commits (l : list (Trap fn)) :
  committed_extrinsic_ids (map commit_event l) = map id l.
Proof. induction l as [|x l IH]; simpl; [reflexivity|]. f_equal. exact IH. Qed.

Lemma forallb_solves (l : list (Trap fn)) :
  forallb is_auxiliary_solve (map solve_event l) = true.
Proof. induction l as [|x l IH]; simpl; auto. Qed.

Lemma forallb_commits (l : list (Trap fn)) :
  forallb is_commit (map commit_event l) = true.
Proof. induction l as [|x l IH]; simpl; auto. Qed.

(** Traps that keep their id and their class keep the ids of the
    extrinsic ones. *)
Lemma extrinsic_ids_same (l1 l2 : list (Trap fn)) :
  map id l2 = map id l1 -> map extrinsic l2 = map extrinsic l1 ->
  map id (List.filter extrinsic l2) = map id (List.filter extrinsic l1).
Proof.
  revert l2. induction l1 as [|a l1 IH]; intros [|b l2]; simpl; try discriminate;
    [reflexivity|].
  intros [= Hid Hids] [= Hext Hexts]. rewrite Hext.
  destruct (extrinsic a); simpl; [rewrite Hid; f_equal|]; apply IH; assumption.
Qed.

Lemma same_trap_maps (l1 l2 : list (Trap fn)) :
  Forall2 same_trap l1 l2 ->
  map id l2 = map id l1 /\ map extrinsic l2 = map extrinsic l1
  /\ map density_previous_solution l2 = map density_previous_solution l1.
Proof.
  induction 1 as [|a b l1 l2 (Hid & Hext & Hprev & _) _ (IH1 & IH2 & IH3)]; simpl.
  - auto.
  - rewrite Hid, Hext, Hprev, IH1, IH2, IH3. auto.
Qed.

Lemma commit_trap_maps (l : list (Trap fn)) :
  map id (map commit_trap l) = map id l
  /\ map extrinsic (map commit_trap l) = map extrinsic l
  /\ Forall (fun x => extrinsic x = true -> density_previous_solution x = density x)
            (map commit_trap l).
Proof.
  induction l as [|x l (IH1 & IH2 & IH3)]; simpl; [auto|].
  rewrite IH1, IH2.
  assert (Hc : id (commit_trap x) = id x /\ extrinsic (commit_trap x) = extrinsic x
               /\ (extrinsic (commit_trap x) = true ->
                   density_previous_solution (commit_trap x) = density (commit_trap x))).
  { unfold commit_trap. destruct (extrinsic x) eqn:Hx; simpl; repeat split; congruence. }
  destruct Hc as (Hid & Hext & Hc). rewrite Hid, Hext at 1.
  repeat split. constructor; assumption.
Qed.

Lemma Qgtb_false (a b : Q) : Qgtb a b = false -> (a <= b)%Q.
Proof.
  unfold Qgtb, Qltb, Qle. intros H. apply Z.ltb_ge in H. exact H.
Qed.

Lemma Qltb_true (a b : Q) : Qltb a b = true <-> (a < b)%Q.
Proof. unfold Qltb, Qlt. apply Z.ltb_lt. Qed.

Lemma Qltb_false (a b : Q) : Qltb a b = false <-> (b <= a)%Q.
Proof. unfold Qltb, Qle. apply Z.ltb_ge. Qed.

(** *** [iterate], phase by phase *)

Lemma iterate_phases (s : Simulation fn) tr r s' :
  iterate' s = (tr, r, s') -> iterate_run' s tr r s'.
Proof.
  unfold iterate.
  rewrite bind_run. destruct (update_current_time' s) as [[tr1 [[]|e1]] s1] eqn:H1.
  2:{ intros [= <- <- <-]. eapply run_stops_1; eassumption. }
  rewrite bind_run. destruct (solve_heat_transfers' s1) as [[tr2 [[]|e2]] s2] eqn:H2.
  2:{ intros [= <- <- <-]. eapply run_stops_2; eassumption. }
  rewrite bind_run. destruct (solve_main_problem' s2) as [[tr3 [[]|e3]] s3] eqn:H3.
  2:{ intros [= <- <- <-]. eapply run_stops_3; eassumption. }
  rewrite bind_run. destruct (solve_extrinsic_traps' s3) as [[tr4 [[]|e4]] s4] eqn:H4.
  2:{ intros [= <- <- <-]. eapply run_stops_4; eassumption. }
  rewrite bind_run. destruct (run_post_processing' s4) as [[tr5 [[]|e5]] s5] eqn:H5.
  2:{ intros [= <- <- <-]. eapply run_stops_5; eassumption. }
  rewrite bind_run, update_previous_solutions_spec, avoid_overshoot_spec.
  intros [= <- <- <-]. rewrite app_nil_r.
  eapply run_completes; eassumption.
Qed.

(** The events of one step fall into six segments: preparation, heat
    solve, main solve, auxiliary solves, post-processing, commits. *)
Lemma iterate_segments (s : Simulation fn) tr r s' :
  iterate' s = (tr, r, s') ->
  exists prep heat main aux pp commits,
    tr = prep ++ heat ++ main ++ aux ++ pp ++ commits
    /\ forallb is_preparation prep = true
    /\ forallb is_heat_solve heat = true
    /\ forallb is_main_solve main = true
    /\ forallb is_auxiliary_solve aux = true
    /\ forallb is_post_processing_event pp = true
    /\ forallb is_commit commits = true
    /\ (forall T' Tc u', In (Ev_solve_heat T') heat -> In (Ev_solve_main Tc u') main ->
                         Forall (eq T') Tc)
    /\ (String.eqb (T_type s) "solve_transient" = true -> main <> [] -> heat <> [])
    /\ match r with
       | Ok _ =>
           main <> []
           /\ solved_extrinsic_ids aux = extrinsic_ids s
           /\ committed_extrinsic_ids commits = extrinsic_ids s
           /\ commits <> []
           /\ u_n s' = u s'
           /\ Forall (fun x => extrinsic x = true ->
                               density_previous_solution x = density x) (traps s')
       | Raise _ =>
           commits = []
           /\ u_n s' = u_n s
           /\ map density_previous_solution (traps s')
              = map density_previous_solution (traps s)
       end.
Proof.
  intros Hit. apply iterate_phases in Hit.
  destruct Hit as
    [tr1 e s1 H1
    |tr1 s1 tr2 e s2 H1 H2
    |tr1 s1 tr2 s2 tr3 e s3 H1 H2 H3
    |tr1 s1 tr2 s2 tr3 s3 tr4 e s4 H1 H2 H3 H4
    |tr1 s1 tr2 s2 tr3 s3 tr4 s4 tr5 e s5 H1 H2 H3 H4 H5
    |tr1 s1 tr2 s2 tr3 s3 tr4 s4 tr5 s5 H1 H2 H3 H4 H5];
    apply update_current_time_spec in H1 as (Hprep & c & TT & Tn & Hs1 & Hc).
  - (* the preparation raises *)
    exists tr1, [], [], [], [], []. rewrite !app_nil_r. subst s1. simpl.
    repeat split; auto; try (intros ? ? ? []); try discriminate; congruence.
  - (* the heat solve raises *)
    apply solve_heat_transfers_spec in H2
      as [(Ht & T' & _ & _ & [=] & _)|[(Ht & eh & _ & -> & _ & ->)|(_ & _ & [=] & _)]].
    exists tr1, [], [], [], [], []. rewrite !app_nil_r. subst s1. simpl.
    repeat split; auto; try (intros ? ? ? []); try discriminate; congruence.
  - (* the main solve raises *)
    apply solve_main_problem_spec in H3
      as [(u' & d' & _ & _ & [=] & _)|(e' & _ & -> & _ & ->)].
    apply solve_heat_transfers_spec in H2
      as [(Ht & T' & _ & -> & _ & ->)|[(Ht & eh & _ & _ & [=] & _)|(Ht & -> & _ & ->)]];
      [exists tr1, [Ev_solve_heat T'], [], [], [], []
      |exists tr1, [], [], [], [], []];
      rewrite ?app_nil_r; subst s1; simpl;
      repeat split; auto; try (intros ? ? ? ? []); try (intros ? ? ? []);
      try discriminate; congruence.
  - (* an auxiliary solve raises *)
    apply solve_loop in H4 as (l' & -> & HR & Haux & _).
    destruct (same_trap_maps _ _ HR) as (_ & _ & Hprev).
    apply solve_main_problem_spec in H3
      as [(u' & d' & _ & -> & _ & ->)|(e' & _ & _ & [=] & _)].
    apply solve_heat_transfers_spec in H2
      as [(Ht & T' & _ & -> & _ & ->)|[(Ht & eh & _ & _ & [=] & _)|(Ht & -> & _ & ->)]];
      [exists tr1, [Ev_solve_heat T'], [Ev_solve_main (coefficient_temperatures
                                                        (set_T_T_n T' (set_T_T T' s1))) u'],
         tr4, [], []
      |exists tr1, [], [Ev_solve_main (coefficient_temperatures s1) u'], tr4, [], []];
      rewrite ?app_nil_r; simpl in *; subst s1; simpl in *.
    + repeat split; auto; try congruence.
      intros T0 Tc u0 [[= <-]|[]] [[= <- <-]|[]].
      apply (bound_to_T_temperatures
               (set_T_T_n T' (set_T_T T'
                  (set_coefficients c (set_T_T TT (set_T_T_n Tn (set_t (t s + dt s)%Q s))))))).
      apply Hc. reflexivity.
    + repeat split; auto; try congruence; intros T0 Tc u0 [].
  - (* the post-processing raises *)
    apply run_post_processing_frame in H5 as ((x & ->) & Hpp).
    apply solve_loop in H4 as (l' & -> & HR & Haux & _).
    destruct (same_trap_maps _ _ HR) as (_ & _ & Hprev).
    apply solve_main_problem_spec in H3
      as [(u' & d' & _ & -> & _ & ->)|(e' & _ & _ & [=] & _)].
    apply solve_heat_transfers_spec in H2
      as [(Ht & T' & _ & -> & _ & ->)|[(Ht & eh & _ & _ & [=] & _)|(Ht & -> & _ & ->)]];
      [exists tr1, [Ev_solve_heat T'], [Ev_solve_main (coefficient_temperatures
                                                        (set_T_T_n T' (set_T_T T' s1))) u'],
         tr4, tr5, []
      |exists tr1, [], [Ev_solve_main (coefficient_temperatures s1) u'], tr4, tr5, []];
      rewrite ?app_nil_r; simpl in *; subst s1; simpl in *;
      rewrite (map_imap_invariant density_previous_solution _ density_previous_solution)
        by reflexivity.
    + repeat split; auto; try congruence.
      intros T0 Tc u0 [[= <-]|[]] [[= <- <-]|[]].
      apply (bound_to_T_temperatures
               (set_T_T_n T' (set_T_T T'
                  (set_coefficients c (set_T_T TT (set_T_T_n Tn (set_t (t s + dt s)%Q s))))))).
      apply Hc. reflexivity.
    + repeat split; auto; try congruence; intros T0 Tc u0 [].
  - (* the step completes *)
    apply run_post_processing_frame in H5 as ((x & ->) & Hpp).
    apply solve_loop in H4 as (l' & -> & HR & Haux & Hok).
    specialize (Hok eq_refl).
    destruct (same_trap_maps _ _ HR) as (Hid & Hext & Hprev).
    apply solve_main_problem_spec in H3
      as [(u' & d' & _ & -> & _ & ->)|(e' & _ & _ & [=] & _)].
    assert (Hids_aux : solved_extrinsic_ids tr4 = extrinsic_ids s).
    { rewrite Hok, solved_ids_of_solves. unfold extrinsic_ids.
      apply solve_heat_transfers_spec in H2
        as [(Ht & T' & _ & _ & _ & ->)|[(Ht & eh & _ & _ & [=] & _)|(Ht & _ & _ & ->)]];
        simpl in *; subst s1; simpl in *; apply extrinsic_ids_same; assumption. }
    assert (Hids_commit :
             committed_extrinsic_ids
               (commit_events (set_dt x (update_post_processing_solutions
                                           (set_traps l' (set_dt d' (set_u u' s2))))))
             = extrinsic_ids s).
    { unfold commit_events. simpl. rewrite committed_ids_of_commits. unfold extrinsic_ids.
      apply solve_heat_transfers_spec in H2
        as [(Ht & T' & _ & _ & _ & ->)|[(Ht & eh & _ & _ & [=] & _)|(Ht & _ & _ & ->)]];
        simpl in *; subst s1; simpl in *;
        (apply extrinsic_ids_same;
         [rewrite (map_imap_invariant id _ id) by reflexivity; assumption
         |rewrite (map_imap_invariant extrinsic _ extrinsic) by reflexivity; assumption]). }
    set (s5 := set_dt x (update_post_processing_solutions
                           (set_traps l' (set_dt d' (set_u u' s2))))) in *.
    assert (Hfinal : u_n (committed s5) = u (committed s5)
                     /\ Forall (fun x => extrinsic x = true ->
                                         density_previous_solution x = density x)
                               (traps (committed s5))).
    { unfold committed.
      destruct (Qgtb _ _); simpl; (split; [reflexivity|]);
        apply (commit_trap_maps (imap _ l')). }
    destruct Hfinal as [Hun Hcommitted].
    apply solve_heat_transfers_spec in H2
      as [(Ht & T' & _ & -> & _ & Hs2)|[(Ht & eh & _ & _ & [=] & _)|(Ht & -> & _ & Hs2)]];
      [exists tr1, [Ev_solve_heat T'], [Ev_solve_main (coefficient_temperatures s2) u'],
         tr4, tr5, (commit_events s5)
      |exists tr1, [], [Ev_solve_main (coefficient_temperatures s2) u'], tr4, tr5,
         (commit_events s5)];
      simpl.
    + repeat split; auto; try congruence; try discriminate.
      * unfold commit_events. simpl. apply forallb_commits.
      * intros T0 Tc u0 [[= <-]|[]] [[= <- <-]|[]].
        subst s2. apply (bound_to_T_temperatures (set_T_T_n T' (set_T_T T' s1))).
        subst s1. simpl. apply Hc. reflexivity.
    + repeat split; auto; try congruence; try discriminate.
      * unfold commit_events. simpl. apply forallb_commits.
      * intros T0 Tc u0 [].
      * intros Htt. simpl in Ht. subst s1. simpl in Ht. rewrite Htt in Ht. discriminate.
Qed.

Lemma all_before_split (P Q : event fn -> bool) (l1 l2 : list (event fn)) :
  existsb Q l1 = false -> existsb P l2 = false -> all_before P Q (l1 ++ l2) = true.
Proof.
  intros H1 H2.
  rewrite all_before_app, (all_before_without_Q _ _ _ H1), (all_before_without_P _ _ _ H2).
  rewrite H1. reflexivity.
Qed.

Lemma existsb_nonempty (C : event fn -> bool) (l : list (event fn)) :
  forallb C l = true -> l <> [] -> existsb C l = true.
Proof.
  destruct l as [|ev l]; [congruence|]. simpl. intros H _.
  apply andb_prop in H as [-> _]. reflexivity.
Qed.

Ltac class_absent :=
  repeat rewrite existsb_app;
  repeat match goal with
    | H : forallb ?C ?l = true |- context [existsb ?P ?l] =>
        rewrite (existsb_class C P l H) by (intros []; simpl; congruence)
    end.

Ltac ids_absent :=
  repeat rewrite omap_app;
  repeat match goal with
    | H : forallb ?C ?l = true |- context [omap ?f ?l] =>
        rewrite (omap_class C f l H) by (intros []; simpl; congruence)
    end.

(** The order of the effects of one step of [iterate]. *)
Lemma iterate_order (s : Simulation fn) tr r s' :
  iterate' s = (tr, r, s') ->
  all_before is_heat_solve is_main_solve tr = true
  /\ (forall T' Tc u', In (Ev_solve_heat T') tr -> In (Ev_solve_main Tc u') tr ->
                       Forall (eq T') Tc)
  /\ (String.eqb (T_type s) "solve_transient" = true ->
      existsb is_main_solve tr = true -> existsb is_heat_solve tr = true)
  /\ all_before is_main_solve is_auxiliary_solve tr = true
  /\ all_before is_solve is_commit tr = true
  /\ (existsb is_commit tr = true ->
      r = Ok tt /\ existsb is_main_solve tr = true
      /\ solved_extrinsic_ids tr = extrinsic_ids s)
  /\ (r = Ok tt ->
      committed_extrinsic_ids tr = extrinsic_ids s
      /\ u_n s' = u s'
      /\ Forall (fun x => extrinsic x = true -> density_previous_solution x = density x)
                (traps s'))
  /\ (forall e, r = Raise e ->
                existsb is_commit tr = false
                /\ u_n s' = u_n s
                /\ map density_previous_solution (traps s')
                   = map density_previous_solution (traps s)).
Proof.
  intros Hit.
  destruct (iterate_segments _ _ _ _ Hit)
    as (prep & heat & main & aux & pp & commits & -> & Hprep & Hheat & Hmain & Haux
        & Hpp & Hcommits & Htemp & Hsolved & Hr).
  assert (Hheat_in : forall T', In (Ev_solve_heat T')
                                   (prep ++ heat ++ main ++ aux ++ pp ++ commits) ->
                                In (Ev_solve_heat T') heat).
  { intros T'. rewrite !in_app_iff.
    intros [H|[H|[H|[H|[H|H]]]]]; try assumption;
      eapply forallb_In in H; try eassumption; discriminate. }
  assert (Hmain_in : forall Tc u', In (Ev_solve_main Tc u')
                                      (prep ++ heat ++ main ++ aux ++ pp ++ commits) ->
                                   In (Ev_solve_main Tc u') main).
  { intros Tc u'. rewrite !in_app_iff.
    intros [H|[H|[H|[H|[H|H]]]]]; try assumption;
      eapply forallb_In in H; try eassumption; discriminate. }
  refine (conj _ (conj _ (conj _ (conj _ (conj _ (conj _ (conj _ _))))))).
  - rewrite (app_assoc prep heat). apply all_before_split; class_absent; reflexivity.
  - intros T' Tc u' H1 H2. eapply Htemp; eauto.
  - intros Htt. class_absent. simpl. rewrite !orb_false_r.
    intros Hm. apply existsb_nonempty; [assumption|]. apply Hsolved; [assumption|].
    intros ->. discriminate.
  - rewrite (app_assoc heat main), (app_assoc prep (heat ++ main)).
    apply all_before_split; class_absent; reflexivity.
  - replace (prep ++ heat ++ main ++ aux ++ pp ++ commits)
      with ((prep ++ heat ++ main ++ aux ++ pp) ++ commits)
      by (rewrite <- !app_assoc; reflexivity).
    apply all_before_split.
    + class_absent. reflexivity.
    + unfold is_solve.
      rewrite (existsb_class is_commit _ commits Hcommits)
        by (intros []; simpl; congruence).
      reflexivity.
  - destruct r as [[]|e].
    + intros _. destruct Hr as (Hm & Hs & _). split; [reflexivity|]. split.
      * class_absent. simpl. rewrite !orb_false_r.
        apply existsb_nonempty; assumption.
      * unfold solved_extrinsic_ids in *. ids_absent.
        simpl. rewrite app_nil_r. exact Hs.
    + destruct Hr as (-> & _). class_absent. simpl. discriminate.
  - intros ->. destruct Hr as (_ & _ & Hc & _ & Hu & Hd).
    split; [|split; assumption].
    unfold committed_extrinsic_ids in *. ids_absent. simpl. exact Hc.
  - intros e ->. destruct Hr as (-> & Hu & Hd).
    split; [|split; assumption]. class_absent. reflexivity.
Qed.

(** *** The time loop *)

Lemma Qgtb_true (a b : Q) : Qgtb a b = true -> (b < a)%Q.
Proof. unfold Qgtb. apply Qltb_true. Qed.

Lemma last_cons {A} (l : list A) (a d : A) : List.last (a :: l) d = List.last l a.
Proof.
  revert a d. induction l as [|b l IH]; intros a d; [reflexivity|].
  change (List.last (a :: b :: l) d) with (List.last (b :: l) d).
  rewrite (IH b d), (IH b a). reflexivity.
Qed.

Lemma for_each_M_ok {A} (body : A -> M fn unit) (l : list A) :
  (forall x s, exists tr s', body x s = (tr, Ok tt, s')) ->
  forall s, exists tr s', for_each_M body l s = (tr, Ok tt, s').
Proof.
  intros Hbody. induction l as [|x l IH]; intros s; simpl.
  - exists [], s. reflexivity.
  - rewrite bind_run. destruct (Hbody x s) as (tr1 & s1 & ->).
    destruct (IH s1) as (tr2 & s2 & ->). eauto.
Qed.

Section TimeStepping.
(** A lower bound of the stepsizes the solver and the exports
    choose, and the simulation at the start of the loop. *)
Variable dmin : Q.
Variable s0 : Simulation fn.
Hypothesis Hheat : forall s, exists T', heat_solver s = Ok T'.
Hypothesis Hmain :
  forall s, exists u' d', solve_it s = Ok (u', d') /\ (dmin <= dt s -> dmin <= d')%Q.
Hypothesis Haux : forall s x, exists d, solve_density s x = Ok d.
Hypothesis Hpp :
  forall s, exports s = exports s0 ->
            exists tr s', run_post_processing' s = (tr, Ok tt, s')
                          /\ (dmin <= dt s -> dmin <= dt s')%Q.

Let final : Q := final_time (settings s0).

(** What the steps keep of [s0]. *)
Definition ready (s : Simulation fn) : Prop :=
  settings s = settings s0 /\ exports s = exports s0
  /\ (chemical_pot s = true -> S_T (coefficients s) <> None).

Lemma update_current_time_ok (s : Simulation fn) :
  (chemical_pot s = true -> S_T (coefficients s) <> None) ->
  exists tr c TT Tn,
    update_current_time' s
    = (tr, Ok tt, set_coefficients c (set_T_T TT (set_T_T_n Tn (set_t (t s + dt s)%Q s))))
    /\ step_times tr = [(t s + dt s)%Q]
    /\ (chemical_pot s = true -> S_T c <> None).
Proof.
  intros HS. unfold update_current_time. munfold. simpl.
  unfold bind_coefficients.
  destruct (chemical_pot s) eqn:Hchem.
  - destruct (S_T (coefficients s)) as [r|] eqn:HST; [|exfalso; apply HS; reflexivity].
    destruct (String.eqb (T_type s) "expression"); simpl; rewrite Hchem, HST; simpl;
      do 4 eexists; (split; [reflexivity|]); (split; [reflexivity|]);
      intros _; discriminate.
  - destruct (String.eqb (T_type s) "expression"); simpl; rewrite Hchem; simpl;
      do 4 eexists; (split; [reflexivity|]); (split; [reflexivity|]);
      discriminate.
Qed.

Lemma solve_extrinsic_traps_ok (s : Simulation fn) :
  exists tr l', solve_extrinsic_traps' s = (tr, Ok tt, set_traps l' s)
                /\ step_times tr = [].
Proof.
  destruct (solve_extrinsic_traps' s) as [[tr r] s'] eqn:Hloop.
  destruct (solve_loop _ _ _ _ Hloop) as (l' & -> & _ & Hev & _).
  assert (Hr : r = Ok tt).
  { unfold solve_extrinsic_traps, for_each_trap in Hloop.
    rewrite bind_run in Hloop. unfold get in Hloop.
    destruct (for_each_M_ok
                (fun jt => solve_extrinsic_trap solve_density (fst jt) (snd jt))
                (imap pair (traps s))) with (s := s) as (tr2 & s2 & Hok).
    { intros [j x] s1. unfold solve_extrinsic_trap. simpl.
      destruct (extrinsic x); [|munfold; eauto].
      munfold. destruct (Haux s1 x) as (d & ->). simpl. eauto. }
    rewrite Hok in Hloop. injection Hloop as _ <- _. reflexivity. }
  subst r. exists tr, l'. split; [reflexivity|].
  unfold step_times. apply (omap_class is_auxiliary_solve); [assumption|].
  intros []; simpl; congruence.
Qed.

Lemma iterate_succeeds (s : Simulation fn) :
  ready s ->
  exists tr s1,
    iterate' s = (tr, Ok tt, s1)
    /\ ready s1
    /\ t s1 = (t s + dt s)%Q
    /\ step_times tr = [t s1]
    /\ (t s1 + dt s1 <= final)%Q
    /\ ((dmin <= dt s)%Q -> (dmin <= dt s1)%Q \/ (t s1 + dt s1 == final)%Q).
Proof.
  intros (Hset & Hexp & HS).
  destruct (update_current_time_ok s HS) as (tr1 & c & TT & Tn & H1 & Ht1 & Hc).
  set (s1 := set_coefficients c (set_T_T TT (set_T_T_n Tn (set_t (t s + dt s)%Q s)))) in *.
  assert (H2 : exists tr2 s2, solve_heat_transfers' s1 = (tr2, Ok tt, s2)
                              /\ step_times tr2 = []
                              /\ (s2 = s1 \/ exists T', s2 = set_T_T_n T' (set_T_T T' s1))).
  { destruct (solve_heat_transfers' s1) as [[tr2 r2] s2] eqn:Hh.
    apply solve_heat_transfers_spec in Hh
      as [(_ & T' & _ & -> & -> & ->)|[(_ & e & He & _)|(_ & -> & -> & ->)]].
    - do 2 eexists. split; [reflexivity|]. split; [reflexivity|]. right. eauto.
    - destruct (Hheat s1) as (T' & HT). congruence.
    - do 2 eexists. split; [reflexivity|]. split; [reflexivity|]. left. reflexivity. }
  destruct H2 as (tr2 & s2 & H2 & Ht2 & Hs2).
  assert (Hsame2 : settings s2 = settings s /\ exports s2 = exports s
                   /\ chemical_pot s2 = chemical_pot s /\ coefficients s2 = c
                   /\ t s2 = (t s + dt s)%Q /\ dt s2 = dt s).
  { destruct Hs2 as [->|(T' & ->)]; subst s1; simpl; auto 10. }
  destruct Hsame2 as (Hset2 & Hexp2 & Hchem2 & Hc2 & Htime2 & Hdt2).
  destruct (Hmain s2) as (u' & d' & Hm & Hd').
  assert (H3 : solve_main_problem' s2
               = ([Ev_solve_main (coefficient_temperatures s2) u'], Ok tt,
                  set_dt d' (set_u u' s2))).
  { unfold solve_main_problem. munfold. rewrite Hm. reflexivity. }
  set (s3 := set_dt d' (set_u u' s2)) in *.
  destruct (solve_extrinsic_traps_ok s3) as (tr4 & l' & H4 & Ht4).
  set (s4 := set_traps l' s3) in *.
  destruct (Hpp s4) as (tr5 & s5 & H5 & Hd5).
  { subst s4 s3. simpl. congruence. }
  destruct (run_post_processing_frame _ _ _ _ H5) as ((x & Hs5) & Hev5).
  assert (Ht5 : step_times tr5 = []).
  { unfold step_times. apply (omap_class is_post_processing_event); [assumption|].
    intros []; simpl; congruence. }
  exists (tr1 ++ tr2 ++ [Ev_solve_main (coefficient_temperatures s2) u'] ++ tr4 ++ tr5
            ++ commit_events s5), (committed s5).
  assert (Hrun : iterate' s
                 = (tr1 ++ tr2 ++ [Ev_solve_main (coefficient_temperatures s2) u']
                        ++ tr4 ++ tr5 ++ commit_events s5, Ok tt, committed s5)).
  { unfold iterate.
    rewrite bind_run, H1. rewrite bind_run, H2. rewrite bind_run, H3.
    rewrite bind_run. fold s3. change (solve_extrinsic_traps solve_density s3)
      with (solve_extrinsic_traps' s3). rewrite H4.
    rewrite bind_run. fold s4. rewrite H5.
    rewrite bind_run, update_previous_solutions_spec, avoid_overshoot_spec.
    rewrite app_nil_r. reflexivity. }
  split; [exact Hrun|].
  assert (Hfields : settings (committed s5) = settings s
                    /\ exports (committed s5) = exports s
                    /\ chemical_pot (committed s5) = chemical_pot s
                    /\ coefficients (committed s5) = c
                    /\ t (committed s5) = (t s + dt s)%Q).
  { unfold committed. rewrite Hs5.
    destruct (Qgtb _ _); subst s4 s3; simpl; auto 10. }
  destruct Hfields as (Hset6 & Hexp6 & Hchem6 & Hc6 & Htime6).
  split.
  { unfold ready. rewrite Hset6, Hexp6, Hchem6, Hc6. auto. }
  split; [exact Htime6|].
  split.
  { assert (Ht6 : step_times (commit_events s5) = []).
    { unfold step_times, commit_events. simpl.
      apply (omap_class is_commit); [apply forallb_commits|].
      intros []; simpl; congruence. }
    unfold step_times in *. rewrite !omap_app, Ht1, Ht2, Ht4, Ht5, Ht6, Htime6.
    reflexivity. }
  assert (Hfinal : final_time (settings s5) = final /\ t s5 = (t s + dt s)%Q
                   /\ ((dmin <= dt s)%Q -> (dmin <= dt s5)%Q)).
  { split; [|split].
    - rewrite Hs5. subst s4 s3. simpl. rewrite Hset2, Hset. reflexivity.
    - rewrite Hs5. subst s4 s3. simpl. exact Htime2.
    - intros Hd. apply Hd5. subst s4 s3. simpl. apply Hd'. rewrite Hdt2. exact Hd. }
  destruct Hfinal as (Hf5 & Htime5 & Hdt5).
  unfold committed. simpl. rewrite Hf5, Htime5.
  destruct (Qgtb (t s + dt s + dt s5) final) eqn:Hover; simpl; rewrite ?Htime5.
  - split; [Lqa.lra|]. intros _. right. Lqa.lra.
  - apply Qgtb_false in Hover. split; [exact Hover|]. intros Hd. left. auto.
Qed.

Lemma time_stepping_lands (N : nat) :
  (0 < dmin)%Q ->
  forall s : Simulation fn,
    ready s ->
    (t s <= final)%Q ->
    (t s + dt s <= final)%Q ->
    ((t s < final)%Q -> (dmin <= dt s)%Q \/ (t s + dt s == final)%Q) ->
    (final - t s <= inject_Z (Z.of_nat N) * dmin)%Q ->
    exists tr s',
      time_stepping' N s = Some (tr, Ok tt, s')
      /\ (t s' == final)%Q
      /\ Forall (fun x => (x <= final)%Q) (step_times tr)
      /\ List.last (step_times tr) (t s) = t s'.
Proof.
  intros Hdmin. induction N as [|N IH]; intros s Hready Ht Hnext Hstep Hfuel.
  - exists [], s.
    assert (Hend : Qltb (t s) (final_time (settings s)) = false).
    { apply Qltb_false. destruct Hready as (-> & _). fold final.
      change (inject_Z (Z.of_nat 0)) with 0%Q in Hfuel. Lqa.lra. }
    simpl. rewrite Hend.
    split; [reflexivity|]. split; [|split; [constructor | reflexivity]].
    change (inject_Z (Z.of_nat 0)) with 0%Q in Hfuel. Lqa.lra.
  - assert (Hfinal : final_time (settings s) = final) by (destruct Hready as (-> & _); reflexivity).
    destruct (Qltb (t s) (final_time (settings s))) eqn:Hloop.
    2:{ exists [], s. simpl. rewrite Hloop.
        split; [reflexivity|]. split; [|split; [constructor | reflexivity]].
        apply Qltb_false in Hloop. rewrite Hfinal in Hloop. Lqa.lra. }
    pose proof Hloop as Hcontinue.
    apply Qltb_true in Hloop. rewrite Hfinal in Hloop.
    destruct (iterate_succeeds s Hready)
      as (tr1 & s1 & Hit & Hready1 & Ht1 & Htimes1 & Hnext1 & Hstep1).
    assert (HN : (inject_Z (Z.of_nat (S N)) == inject_Z (Z.of_nat N) + 1)%Q).
    { rewrite Nat2Z.inj_succ. unfold Z.succ. rewrite inject_Z_plus. reflexivity. }
    assert (HN0 : (0 <= inject_Z (Z.of_nat N))%Q).
    { change 0%Q with (inject_Z 0). rewrite <- Zle_Qle. lia. }
    assert (HNd : (0 <= inject_Z (Z.of_nat N) * dmin)%Q).
    { apply Qmult_le_0_compat; [exact HN0 | Lqa.lra]. }
    rewrite HN in Hfuel.
    destruct (IH s1) as (tr2 & s2 & Hrest & Hend & Hall & Hlast).
    { exact Hready1. }
    { rewrite Ht1. exact Hnext. }
    { exact Hnext1. }
    { intros Hlt. destruct (Hstep Hloop) as [Hd|Hd].
      - apply Hstep1, Hd.
      - rewrite Ht1 in Hlt. Lqa.lra. }
    { rewrite Ht1. destruct (Hstep Hloop) as [Hd|Hd]; [|Lqa.lra].
      set (a := inject_Z (Z.of_nat N)) in *.
      assert ((a + 1) * dmin == a * dmin + dmin)%Q as Hring by ring.
      rewrite Hring in Hfuel. Lqa.lra. }
    exists (tr1 ++ tr2), s2.
    split.
    { simpl. rewrite Hcontinue, Hit, Hrest. reflexivity. }
    split; [exact Hend|].
    unfold step_times in *. rewrite omap_app, Htimes1. cbn [app].
    split.
    + constructor; [rewrite Ht1; exact Hnext | exact Hall].
    + rewrite last_cons. exact Hlast.
Qed.


End TimeStepping.

(** *** The fields handed to the exports *)

Lemma pretty_N_char_digit (n : N) : is_digit_char (pretty_N_char n) = true.
Proof. unfold pretty_N_char. repeat case_match; reflexivity. Qed.

(** A numeral starts with a digit or with a minus sign. *)
Definition numeral_head (s : string) : bool :=
  match s with
  | String c _ => is_digit_char c || Ascii.eqb c "-"
  | EmptyString => false
  end.

Lemma pretty_N_go_head (x : N) (s : string) :
  (0 < x)%N -> numeral_head (pretty_N_go x s) = true.
Proof.
  revert s. induction (N.lt_wf_0 x) as [x _ IH]. intros s Hx.
  rewrite pretty_N_go_step by assumption.
  destruct (decide (x `div` 10 = 0)%N) as [->|Hne].
  - rewrite pretty_N_go_0. simpl. rewrite pretty_N_char_digit. reflexivity.
  - apply IH; [|apply N.neq_0_lt_0, Hne]. apply N.div_lt; lia.
Qed.

Lemma pretty_Z_head (z : Z) : numeral_head (pretty z) = true.
Proof.
  destruct z as [|p|p]; [reflexivity| |reflexivity].
  change (pretty (Z.pos p)) with (pretty_N (N.pos p)). unfold pretty_N.
  destruct (decide (N.pos p = 0%N)); [discriminate|].
  apply pretty_N_go_head. lia.
Qed.

Lemma fold_trap_labels_lookup (l : list (Trap fn)) (d : gmap label expr) (name : string) :
  numeral_head name = false ->
  fold_left add_trap_labels l d !! LStr name = d !! LStr name.
Proof.
  intros Hname. revert d. induction l as [|x l IH]; intros d; simpl; [reflexivity|].
  rewrite IH. unfold add_trap_labels.
  rewrite lookup_insert_ne.
  - rewrite lookup_insert_ne by discriminate. reflexivity.
  - intros [= E]. pose proof (pretty_Z_head (id x)) as H. rewrite E in H. congruence.
Qed.

Lemma label_to_function_retention (s : Simulation fn) :
  label_to_function s !! LStr "retention" = Some (retention s).
Proof.
  unfold label_to_function. rewrite fold_trap_labels_lookup by reflexivity.
  apply lookup_insert_eq.
Qed.

Lemma label_to_function_solute (s : Simulation fn) :
  label_to_function s !! LStr "solute" = Some (mobile_post_processing_solution s).
Proof.
  unfold label_to_function. rewrite fold_trap_labels_lookup by reflexivity.
  do 4 (rewrite lookup_insert_ne by discriminate).
  apply lookup_insert_eq.
Qed.

Lemma label_to_function_rescaled_retention (s : Simulation fn) :
  label_to_function_rescaled s !! LStr "retention" = Some (retention s).
Proof.
  unfold label_to_function_rescaled.
  destruct (chemical_pot s); [destruct (need_projecting_solute s)|];
    rewrite ?lookup_insert_ne by discriminate; apply label_to_function_retention.
Qed.

Lemma label_to_function_rescaled_solute (s : Simulation fn) :
  chemical_pot s = true ->
  exists f, label_to_function_rescaled s !! LStr "solute" = Some f
            /\ unprojected f = Mul (Sol 0) Solubility.
Proof.
  intros Hchem. unfold label_to_function_rescaled. rewrite Hchem.
  destruct (need_projecting_solute s); rewrite lookup_insert_eq; eauto.
Qed.

Section Labels.
(** A label and a property of its field that projections keep. *)
Variable l0 : label.
Variable P : expr -> Prop.
Hypothesis HP : forall f, P f -> P (Project f).

Definition dict_ok (d : gmap label expr) : Prop :=
  forall f, d !! l0 = Some f -> P f.

Definition assigned_ok (tr : list (event fn)) : Prop :=
  forall k f, In (Ev_assign_function k l0 f) tr -> P f.

Lemma assigned_ok_nil : assigned_ok [].
Proof. intros k f []. Qed.

Lemma assigned_ok_app (tr1 tr2 : list (event fn)) :
  assigned_ok tr1 -> assigned_ok tr2 -> assigned_ok (tr1 ++ tr2).
Proof.
  intros H1 H2 k f Hin. apply in_app_or in Hin as [Hin|Hin]; eauto.
Qed.

Lemma assigned_ok_one (d : gmap label expr) k l f :
  dict_ok d -> lookup_label d l = Ok f -> assigned_ok [Ev_assign_function k l f].
Proof.
  intros Hd Hl k' f' [[= _ El Ef]|[]]. apply Hd. rewrite <- El, <- Ef.
  unfold lookup_label in Hl. destruct (d !! l); congruence.
Qed.

Lemma assigned_ok_other (ev : event fn) :
  (forall k l f, ev <> Ev_assign_function k l f) -> assigned_ok [ev].
Proof. intros Hev k f [E|[]]. exfalso. eapply Hev, E. Qed.

Lemma project_unless_Function_ok (d d' : gmap label expr) (l : label) :
  project_unless_Function is_Function d l = Ok d' -> dict_ok d -> dict_ok d'.
Proof.
  unfold project_unless_Function, lookup_label.
  destruct (d !! l) as [f|] eqn:Hl; simpl; [|discriminate].
  destruct (is_Function f); intros [= <-]; [auto|].
  intros Hd g. destruct (decide (l = l0)) as [->|Hne].
  - rewrite lookup_insert_eq. intros [= <-]. apply HP, Hd, Hl.
  - rewrite lookup_insert_ne by assumption. apply Hd.
Qed.

Lemma assign_quantities_ok k qs d (s : Simulation fn) tr r s' :
  assign_quantities is_Function k qs d s = (tr, r, s') ->
  dict_ok d ->
  assigned_ok tr /\ (forall d', r = Ok d' -> dict_ok d').
Proof.
  revert d s tr r s'. induction qs as [|q qs IH]; intros d s tr r s'; simpl.
  - munfold. intros [= <- <- <-] Hd. split; [apply assigned_ok_nil|].
    intros d' [= <-]. exact Hd.
  - rewrite bind_run.
    set (m1 := match q_class q with
               | MaximumVolume | MinimumVolume =>
                   lift (project_unless_Function is_Function d (q_field q))
               | _ => mret d
               end).
    assert (H1 : exists r1, m1 s = ([], r1, s)
                            /\ (forall d1, r1 = Ok d1 -> dict_ok d -> dict_ok d1)).
    { subst m1. destruct (q_class q); munfold; eexists; (split; [reflexivity|]);
        intros d1 E Hd; try (injection E as <-; exact Hd);
        eapply project_unless_Function_ok; eassumption. }
    destruct H1 as (r1 & -> & Hd1).
    destruct r1 as [d1|e].
    2:{ intros [= <- <- <-] _. split; [apply assigned_ok_nil | discriminate]. }
    rewrite bind_run. unfold lift at 1.
    destruct (lookup_label d1 (q_field q)) as [f|e] eqn:Hf.
    2:{ intros [= <- <- <-] _. split; [apply assigned_ok_nil | discriminate]. }
    rewrite bind_run. unfold emit at 1.
    destruct (assign_quantities is_Function k qs d1 s) as [[tr2 r2] s2] eqn:Hrest.
    intros [= <- <- <-] Hd.
    specialize (Hd1 d1 eq_refl Hd).
    destruct (IH _ _ _ _ _ Hrest Hd1) as [Htr2 Hr2].
    split; [|exact Hr2].
    simpl. apply (assigned_ok_app [_]); [|exact Htr2].
    apply (assigned_ok_one d1); assumption.
Qed.

Lemma post_process_export_ok k export d (s : Simulation fn) tr r s' :
  post_process_export' k export d s = (tr, r, s') ->
  dict_ok d ->
  assigned_ok tr /\ (forall d', r = Ok d' -> dict_ok d').
Proof.
  destruct export as [qs n|field|field|field]; simpl.
  - rewrite bind_run.
    destruct (assign_quantities is_Function k qs d s) as [[tr1 r1] s1] eqn:Hq.
    intros Hrun Hd. destruct (assign_quantities_ok _ _ _ _ _ _ _ Hq Hd) as [Htr1 Hr1].
    destruct r1 as [d1|e].
    2:{ injection Hrun as <- <- <-. split; [exact Htr1 | discriminate]. }
    specialize (Hr1 d1 eq_refl).
    revert Hrun. munfold.
    destruct (n =? 0)%nat; simpl.
    { intros [= <- <- <-]. rewrite app_nil_r. split; [exact Htr1 | discriminate]. }
    destruct (nb_iterations s1 mod n =? 0)%nat;
      destruct (is_export_derived_quantities s1 (DerivedQuantities qs n)); simpl;
      intros [= <- <- <-];
      (split; [|intros d' [= <-]; exact Hr1]);
      apply assigned_ok_app; try exact Htr1;
      intros k' f' Hin; simpl in Hin;
      repeat (destruct Hin as [Hin|Hin]; [discriminate|]); destruct Hin.
  - munfold. destruct (is_export_xdmf s (XDMFExport field)).
    2:{ intros [= <- <- <-] Hd. split; [apply assigned_ok_nil|].
        intros d' [= <-]. exact Hd. }
    destruct (bool_decide (field = LStr "retention")); simpl.
    + destruct (project_unless_Function is_Function d (LStr "retention")) as [d1|e] eqn:Hp;
        simpl; [|intros [= <- <- <-] _; split; [apply assigned_ok_nil | discriminate]].
      destruct (lookup_label d1 field) as [f|e] eqn:Hf; simpl; intros [= <- <- <-] Hd;
        pose proof (project_unless_Function_ok _ _ _ Hp Hd) as Hd1.
      * split; [|intros d' [= <-]; exact Hd1].
        apply (assigned_ok_app [_] [_]); [eapply assigned_ok_one; [|eassumption]; assumption|].
        apply assigned_ok_other. discriminate.
      * split; [apply assigned_ok_nil | discriminate].
    + destruct (lookup_label d field) as [f|e] eqn:Hf; simpl; intros [= <- <- <-] Hd.
      * split; [|intros d' [= <-]; exact Hd].
        apply (assigned_ok_app [_] [_]); [eapply assigned_ok_one; [|eassumption]; assumption|].
        apply assigned_ok_other. discriminate.
      * split; [apply assigned_ok_nil | discriminate].
  - munfold.
    destruct (project_unless_Function is_Function d field) as [d1|e] eqn:Hp; simpl;
      [|intros [= <- <- <-] _; split; [apply assigned_ok_nil | discriminate]].
    destruct (lookup_label d1 field) as [f|e] eqn:Hf; simpl; intros [= <- <- <-] Hd;
      pose proof (project_unless_Function_ok _ _ _ Hp Hd) as Hd1.
    + split; [|intros d' [= <-]; exact Hd1].
      apply (assigned_ok_app [_] [_]); [eapply assigned_ok_one; [|eassumption]; assumption|].
      apply assigned_ok_other. discriminate.
    + split; [apply assigned_ok_nil | discriminate].
  - munfold. intros [= <- <- <-] Hd. split; [apply assigned_ok_nil|].
    intros d' [= <-]. exact Hd.
Qed.

Lemma post_process_exports_ok l k d (s : Simulation fn) tr r s' :
  post_process_exports' k l d s = (tr, r, s') ->
  dict_ok d -> assigned_ok tr.
Proof.
  revert k d s tr r s'. induction l as [|export l IH]; intros k d s tr r s'; simpl.
  - munfold. intros [= <- <- <-] _. apply assigned_ok_nil.
  - rewrite bind_run.
    destruct (post_process_export' k export d s) as [[tr1 r1] s1] eqn:H1.
    intros Hrun Hd. destruct (post_process_export_ok _ _ _ _ _ _ _ H1 Hd) as [Htr1 Hr1].
    destruct r1 as [d1|e]; [|injection Hrun as <- <- <-; exact Htr1].
    destruct (post_process_exports' (S k) l d1 s1) as [[tr2 r2] s2] eqn:H2.
    injection Hrun as <- <- <-.
    apply assigned_ok_app; [exact Htr1|].
    eapply IH; [exact H2|]. apply Hr1. reflexivity.
Qed.

Lemma run_post_processing_ok (s : Simulation fn) tr r s' :
  run_post_processing' s = (tr, r, s') ->
  dict_ok (label_to_function_rescaled (update_post_processing_solutions s)) ->
  assigned_ok tr.
Proof.
  unfold run_post_processing. munfold. simpl.
  destruct (post_process_exports' 0 _ _ _) as [[tr1 r1] s1] eqn:H1.
  intros [= <- <- <-] Hd. eapply post_process_exports_ok; eassumption.
Qed.

End Labels.

(** *** The mobile concentration and the retention *)

Lemma In_concat_imap {A B} (Q : B -> Prop) (l : list A) (g : nat -> A -> list B) :
  (forall i x y, In y (g i x) -> Q y) ->
  forall y, In y (concat (imap g l)) -> Q y.
Proof.
  revert g. induction l as [|x l IH]; intros g Hg y; simpl; [intros []|].
  intros Hin. apply in_app_or in Hin as [Hin|Hin]; [eapply Hg, Hin|].
  eapply IH; [|exact Hin]. intros i x' y' Hy. eapply Hg, Hy.
Qed.

Lemma flux_terms_solute (dc : list string) (s : Simulation fn) :
  exists Fl,
    F (create_H_fluxes dc s) = F s ++ Fl
    /\ forall tm, In tm Fl ->
                  exists i surf,
                    tm = (Mul (Neg (Test 0)) (BCForm i Temp (flux_solute s)), ds_sub surf).
Proof.
  eexists. split; [reflexivity|].
  apply In_concat_imap. intros i bc tm. unfold flux_terms.
  destruct (is_flux_bc dc bc); [|intros []].
  intros Hin. apply in_map_iff in Hin as (surf & <- & _). eauto.
Qed.

Lemma map_imap_seq {A B} (f : A -> B) (g : nat -> A -> A) (h : nat -> B) (l : list A)
      (k : nat) :
  (forall i x, f (g i x) = h (k + i)%nat) ->
  map f (imap g l) = map h (seq k (length l)).
Proof.
  revert g k. induction l as [|x l IH]; intros g k Hg; simpl; [reflexivity|].
  rewrite Hg, Nat.add_0_r. f_equal.
  apply IH. intros i y. unfold compose. rewrite Hg. f_equal. lia.
Qed.

Lemma retention_updated (s : Simulation fn) :
  retention (update_post_processing_solutions s) = py_sum (stored_fields s).
Proof.
  unfold retention, stored_fields, update_post_processing_solutions, mobile_field. simpl.
  f_equal. f_equal.
  apply (map_imap_seq post_processing_solution _ SubFunction (traps s) 1).
  reflexivity.
Qed.

Lemma unprojected_fold_Add (l : list expr) (a : expr) :
  unprojected a = a -> unprojected (fold_left Add l a) = fold_left Add l a.
Proof.
  revert a. induction l as [|x l IH]; intros a Ha; simpl; [exact Ha|].
  apply IH. reflexivity.
Qed.

Lemma unprojected_py_sum (l : list expr) : unprojected (py_sum l) = py_sum l.
Proof. apply unprojected_fold_Add. reflexivity. Qed.

Lemma eval_fold_Add rho (l : list expr) (a : expr) (x : R) (xs : list R) :
  eval rho a = Some x -> Forall2 (fun e v => eval rho e = Some v) l xs ->
  eval rho (fold_left Add l a) = Some (fold_left Rplus xs x).
Proof.
  intros Ha Hl. revert a x Ha.
  induction Hl as [|e v l xs He _ IH]; intros a x Ha; simpl; [exact Ha|].
  apply IH. simpl. rewrite Ha, He. reflexivity.
Qed.

Lemma eval_SubFunctions rho (l : list nat) :
  Forall2 (fun e v => eval rho e = Some v) (map SubFunction l) (map (sol rho) l).
Proof. induction l as [|i l IH]; simpl; constructor; [reflexivity | exact IH]. Qed.

Lemma output_errors_frame k l d acc (s : Simulation fn) tr r s' :
  output_errors error_compute k l d acc s = (tr, r, s') -> s' = s.
Proof.
  revert k acc s tr r s'. induction l as [|export l IH]; intros k acc s tr r s'; simpl.
  - munfold. intros [= _ _ <-]. reflexivity.
  - destruct export as [qs n|field|field|field]; try apply IH.
    munfold. destruct (lookup_label d field) as [f|e]; simpl.
    + destruct (output_errors _ _ _ _ _ s) as [[tr2 r2] s2] eqn:Hrest.
      intros [= _ _ <-]. eapply IH, Hrest.
    + intros [= _ _ <-]. reflexivity.
Qed.

Lemma make_output_solutions (s : Simulation fn) tr out s' :
  make_output error_compute s = (tr, Ok out, s') ->
  out_solutions out
  = output_solutions (update_post_processing_solutions s)
                     (retention (update_post_processing_solutions s)).
Proof.
  unfold make_output. rewrite bind_run. unfold modify at 1.
  rewrite bind_run. unfold get at 1.
  set (s1 := update_post_processing_solutions s).
  rewrite bind_run.
  destruct (output_errors error_compute 0 (exports s1) (label_to_function s1) None s1)
    as [[tr1 r1] s2] eqn:Herr.
  apply output_errors_frame in Herr as Hs2. subst s2.
  destruct r1 as [errors|e]; [|discriminate].
  rewrite bind_run. unfold lift at 1, lookup_label.
  rewrite label_to_function_retention. munfold.
  intros [= _ <- _]. reflexivity.
Qed.

Lemma output_solutions_lookup (l : list (Trap fn)) (m : gmap string expr) (name : string) :
  (forall x, "trap_" +:+ x <> name) ->
  fold_left (fun m tr => <["trap_" +:+ pretty (id tr) := post_processing_solution tr]> m)
            l m !! name
  = m !! name.
Proof.
  intros Hname. revert m. induction l as [|x l IH]; intros m; simpl; [reflexivity|].
  rewrite IH. apply lookup_insert_ne, Hname.
Qed.

Lemma create_properties_S_kept (materials : list material) (acc : PostProcessing.properties) :
  PostProcessing.S acc <> None ->
  PostProcessing.S (fold_left PostProcessing.add_material_properties materials acc) <> None.
Proof.
  revert acc. induction materials as [|mat materials IH]; intros acc Hacc; simpl; [exact Hacc|].
  apply IH. unfold PostProcessing.add_material_properties.
  destruct (has_key mat "S_0"), (has_key mat "thermal_cond"), (has_key mat "H"); simpl;
    first [exact Hacc | discriminate].
Qed.

Lemma create_properties_S (materials : list material) :
  (exists mat, In mat materials /\ has_key mat "S_0" = true) ->
  PostProcessing.S (PostProcessing.create_properties materials) <> None.
Proof.
  unfold PostProcessing.create_properties.
  generalize ({| PostProcessing.D := PostProcessing.ArheniusCoeff "D_0" "E_D";
                 PostProcessing.thermal_cond := None; PostProcessing.cp := None;
                 PostProcessing.rho := None; PostProcessing.H := None;
                 PostProcessing.S := None |}).
  induction materials as [|mat materials IH]; intros acc (m & Hin & Hm); [destruct Hin|].
  simpl. destruct Hin as [->|Hin].
  - apply create_properties_S_kept. unfold PostProcessing.add_material_properties.
    rewrite Hm. destruct (has_key m "thermal_cond"), (has_key m "H"); simpl; discriminate.
  - apply IH. eauto.
Qed.

Lemma rescaled_Project (f : expr) : rescaled f -> rescaled (Project f).
Proof. intros Hf rho. apply Hf. Qed.

Lemma sum_of_Project (l : list expr) (f : expr) : sum_of l f -> sum_of l (Project f).
Proof. intros Hf. exact Hf. Qed.


(** C7.  The field under the label [retention] is the sum of the
    stored fields: the mobile concentration, which is the projection
    of [theta * S] when the chemical potential is on, then the field of
    each trap.  This is the field handed to every export that asks for
    [retention], projected or not, and the field of the output; and
    [post_processing.run_post_processing] builds the same sum. *)
Theorem retention_is_total_inventory (s : Simulation fn) :
  retention (update_post_processing_solutions s) = py_sum (stored_fields s)
  /\ label_to_function_rescaled (update_post_processing_solutions s) !! LStr "retention"
     = Some (py_sum (stored_fields s))
  /\ (forall tr r s' k f,
         run_post_processing' s = (tr, r, s') ->
         In (Ev_assign_function k (LStr "retention") f) tr ->
         sum_of (stored_fields s) f)
  /\ (forall tr out s',
         make_output error_compute s = (tr, Ok out, s') ->
         out_solutions out !! "retention" = Some (Project (py_sum (stored_fields s))))
  /\ (forall rho,
         eval rho (py_sum (stored_fields s))
         = Some (fold_left Rplus (map (sol rho) (seq 1 (length (traps s))))
                           (0 + (if chemical_pot s
                                 then projected rho (Mul (SubFunction 0) Solubility)
                                 else sol rho 0))%R))
  /\ (chemical_pot s = true -> rescaled (mobile_field (chemical_pot s)))
  /\ (forall (nb : nat) (S : option PostProcessing.coefficient),
         let res := mobile_field (match S with Some _ => true | None => false end)
                      :: map SubFunction (seq 1 (nb - 1)) in
         PostProcessing.post_processing_fields nb S = res ++ [py_sum res; Temp]).
Proof.
  refine (conj _ (conj _ (conj _ (conj _ (conj _ (conj _ _)))))).
  - apply retention_updated.
  - rewrite label_to_function_rescaled_retention, retention_updated. reflexivity.
  - intros tr r s' k f Hrun Hin.
    refine (run_post_processing_ok (LStr "retention") (sum_of (stored_fields s))
                                   (sum_of_Project _) s tr r s' Hrun _ k f Hin).
    intros g. rewrite label_to_function_rescaled_retention, retention_updated.
    intros [= <-]. apply unprojected_py_sum.
  - intros tr out s' Hout.
    rewrite (make_output_solutions _ _ _ _ Hout). unfold output_solutions.
    rewrite lookup_insert_eq, retention_updated. reflexivity.
  - intros rho. unfold py_sum, stored_fields. simpl.
    apply eval_fold_Add; [|apply eval_SubFunctions].
    unfold mobile_field. destruct (chemical_pot s); reflexivity.
  - intros ->. intros rho. reflexivity.
  - intros nb S. unfold PostProcessing.post_processing_fields.
    destruct nb as [|nb]; simpl.
    + destruct S; reflexivity.
    + rewrite Nat.sub_0_r. destruct S; reflexivity.
Qed.

(** *** The order of the effects of a step *)


(** *** The steady state *)

(** C1 (amended).  In a steady-state run whose solve does not
    converge, [Simulation.run] performs the post-processing and then
    raises: the [ValueError] of the divergence, or the exception of
    the post-processing if it raised one.  It writes no derived
    quantities afterwards and returns no output. *)
Theorem diverged_steady_state_raises (fuel : nat) (s : Simulation fn) u' nb :
  transient (settings s) = false ->
  solve_once (set_t 0 s) = (u', nb, false) ->
  let '(tr, r, s') := run_post_processing' (set_u u' (set_t 0 s)) in
  run' fuel s
  = Some (Ev_print "Solving steady state problem..." :: Ev_solve_once nb false :: tr,
          Raise (match r with
                 | Ok _ =>
                     ValueError ("The solver diverged in " ++ pretty nb
                                   ++ " iteration(s)")%string
                 | Raise e => e
                 end),
          s').
Proof.
  intros Htransient Hsolve.
  destruct (run_post_processing' (set_u u' (set_t 0 s))) as [[tr r] s'] eqn:Hpp.
  unfold run. simpl. rewrite Htransient. f_equal.
  rewrite bind_run. unfold solve_steady_state.
  rewrite bind_run. unfold emit at 1.
  rewrite bind_run. unfold get at 1. rewrite Hsolve.
  rewrite bind_run. unfold modify at 1.
  rewrite bind_run. unfold emit at 1.
  rewrite bind_run, Hpp.
  destruct r as [[]|e]; unfold raise; simpl; rewrite ?app_nil_r; reflexivity.
Qed.

(** *** Bookkeeping of the steps *)

(** What every phase after the first keeps. *)
Definition kept (s s' : Simulation fn) : Prop :=
  t s' = t s /\ nb_iterations s' = nb_iterations s
  /\ settings s' = settings s /\ exports s' = exports s.

Lemma kept_trans (s1 s2 s3 : Simulation fn) : kept s1 s2 -> kept s2 s3 -> kept s1 s3.
Proof. unfold kept. intros (? & ? & ? & ?) (? & ? & ? & ?). repeat split; congruence. Qed.

Lemma step_times_class (C : event fn -> bool) (l : list (event fn)) :
  forallb C l = true ->
  (forall ev, C ev = true ->
              match ev with Ev_update_expressions _ => False | _ => True end) ->
  step_times l = [].
Proof.
  intros Hl HC. unfold step_times. apply (omap_class C); [exact Hl|].
  intros ev Hev. specialize (HC ev Hev). destruct ev; try reflexivity. destruct HC.
Qed.

Lemma update_current_time_kept (s : Simulation fn) tr r s1 :
  update_current_time' s = (tr, r, s1) ->
  t s1 = (t s + dt s)%Q /\ nb_iterations s1 = nb_iterations s
  /\ settings s1 = settings s /\ exports s1 = exports s
  /\ step_times tr = [(t s + dt s)%Q].
Proof.
  unfold update_current_time. munfold. simpl.
  destruct (String.eqb (T_type s) "expression"); simpl;
    destruct (bind_coefficients _) as [c|e]; simpl; intros [= <- <- <-]; simpl; auto.
Qed.

Lemma solve_heat_transfers_kept (s : Simulation fn) tr r s2 :
  solve_heat_transfers' s = (tr, r, s2) -> kept s s2 /\ step_times tr = [].
Proof.
  intros H. apply solve_heat_transfers_spec in H
    as [(_ & T' & _ & -> & _ & ->)|[(_ & e & _ & -> & _ & ->)|(_ & -> & _ & ->)]];
    unfold kept; simpl; auto.
Qed.

Lemma solve_main_problem_kept (s : Simulation fn) tr r s3 :
  solve_main_problem' s = (tr, r, s3) -> kept s s3 /\ step_times tr = [].
Proof.
  intros H. apply solve_main_problem_spec in H
    as [(u' & d' & _ & -> & _ & ->)|(e & _ & -> & _ & ->)];
    unfold kept; simpl; auto.
Qed.

Lemma solve_extrinsic_traps_kept (s : Simulation fn) tr r s4 :
  solve_extrinsic_traps' s = (tr, r, s4) -> kept s s4 /\ step_times tr = [].
Proof.
  intros H. apply solve_loop in H as (l' & -> & _ & Hev & _).
  split; [unfold kept; simpl; auto|].
  apply (step_times_class is_auxiliary_solve); [exact Hev|]. intros []; simpl; auto; discriminate.
Qed.

Lemma run_post_processing_kept (s : Simulation fn) tr r s5 :
  run_post_processing' s = (tr, r, s5) -> kept s s5 /\ step_times tr = [].
Proof.
  intros H. apply run_post_processing_frame in H as ((x & ->) & Hev).
  split; [unfold kept; simpl; auto|].
  apply (step_times_class is_post_processing_event); [exact Hev|].
  intros []; simpl; auto; discriminate.
Qed.

Lemma committed_kept (s5 : Simulation fn) :
  t (committed s5) = t s5 /\ nb_iterations (committed s5) = S (nb_iterations s5)
  /\ settings (committed s5) = settings s5 /\ exports (committed s5) = exports s5
  /\ step_times (commit_events s5) = [].
Proof.
  unfold committed. destruct (Qgtb _ _); simpl; repeat split; try reflexivity;
    (apply (step_times_class is_commit);
     [apply forallb_commits | intros []; simpl; auto; discriminate]).
Qed.

Lemma iterate_step (s : Simulation fn) :
  let '(tr, r, s') := iterate' s in
  t s' = (t s + dt s)%Q
  /\ step_times tr = [(t s + dt s)%Q]
  /\ nb_iterations s' = (if raises r then nb_iterations s else S (nb_iterations s))
  /\ settings s' = settings s
  /\ exports s' = exports s.
Proof.
  destruct (iterate' s) as [[tr r] s'] eqn:Hit. apply iterate_phases in Hit.
  destruct Hit as
    [tr1 e s1 H1
    |tr1 s1 tr2 e s2 H1 H2
    |tr1 s1 tr2 s2 tr3 e s3 H1 H2 H3
    |tr1 s1 tr2 s2 tr3 s3 tr4 e s4 H1 H2 H3 H4
    |tr1 s1 tr2 s2 tr3 s3 tr4 s4 tr5 e s5 H1 H2 H3 H4 H5
    |tr1 s1 tr2 s2 tr3 s3 tr4 s4 tr5 s5 H1 H2 H3 H4 H5];
    apply update_current_time_kept in H1 as (Ht1 & Hn1 & Hs1 & He1 & Hx1);
    try (apply solve_heat_transfers_kept in H2 as ((Ht2 & Hn2 & Hs2 & He2) & Hx2));
    try (apply solve_main_problem_kept in H3 as ((Ht3 & Hn3 & Hs3 & He3) & Hx3));
    try (apply solve_extrinsic_traps_kept in H4 as ((Ht4 & Hn4 & Hs4 & He4) & Hx4));
    try (apply run_post_processing_kept in H5 as ((Ht5 & Hn5 & Hs5 & He5) & Hx5));
    try (destruct (committed_kept s5) as (Ht6 & Hn6 & Hs6 & He6 & Hx6));
    unfold step_times in *; rewrite ?omap_app; simpl raises; cbv iota;
    repeat split; try congruence;
    rewrite ?Hx1, ?Hx2, ?Hx3, ?Hx4, ?Hx5, ?Hx6, ?app_nil_r; reflexivity.
Qed.

(** X2.  One call of [Simulation.iterate] moves the time by the stepsize it
    starts with, also when it raises: the time is not rolled back.  It
    counts the step in [nb_iterations] exactly when it completes.  It
    emits the update of the expressions once, at the new time, and
    changes neither the settings nor the list of exports. *)
Theorem iterate_bookkeeping (s : Simulation fn) :
  let '(tr, r, s') := iterate' s in
  t s' = (t s + dt s)%Q
  /\ step_times tr = [(t s + dt s)%Q]
  /\ nb_iterations s' = (if raises r then nb_iterations s else S (nb_iterations s))
  /\ settings s' = settings s
  /\ exports s' = exports s.
Proof. exact (iterate_step s). Qed.

(** X3.  The loop of [Simulation.run]: the steps are counted in
    [nb_iterations], the failed one left out; the simulation is left at
    the time of the last step, also when that step raised. *)
Theorem time_stepping_bookkeeping (fuel : nat) (s : Simulation fn) tr r s' :
  time_stepping' fuel s = Some (tr, r, s') ->
  List.last (step_times tr) (t s) = t s'
  /\ (nb_iterations s' + (if raises r then 1 else 0)
      = nb_iterations s + length (step_times tr))%nat
  /\ (raises r = false -> Qltb (t s') (final_time (settings s')) = false)
  /\ settings s' = settings s
  /\ exports s' = exports s.
Proof.
  revert s tr r s'. induction fuel as [|fuel IH]; intros s tr r s'; simpl.
  - destruct (Qltb (t s) (final_time (settings s))) eqn:Hloop; [discriminate|].
    intros [= <- <- <-]. simpl. repeat split; auto.
  - destruct (Qltb (t s) (final_time (settings s))) eqn:Hloop.
    2:{ intros [= <- <- <-]. simpl. repeat split; auto. }
    pose proof (iterate_step s) as Hstep.
    destruct (iterate' s) as [[tr1 r1] s1].
    destruct Hstep as (Ht1 & Hx1 & Hn1 & Hs1 & He1).
    destruct r1 as [[]|e].
    + destruct (time_stepping' fuel s1) as [[[tr2 r2] s2]|] eqn:Hrest; [|discriminate].
      intros [= <- <- <-].
      destruct (IH _ _ _ _ Hrest) as (Ht2 & Hn2 & Hend & Hs2 & He2).
      unfold step_times in *. rewrite omap_app, Hx1. cbn [app].
      rewrite last_cons, length_cons. simpl in Hn1.
      rewrite <- Ht1.
      refine (conj Ht2 (conj _ (conj Hend (conj _ _)))); [lia | congruence | congruence].
    + intros [= <- <- <-]. rewrite Hx1. simpl in *.
      refine (conj (eq_sym Ht1) (conj _ (conj _ (conj Hs1 He1)))); [lia | discriminate].
Qed.

(** *** What the post-processing changes *)

Definition is_TXTExport (export : Export) : bool :=
  match export with TXTExport _ => true | _ => false end.

Lemma post_process_export_stepsize k export d (s : Simulation fn) tr r s' :
  post_process_export' k export d s = (tr, r, s') ->
  is_TXTExport export = false -> s' = s.
Proof.
  destruct export as [qs n|field|field|field]; simpl; [| | discriminate |].
  - munfold.
    destruct (assign_quantities is_Function k qs d s) as [[tr1 r1] s1] eqn:Hq.
    destruct (assign_quantities_frame _ _ _ _ _ _ _ Hq) as [-> _].
    destruct r1 as [d1|e]; [|intros [= _ _ <-]; reflexivity].
    destruct (n =? 0)%nat; simpl; [intros [= _ _ <-]; reflexivity|].
    destruct (nb_iterations s mod n =? 0)%nat;
      destruct (is_export_derived_quantities s (DerivedQuantities qs n)); simpl;
      intros [= _ _ <-]; reflexivity.
  - munfold. destruct (is_export_xdmf s (XDMFExport field));
      [|intros [= _ _ <-]; reflexivity].
    destruct (bool_decide (field = LStr "retention")); simpl.
    + destruct (project_unless_Function is_Function d (LStr "retention")) as [d1|e];
        simpl; [|intros [= _ _ <-]; reflexivity].
      destruct (lookup_label d1 field) as [f|e]; simpl; intros [= _ _ <-]; reflexivity.
    + destruct (lookup_label d field) as [f|e]; simpl; intros [= _ _ <-]; reflexivity.
  - munfold. intros [= _ _ <-]. reflexivity.
Qed.

Lemma post_process_exports_stepsize l k d (s : Simulation fn) tr r s' :
  post_process_exports' k l d s = (tr, r, s') ->
  existsb is_TXTExport l = false -> s' = s.
Proof.
  revert k d s tr r s'. induction l as [|export l IH]; intros k d s tr r s'; simpl.
  - munfold. intros [= _ _ <-]. reflexivity.
  - rewrite bind_run. intros Hrun Hno. apply orb_false_elim in Hno as [Hexp Hl].
    destruct (post_process_export' k export d s) as [[tr1 r1] s1] eqn:H1.
    apply post_process_export_stepsize in H1; [subst s1 | exact Hexp].
    destruct r1 as [d1|e]; [|injection Hrun as _ _ <-; reflexivity].
    destruct (post_process_exports' (S k) l d1 s) as [[tr2 r2] s2] eqn:H2.
    injection Hrun as _ _ <-. eapply IH; eassumption.
Qed.

(** X4.  [run_post_processing] emits only assignments of fields to exports,
    computations and writes.  In the simulation it replaces the fields
    kept for the post-processing and nothing else, but for the
    stepsize, which only a TXT export can change: the time, the
    solutions, the temperature, the traps' densities, the settings and
    the exports are the same afterwards, whether it raises or not. *)
Theorem run_post_processing_keeps_state (s : Simulation fn) :
  let '(tr, r, s') := run_post_processing' s in
  same_fields s s'
  /\ forallb is_post_processing_event tr = true
  /\ (existsb is_TXTExport (exports s) = false ->
      s' = update_post_processing_solutions s).
Proof.
  destruct (run_post_processing' s) as [[tr r] s'] eqn:Hrun.
  destruct (run_post_processing_frame _ _ _ _ Hrun) as ((x & Hs') & Hev).
  split; [|split; [exact Hev|]].
  - subst s'. eapply same_fields_trans; [apply update_post_processing_solutions_same|].
    unfold same_fields. simpl. repeat split; reflexivity.
  - intros Hno. revert Hrun. unfold run_post_processing. munfold. simpl.
    destruct (post_process_exports' 0 _ _ _) as [[tr1 r1] s1] eqn:H1.
    intros [= _ _ <-].
    eapply post_process_exports_stepsize; [exact H1 | exact Hno].
Qed.

(** *** The labels of the fields *)

(** The labels that every simulation has. *)
Definition fixed_labels : list label :=
  [LStr "solute"; LStr "0"; LInt 0; LStr "T"; LStr "retention"].

(** [l] is a key of [label_to_function]: a fixed label, or the id of a
    trap, as an integer or written in decimal. *)
Definition known_label (s : Simulation fn) (l : label) : Prop :=
  In l fixed_labels
  \/ exists i, In i (map id (traps s)) /\ (l = LInt i \/ l = LStr (pretty i)).

Lemma add_trap_labels_is_Some (d : gmap label expr) (x : Trap fn) (k : label) :
  is_Some (add_trap_labels d x !! k)
  <-> is_Some (d !! k) \/ k = LInt (id x) \/ k = LStr (pretty (id x)).
Proof.
  unfold add_trap_labels. rewrite !lookup_insert_is_Some.
  destruct (decide (LStr (pretty (id x)) = k)) as [H1|H1];
    destruct (decide (LInt (id x) = k)) as [H2|H2];
    intuition congruence.
Qed.

Lemma fold_trap_labels_is_Some (l : list (Trap fn)) (d : gmap label expr) (k : label) :
  is_Some (fold_left add_trap_labels l d !! k)
  <-> is_Some (d !! k)
      \/ exists i, In i (map id l) /\ (k = LInt i \/ k = LStr (pretty i)).
Proof.
  revert d. induction l as [|x l IH]; intros d; simpl.
  - split; [auto | intros [H|(i & [] & _)]; exact H].
  - rewrite IH, add_trap_labels_is_Some. split.
    + intros [[H|H]|(i & Hi & Hk)]; [auto | right; exists (id x); auto
                                     | right; exists i; auto].
    + intros [H|(i & [<-|Hi] & Hk)]; [auto | auto | right; exists i; auto].
Qed.

Lemma label_to_function_is_Some (s : Simulation fn) (l : label) :
  is_Some (label_to_function s !! l) <-> known_label s l.
Proof.
  unfold label_to_function, known_label. rewrite fold_trap_labels_is_Some.
  apply or_iff_compat_r.
  rewrite !lookup_insert_is_Some, lookup_empty. unfold fixed_labels. simpl.
  split.
  - intros H.
    repeat match goal with
           | H : _ \/ _ |- _ => destruct H
           | H : _ /\ _ |- _ => destruct H
           end; subst; auto 10.
    exfalso. eapply is_Some_None. eassumption.
  - intros [<-|[<-|[<-|[<-|[<-|[]]]]]].
    + right. split; [discriminate|]. right. split; [discriminate|].
      right. split; [discriminate|]. right. split; [discriminate|]. left. reflexivity.
    + right. split; [discriminate|]. right. split; [discriminate|].
      right. split; [discriminate|]. left. reflexivity.
    + right. split; [discriminate|]. right. split; [discriminate|]. left. reflexivity.
    + right. split; [discriminate|]. left. reflexivity.
    + left. reflexivity.
Qed.

Lemma fold_trap_labels_other_int (l : list (Trap fn)) (d : gmap label expr) (i : Z) :
  ~ In i (map id l) -> fold_left add_trap_labels l d !! LInt i = d !! LInt i.
Proof.
  revert d. induction l as [|x l IH]; intros d Hi; simpl; [reflexivity|].
  simpl in Hi. rewrite IH by tauto. unfold add_trap_labels.
  rewrite lookup_insert_ne by discriminate.
  apply lookup_insert_ne. intros [= E]. tauto.
Qed.

Lemma fold_trap_labels_other_str (l : list (Trap fn)) (d : gmap label expr) (i : Z) :
  ~ In i (map id l) ->
  fold_left add_trap_labels l d !! LStr (pretty i) = d !! LStr (pretty i).
Proof.
  revert d. induction l as [|x l IH]; intros d Hi; simpl; [reflexivity|].
  simpl in Hi. rewrite IH by tauto. unfold add_trap_labels.
  rewrite lookup_insert_ne.
  - apply lookup_insert_ne. discriminate.
  - intros [= E]. apply (inj pretty) in E. tauto.
Qed.

Lemma fold_trap_labels_lookup_trap (l : list (Trap fn)) (d : gmap label expr) (x : Trap fn) :
  NoDup (map id l) -> In x l ->
  fold_left add_trap_labels l d !! LInt (id x) = Some (post_processing_solution x)
  /\ fold_left add_trap_labels l d !! LStr (pretty (id x))
     = Some (post_processing_solution x).
Proof.
  revert d. induction l as [|y l IH]; intros d Hnd Hin; [destruct Hin|].
  simpl in Hnd. apply NoDup_cons in Hnd as [Hy Hnd]. simpl.
  destruct Hin as [->|Hin].
  - rewrite fold_trap_labels_other_int, fold_trap_labels_other_str
      by (rewrite <- list_elem_of_In; exact Hy).
    unfold add_trap_labels. rewrite lookup_insert_ne by discriminate.
    rewrite !lookup_insert_eq. auto.
  - apply IH; assumption.
Qed.

Lemma label_to_function_rescaled_is_Some (s : Simulation fn) (l : label) :
  is_Some (label_to_function_rescaled s !! l) <-> known_label s l.
Proof.
  rewrite <- label_to_function_is_Some.
  unfold label_to_function_rescaled.
  destruct (chemical_pot s); [|reflexivity].
  destruct (need_projecting_solute s); rewrite lookup_insert_is_Some;
    (split; [intros [<-|[_ H]]; [|exact H] | intros H]).
  - rewrite label_to_function_solute. eauto.
  - destruct (decide (LStr "solute" = l)); auto.
  - rewrite label_to_function_solute. eauto.
  - destruct (decide (LStr "solute" = l)); auto.
Qed.

(** X5.  The keys of [label_to_function] are the five fixed labels and, for
    each trap, its id as an integer and in decimal writing; no other
    label is defined.  When the ids of the traps are distinct, both
    labels of a trap give the field of this trap, also for a trap with
    id 0, whose labels then no longer give the mobile concentration. *)
Theorem label_to_function_keys (s : Simulation fn) :
  (forall l, is_Some (label_to_function s !! l) <-> known_label s l)
  /\ (forall l, is_Some (label_to_function_rescaled s !! l) <-> known_label s l)
  /\ (forall l, lookup_label (label_to_function s) l = Raise (KeyError "label_to_function")
                <-> ~ known_label s l)
  /\ (NoDup (map id (traps s)) ->
      forall x, In x (traps s) ->
                label_to_function s !! LInt (id x) = Some (post_processing_solution x)
                /\ label_to_function s !! LStr (pretty (id x))
                   = Some (post_processing_solution x)).
Proof.
  refine (conj (label_to_function_is_Some s)
               (conj (label_to_function_rescaled_is_Some s) (conj _ _))).
  - intros l. rewrite <- label_to_function_is_Some. unfold lookup_label.
    destruct (label_to_function s !! l) as [f|] eqn:Hl.
    + split; [discriminate|]. intros H. exfalso. apply H. eauto.
    + split; [|reflexivity]. intros _ [f Hf]. discriminate.
  - intros Hnd x Hx. unfold label_to_function.
    apply fold_trap_labels_lookup_trap; assumption.
Qed.

(** *** When the post-processing and the output succeed *)

(** An export whose fields are labels, and which is not computed
    every 0 iterations. *)
Definition export_ready (s : Simulation fn) (export : Export) : Prop :=
  match export with
  | DerivedQuantities qs n => n <> 0%nat /\ Forall (fun q => known_label s (q_field q)) qs
  | XDMFExport field | TXTExport field => known_label s field
  | Error _ => True
  end.

(** The dictionary holds every label. *)
Definition holds_labels (s : Simulation fn) (d : gmap label expr) : Prop :=
  forall l, known_label s l -> is_Some (d !! l).

Lemma holds_labels_lookup (s : Simulation fn) d l :
  holds_labels s d -> known_label s l -> exists f, lookup_label d l = Ok f.
Proof.
  intros Hd Hl. destruct (Hd l Hl) as [f Hf]. exists f. unfold lookup_label.
  rewrite Hf. reflexivity.
Qed.

Lemma holds_labels_project (s : Simulation fn) d l :
  holds_labels s d -> known_label s l ->
  exists d', project_unless_Function is_Function d l = Ok d' /\ holds_labels s d'.
Proof.
  intros Hd Hl. unfold project_unless_Function.
  destruct (holds_labels_lookup s d l Hd Hl) as (f & ->). simpl.
  eexists. split; [reflexivity|].
  destruct (is_Function f); [exact Hd|].
  intros k Hk. rewrite lookup_insert_is_Some'. right. apply Hd, Hk.
Qed.

Lemma assign_quantities_succeeds (s0 : Simulation fn) k qs d (s : Simulation fn) :
  holds_labels s0 d -> Forall (fun q => known_label s0 (q_field q)) qs ->
  exists tr d', assign_quantities is_Function k qs d s = (tr, Ok d', s)
                /\ holds_labels s0 d'.
Proof.
  intros Hd Hqs. revert d Hd.
  induction Hqs as [|q qs Hq _ IH]; intros d Hd; simpl.
  - exists [], d. split; [reflexivity | exact Hd].
  - rewrite bind_run.
    assert (H1 : exists d1,
               match q_class q with
               | MaximumVolume | MinimumVolume =>
                   lift (project_unless_Function is_Function d (q_field q))
               | _ => mret d
               end s = ([], Ok d1, s) /\ holds_labels s0 d1).
    { destruct (q_class q); try (exists d; split; [reflexivity | exact Hd]);
        destruct (holds_labels_project s0 d (q_field q) Hd Hq) as (d1 & Hp & Hd1);
        exists d1; unfold lift; rewrite Hp; auto. }
    destruct H1 as (d1 & -> & Hd1).
    rewrite bind_run. unfold lift at 1.
    destruct (holds_labels_lookup s0 d1 (q_field q) Hd1 Hq) as (f & ->).
    rewrite bind_run. unfold emit at 1.
    destruct (IH d1 Hd1) as (tr2 & d' & -> & Hd').
    eauto.
Qed.

Lemma post_process_export_succeeds (s0 : Simulation fn) k export d (s : Simulation fn) :
  holds_labels s0 d -> export_ready s0 export ->
  exists tr d' s', post_process_export' k export d s = (tr, Ok d', s')
                   /\ holds_labels s0 d'.
Proof.
  intros Hd Hready. destruct export as [qs n|field|field|field]; simpl in *.
  - destruct Hready as [Hn Hqs]. rewrite bind_run.
    destruct (assign_quantities_succeeds s0 k qs d s Hd Hqs) as (tr1 & d1 & -> & Hd1).
    munfold. apply Nat.eqb_neq in Hn. rewrite Hn.
    destruct (nb_iterations s mod n =? 0)%nat;
      destruct (is_export_derived_quantities s (DerivedQuantities qs n)); simpl; eauto.
  - munfold. destruct (is_export_xdmf s (XDMFExport field)); [|eauto].
    destruct (bool_decide (field = LStr "retention")) eqn:Hret; simpl.
    + apply bool_decide_eq_true in Hret. subst field.
      destruct (holds_labels_project s0 d _ Hd Hready) as (d1 & -> & Hd1). simpl.
      destruct (holds_labels_lookup s0 d1 _ Hd1 Hready) as (f & ->). simpl. eauto.
    + destruct (holds_labels_lookup s0 d _ Hd Hready) as (f & ->). simpl. eauto.
  - munfold.
    destruct (holds_labels_project s0 d _ Hd Hready) as (d1 & -> & Hd1). simpl.
    destruct (holds_labels_lookup s0 d1 _ Hd1 Hready) as (f & ->). simpl. eauto.
  - munfold. eauto.
Qed.

Lemma post_process_exports_succeeds (s0 : Simulation fn) l k d (s : Simulation fn) :
  holds_labels s0 d -> Forall (export_ready s0) l ->
  exists tr s', post_process_exports' k l d s = (tr, Ok tt, s').
Proof.
  intros Hd Hl. revert k d s Hd.
  induction Hl as [|export l Hexp _ IH]; intros k d s Hd; simpl.
  - exists [], s. reflexivity.
  - rewrite bind_run.
    destruct (post_process_export_succeeds s0 k export d s Hd Hexp)
      as (tr1 & d1 & s1 & -> & Hd1).
    destruct (IH (S k) d1 s1 Hd1) as (tr2 & s2 & ->). eauto.
Qed.

Lemma known_label_updated (s : Simulation fn) (l : label) :
  known_label (update_post_processing_solutions s) l <-> known_label s l.
Proof.
  unfold known_label, update_post_processing_solutions. simpl.
  rewrite (map_imap_invariant id _ id) by reflexivity. reflexivity.
Qed.

Lemma run_post_processing_ready (s : Simulation fn) :
  Forall (export_ready s) (exports s) ->
  exists tr s', run_post_processing' s = (tr, Ok tt, s').
Proof.
  intros Hready. unfold run_post_processing. rewrite bind_run. unfold modify at 1.
  rewrite bind_run. unfold get at 1.
  set (s1 := update_post_processing_solutions s).
  destruct (post_process_exports_succeeds s (exports s1) 0 (label_to_function_rescaled s1) s1)
    as (tr & s' & ->).
  - intros l Hl. apply label_to_function_rescaled_is_Some.
    apply known_label_updated, Hl.
  - exact Hready.
  - eauto.
Qed.

(** X6.  [run_post_processing] raises neither [KeyError] nor
    [ZeroDivisionError], the two exceptions of its own code, when
    every field that an export names is a key of [label_to_function]
    and no derived quantities are computed every 0 iterations.  The
    calls into the export objects are taken to return. *)
Theorem run_post_processing_succeeds (s : Simulation fn) :
  Forall (export_ready s) (exports s) ->
  exists tr s', run_post_processing' s = (tr, Ok tt, s').
Proof. exact (run_post_processing_ready s). Qed.

(** *** [make_output] *)

Definition is_Error (export : Export) : bool :=
  match export with Error _ => true | _ => false end.

Definition error_ready (s : Simulation fn) (export : Export) : Prop :=
  match export with Error field => known_label s field | _ => True end.

Lemma output_errors_spec (s0 : Simulation fn) l k d acc (s : Simulation fn) :
  holds_labels s0 d -> Forall (error_ready s0) l ->
  exists tr errs,
    output_errors error_compute k l d acc s
    = (tr, Ok (if errs is [] then acc else Some (default [] acc ++ errs)), s)
    /\ length errs = length (List.filter is_Error l).
Proof.
  intros Hd Hl. revert k acc.
  induction Hl as [|export l Hexp _ IH]; intros k acc; simpl.
  - exists [], []. split; reflexivity.
  - destruct export as [qs n|field|field|field]; simpl; try apply IH.
    munfold. destruct (holds_labels_lookup s0 d field Hd Hexp) as (f & ->). simpl.
    destruct (IH (S k) (Some (default [] acc ++ [error_compute s k f]))) as (tr & errs & -> & Hlen).
    exists (Ev_assign_function k field f :: tr), (error_compute s k f :: errs).
    split; [|simpl; rewrite Hlen; reflexivity].
    simpl. destruct errs as [|e errs]; [reflexivity|].
    simpl. rewrite <- app_assoc. reflexivity.
Qed.

Lemma output_solutions_is_Some (l : list (Trap fn)) (m : gmap string expr) (key : string) :
  is_Some (fold_left
             (fun m tr => <["trap_" +:+ pretty (id tr) := post_processing_solution tr]> m)
             l m !! key)
  <-> is_Some (m !! key) \/ exists i, In i (map id l) /\ key = "trap_" +:+ pretty i.
Proof.
  revert m. induction l as [|x l IH]; intros m; simpl.
  - split; [auto | intros [H|(i & [] & _)]; exact H].
  - rewrite IH, lookup_insert_is_Some'. split.
    + intros [[H|H]|(i & Hi & Hk)]; [right; exists (id x); auto | auto
                                     | right; exists i; auto].
    + intros [H|(i & [<-|Hi] & Hk)]; [auto | auto | right; exists i; auto].
Qed.

Lemma make_output_ready (s : Simulation fn) :
  Forall (error_ready s) (exports s) ->
  exists tr out,
    make_output error_compute s = (tr, Ok out, update_post_processing_solutions s)
    /\ match out_error out with
       | None => List.filter is_Error (exports s) = []
       | Some errs => List.filter is_Error (exports s) <> []
                      /\ length errs = length (List.filter is_Error (exports s))
       end
    /\ out_solutions out !! "T" = Some Temp
    /\ out_solutions out !! "solute" = Some (mobile_field (chemical_pot s))
    /\ out_solutions out !! "retention" = Some (Project (py_sum (stored_fields s)))
    /\ (forall key,
           is_Some (out_solutions out !! key)
           <-> In key ["solute"; "T"; "retention"]
               \/ exists i, In i (map id (traps s)) /\ key = "trap_" +:+ pretty i).
Proof.
  intros Hready. unfold make_output. rewrite bind_run. unfold modify at 1.
  rewrite bind_run. unfold get at 1.
  set (s1 := update_post_processing_solutions s).
  rewrite bind_run.
  destruct (output_errors_spec s (exports s1) 0 (label_to_function s1) None s1)
    as (tr & errs & -> & Hlen).
  { intros l Hl. apply label_to_function_is_Some.
    apply known_label_updated, Hl. }
  { exact Hready. }
  rewrite bind_run. unfold lift at 1, lookup_label.
  rewrite label_to_function_retention. munfold.
  eexists _, _. split; [reflexivity|]. simpl.
  change (exports s1) with (exports s) in Hlen.
  split; [|split; [|split; [|split]]].
  - destruct errs as [|e errs]; simpl in *.
    + destruct (List.filter is_Error (exports s)); [reflexivity | discriminate].
    + split; [|exact Hlen].
      intros E. rewrite E in Hlen. discriminate.
  - unfold output_solutions. rewrite lookup_insert_ne by discriminate.
    rewrite output_solutions_lookup by (intros x; discriminate).
    apply lookup_insert_eq.
  - unfold output_solutions. rewrite lookup_insert_ne by discriminate.
    rewrite output_solutions_lookup by (intros x; discriminate).
    rewrite lookup_insert_ne by discriminate. rewrite lookup_insert_eq.
    reflexivity.
  - unfold output_solutions. rewrite lookup_insert_eq.
    unfold s1. rewrite retention_updated. reflexivity.
  - intros key. unfold output_solutions.
    rewrite lookup_insert_is_Some', output_solutions_is_Some.
    rewrite !lookup_insert_is_Some', lookup_empty.
    unfold s1, update_post_processing_solutions. simpl.
    rewrite (map_imap_invariant id _ id) by reflexivity.
    split.
    + intros [<-|[[<-|[<-|H]]|H]]; simpl; auto.
      exfalso. eapply is_Some_None, H.
    + intros [[<-|[<-|[<-|[]]]]|H]; auto.
Qed.

(** X7.  [make_output] raises no [KeyError] when the field of every
    [Error] export is a key of [label_to_function]; the calls into
    the export objects are taken to return.  The output then has the
    entry ["error"] exactly when there is such an export, with one
    error for each of them; its solutions are ["solute"], ["T"],
    ["retention"] and ["trap_<id>"] for the id of each trap, and no
    other. *)
Theorem make_output_succeeds (s : Simulation fn) :
  Forall (error_ready s) (exports s) ->
  exists tr out,
    make_output error_compute s = (tr, Ok out, update_post_processing_solutions s)
    /\ match out_error out with
       | None => List.filter is_Error (exports s) = []
       | Some errs => List.filter is_Error (exports s) <> []
                      /\ length errs = length (List.filter is_Error (exports s))
       end
    /\ out_solutions out !! "T" = Some Temp
    /\ out_solutions out !! "solute" = Some (mobile_field (chemical_pot s))
    /\ out_solutions out !! "retention" = Some (Project (py_sum (stored_fields s)))
    /\ (forall key,
           is_Some (out_solutions out !! key)
           <-> In key ["solute"; "T"; "retention"]
               \/ exists i, In i (map id (traps s)) /\ key = "trap_" +:+ pretty i).
Proof. exact (make_output_ready s). Qed.

(** *** [create_H_fluxes] *)

Lemma length_concat_imap {A B C} (bcs : list A) (g : nat -> A -> list B)
      (keep : A -> bool) (h : A -> list C) :
  (forall i x, length (g i x) = if keep x then length (h x) else 0%nat) ->
  length (concat (imap g bcs)) = length (concat (map h (List.filter keep bcs))).
Proof.
  revert g. induction bcs as [|x bcs IH]; intros g Hg; simpl; [reflexivity|].
  rewrite length_app, Hg, (IH (g ∘ S)) by (intros i y; apply Hg).
  destruct (keep x); simpl; [rewrite length_app|]; reflexivity.
Qed.

(** X8.  [create_H_fluxes] keeps the terms of the residual and adds after
    them one term for each surface of each boundary condition that is
    not on the temperature and not of a Dirichlet kind, built from the
    position of the boundary condition in the list; the expressions
    of these boundary conditions are added to [self.expressions].
    Without such a boundary condition the simulation is unchanged. *)
Theorem create_H_fluxes_terms (dc : list string) (s : Simulation fn) :
  let flux := List.filter (is_flux_bc dc) (boundary_conditions s) in
  (forall bc, is_flux_bc dc bc = true
              <-> component bc <> LStr "T" /\ ~ In (bc_type bc) dc)
  /\ (exists Fl,
         F (create_H_fluxes dc s) = F s ++ Fl
         /\ length Fl = length (concat (map surfaces flux))
         /\ forall tm, In tm Fl ->
                       exists i bc surf,
                         boundary_conditions s !! i = Some bc
                         /\ is_flux_bc dc bc = true
                         /\ In surf (surfaces bc)
                         /\ tm = (Mul (Neg (Test 0)) (BCForm i Temp (flux_solute s)),
                                  ds_sub surf))
  /\ expressions (create_H_fluxes dc s)
     = expressions s ++ concat (map sub_expressions flux)
  /\ (flux = [] -> create_H_fluxes dc s = s).
Proof.
  refine (conj _ (conj _ (conj eq_refl _))).
  - intros bc. unfold is_flux_bc.
    rewrite andb_true_iff, bool_decide_eq_true, negb_true_iff.
    rewrite <- not_true_iff_false, str_in_In. reflexivity.
  - eexists. split; [reflexivity|]. split.
    + apply length_concat_imap. intros i bc. unfold flux_terms.
      destruct (is_flux_bc dc bc); [apply length_map | reflexivity].
    + intros tm Hin. apply in_concat in Hin as (G & HG & Htm).
      apply list_elem_of_In, elem_of_lookup_imap_1 in HG as (i & bc & -> & Hi).
      unfold flux_terms in Htm. destruct (is_flux_bc dc bc) eqn:Hflux; [|destruct Htm].
      apply in_map_iff in Htm as (surf & <- & Hsurf).
      exists i, bc, surf. auto.
  - intros Hnone. unfold create_H_fluxes.
    assert (HF : concat (imap (flux_terms dc (flux_solute s)) (boundary_conditions s)) = []).
    { apply length_zero_iff_nil.
      etransitivity;
        [apply (length_concat_imap _ _ (is_flux_bc dc) surfaces)|].
      - intros i bc. unfold flux_terms.
        destruct (is_flux_bc dc bc); [apply length_map | reflexivity].
      - rewrite Hnone. reflexivity. }
    rewrite HF, Hnone. simpl. rewrite !app_nil_r. destruct s; reflexivity.
Qed.

(** *** A steady-state run that converges *)

Lemma write_derived_quantities_frame k l (s : Simulation fn) :
  exists tr, write_derived_quantities k l s = (tr, Ok tt, s).
Proof.
  revert k. induction l as [|export l IH]; intros k; simpl; [eexists; reflexivity|].
  destruct export; try apply IH.
  munfold. destruct (IH (S k)) as (tr & ->). eauto.
Qed.

Lemma known_label_same (s s' : Simulation fn) (l : label) :
  map id (traps s') = map id (traps s) -> known_label s' l <-> known_label s l.
Proof. intros H. unfold known_label. rewrite H. reflexivity. Qed.

(** X9.  A steady-state run whose solve converges returns an output, when
    every export names fields that exist and no derived quantities
    are computed every 0 iterations (the calls into the export
    objects are taken to return): the run solves once at [t = 0],
    does the post-processing, and ends with the solution of this
    solve and the retention built from it. *)
Theorem converged_steady_state_returns (fuel : nat) (s : Simulation fn) u' nb :
  transient (settings s) = false ->
  solve_once (set_t 0 s) = (u', nb, true) ->
  Forall (export_ready s) (exports s) ->
  Forall (error_ready s) (exports s) ->
  exists tr out s',
    run' fuel s
    = Some (Ev_print "Solving steady state problem..." :: Ev_solve_once nb true :: tr,
            Ok out, s')
    /\ u s' = u' /\ t s' = 0%Q /\ u_n s' = u_n s
    /\ out_solutions out !! "solute" = Some (mobile_field (chemical_pot s))
    /\ out_solutions out !! "retention" = Some (Project (py_sum (stored_fields s))).
Proof.
  intros Htransient Hsolve Hready Herr.
  set (s0 := set_u u' (set_t 0 s)).
  destruct (run_post_processing_ready s0) as (tr1 & s1 & Hpp).
  { exact Hready. }
  destruct (run_post_processing_frame _ _ _ _ Hpp) as ((x & Hs1) & _).
  destruct (write_derived_quantities_frame 0 (exports s1) s1) as (tr2 & Hwrite).
  destruct (make_output_ready s1) as (tr3 & out & Hout & _ & _ & Hsolute & Hret & _).
  { rewrite Hs1. simpl. eapply Forall_impl; [exact Herr|].
    intros [] H; simpl in *; auto.
    eapply known_label_same; [|exact H]. simpl.
    apply map_imap_invariant. reflexivity. }
  exists (tr1 ++ Ev_print "Solved problem" :: tr2 ++ Ev_print "\007" :: tr3), out,
    (update_post_processing_solutions s1).
  split.
  - unfold run. simpl. rewrite Htransient. f_equal.
    rewrite bind_run. unfold solve_steady_state.
    rewrite bind_run. unfold emit at 1.
    rewrite bind_run. unfold get at 1. rewrite Hsolve.
    rewrite bind_run. unfold modify at 1.
    rewrite bind_run. unfold emit at 1.
    rewrite bind_run. fold s0. rewrite Hpp. unfold emit at 1.
    unfold finish. rewrite bind_run. unfold get at 1.
    rewrite bind_run, Hwrite. rewrite bind_run. unfold emit at 1.
    rewrite Hout. simpl. rewrite <- !app_assoc. reflexivity.
  - rewrite Hs1 in *. simpl in *.
    refine (conj eq_refl (conj eq_refl (conj eq_refl (conj Hsolute _)))).
    rewrite Hret. unfold stored_fields. simpl.
    rewrite length_imap. reflexivity.
Qed.

End Simulation.

(** *** A steady-state run that diverges *)

(** One XDMF export of the mobile concentration; the solver gives up
    after three iterations. *)
Lemma diverged_steady_state_raises_witness :
  Samples.outcome
    (Samples.run_simulation 3 false 0
       (Samples.simulation false 0 1 [XDMFExport (LStr "solute")]))
  = Some ([Ev_print "Solving steady state problem..."; Ev_solve_once 3 false;
           Ev_assign_function 0 (LStr "solute") (SubFunction 0); Ev_write 0 0],
          Raise (ValueError "The solver diverged in 3 iteration(s)")).
Proof.
  unfold Samples.run_simulation.
  generalize (diverged_steady_state_raises
                (fun _ => tt) (fun _ => Ok tt)
                (fun s : Simulation unit => Ok (tt, dt s))
                (fun _ => (tt, 3%nat, false)) (fun _ _ => Ok tt) (fun _ => false)
                (fun _ _ => true) (fun _ _ => true) (fun s _ => dt s)
                (fun _ _ _ => 0%R) 0
                (Samples.simulation false 0 1 [XDMFExport (LStr "solute")])
                tt 3%nat eq_refl eq_refl).
  destruct (run_post_processing _ _ _ _ _) as [[tr r] s'] eqn:E.
  vm_compute in E. injection E as <- <- <-.
  intros ->. reflexivity.
Defined.

Lemma diverged_steady_state_returns_no_output :
  Samples.outcome
    (Samples.run_simulation 3 false 0
       (Samples.simulation false 0 1 [XDMFExport (LStr "solute")]))
  = Some ([Ev_print "Solving steady state problem..."; Ev_solve_once 3 false;
           Ev_assign_function 0 (LStr "solute") (SubFunction 0); Ev_write 0 0],
          Raise (ValueError "The solver diverged in 3 iteration(s)")).
Proof. vm_compute. reflexivity. Qed.

(** *** Time loops *)



(** *** The bookkeeping of the time loop *)

(** Four steps of size 3 up to the final time 10. *)
Lemma time_stepping_bookkeeping_witness :
  exists tr s',
    Samples.time_stepping_simulation 4 (Samples.simulation true 10 3 [])
    = Some (tr, Ok tt, s')
    /\ List.last (step_times tr) 0%Q = t s'
    /\ nb_iterations s' = length (step_times tr)
    /\ Qltb (t s') 10 = false.
Proof.
  unfold Samples.time_stepping_simulation.
  destruct (time_stepping _ _ _ _ _ _ _ _ 4 (Samples.simulation true 10 3 []))
    as [[[tr r] s']|] eqn:H.
  - pose proof H as H'. vm_compute in H'. injection H' as <- <- <-.
    apply time_stepping_bookkeeping in H as (Hlast & Hn & Hend & Hs & _).
    eexists _, _. split; [reflexivity|].
    split; [exact Hlast|]. split; [exact (eq_trans (eq_sym (Nat.add_0_r _)) Hn)|].
    rewrite Hs in Hend. exact (Hend eq_refl).
  - vm_compute in H. discriminate.
Defined.

(** *** Exports whose fields exist *)

Lemma sample_exports_ready (transient : bool) (final_time dt : Q) :
  Forall (export_ready (TrapSamples.simulation transient final_time dt))
         TrapSamples.sample_exports.
Proof.
  unfold TrapSamples.sample_exports.
  repeat apply Forall_cons_2; try apply Forall_nil_2; simpl.
  - right. exists 2%Z. split; [simpl; auto | right; reflexivity].
  - split; [discriminate|].
    repeat apply Forall_cons_2; try apply Forall_nil_2; simpl.
    + right. exists 1%Z. split; [simpl; auto | left; reflexivity].
    + left. simpl. auto 10.
  - exact I.
  - left. simpl. auto 10.
Qed.

Lemma sample_errors_ready (transient : bool) (final_time dt : Q) :
  Forall (error_ready (TrapSamples.simulation transient final_time dt))
         TrapSamples.sample_exports.
Proof.
  unfold TrapSamples.sample_exports.
  repeat apply Forall_cons_2; try apply Forall_nil_2; simpl; try exact I.
  left. simpl. auto 10.
Qed.

Lemma run_post_processing_succeeds_witness :
  exists tr s',
    run_post_processing (fun _ => false) (fun _ _ => true) (fun _ _ => true)
                        (fun (s : Simulation unit) _ => dt s)
                        (TrapSamples.simulation true 10 3)
    = (tr, Ok tt, s').
Proof.
  apply (run_post_processing_succeeds
           (fun _ => false) (fun _ _ => true) (fun _ _ => true)
           (fun (s : Simulation unit) _ => dt s) (TrapSamples.simulation true 10 3)).
  apply sample_exports_ready.
Defined.

Lemma make_output_succeeds_witness :
  exists tr out,
    make_output (fun _ _ _ => 0%R) (TrapSamples.simulation true 10 3)
    = (tr, Ok out, update_post_processing_solutions (TrapSamples.simulation true 10 3))
    /\ (exists e, out_error out = Some [e])
    /\ out_solutions out !! "solute" = Some (Project (Mul (SubFunction 0) Solubility))
    /\ is_Some (out_solutions out !! "trap_2")
    /\ out_solutions out !! "trap_3" = None.
Proof.
  destruct (make_output_succeeds (fun _ _ _ => 0%R) (TrapSamples.simulation true 10 3))
    as (tr & out & Hout & Herr & _ & Hsolute & _ & Hkeys).
  { apply sample_errors_ready. }
  exists tr, out. split; [exact Hout|]. split; [|split; [exact Hsolute|split]].
  - destruct (out_error out) as [errs|].
    + destruct Herr as [_ Hlen]. simpl in Hlen.
      destruct errs as [|e [|e' errs]]; try discriminate. eauto.
    + simpl in Herr. discriminate.
  - apply Hkeys. right. exists 2%Z. split; [simpl; auto | reflexivity].
  - apply eq_None_not_Some. intros H. apply Hkeys in H as [H|(i & Hi & Hkey)].
    + simpl in H. intuition discriminate.
    + simpl in Hi. destruct Hi as [<-|[<-|[]]]; vm_compute in Hkey; discriminate.
Defined.

(** *** A steady-state run that converges *)

Lemma converged_steady_state_returns_witness :
  exists tr out s',
    Samples.run_simulation 2 true 0 (TrapSamples.simulation false 0 1)
    = Some (Ev_print "Solving steady state problem..." :: Ev_solve_once 2 true :: tr,
            Ok out, s')
    /\ out_solutions out !! "solute" = Some (Project (Mul (SubFunction 0) Solubility)).
Proof.
  destruct (converged_steady_state_returns
              (fun _ => tt) (fun _ => Ok tt)
              (fun s : Simulation unit => Ok (tt, dt s))
              (fun _ => (tt, 2%nat, true)) (fun _ _ => Ok tt) (fun _ => false)
              (fun _ _ => true) (fun _ _ => true) (fun s _ => dt s)
              (fun _ _ _ => 0%R) 0
              (TrapSamples.simulation false 0 1) tt 2%nat eq_refl eq_refl
              (sample_exports_ready _ _ _) (sample_errors_ready _ _ _))
    as (tr & out & s' & Hrun & _ & _ & _ & Hsolute & _).
  exists tr, out, s'. split; [exact Hrun | exact Hsolute].
Defined.

End GenericSimulationFacts.
(** ** festim/hydrogen_transport_problem.py: the loop of [run] *)

Module HydrogenTransportRunFacts.
Import HydrogenTransport.
Local Open Scope list_scope.

#[local] Arguments t {fn} _.
#[local] Arguments u {fn} _.
#[local] Arguments u_n {fn} _.
#[local] Arguments times {fn} _.
#[local] Arguments flux_values {fn} _.
#[local] Arguments flux_values_1 {fn} _.
#[local] Arguments flux_values_2 {fn} _.

Section Run.
Context {fn : Type}.
Variable solve : Q -> fn -> fn -> result fn.
Variable surface_flux : nat -> fn -> R.
Variable nb_species : nat.
Variable dt final_time : Q.

Abbreviation run_step' := (run_step fn solve surface_flux nb_species dt).
Abbreviation run_loop' := (fun fuel => run_loop fn solve surface_flux fuel nb_species dt final_time).

Hypothesis Hsolve : forall t u_n u, exists u', solve t u_n u = Ok u'.
Hypothesis Hspecies : nb_species = 1%nat \/ nb_species = 2%nat.

(** The time after [k] steps. *)
Definition step_time (k : nat) : Q := inject_Z (Z.of_nat k) * dt.

(** The lists of fluxes hold one value for each time. *)
Definition recorded (st : run_state fn) (k : nat) : Prop :=
  length (times st) = k
  /\ (if (nb_species =? 2)%nat
      then length (flux_values_1 st) = k /\ length (flux_values_2 st) = k
      else length (flux_values st) = k).

Lemma step_time_succ (k : nat) : (step_time (S k) == step_time k + dt)%Q.
Proof.
  unfold step_time. rewrite Nat2Z.inj_succ. unfold Z.succ.
  rewrite inject_Z_plus. ring.
Qed.

Lemma run_step_spec (st : run_state fn) (k : nat) :
  (t st == step_time k)%Q -> recorded st k ->
  exists st', run_step' st = Ok st'
              /\ t st' = (t st + dt)%Q
              /\ times st' = times st ++ [t st']
              /\ recorded st' (S k).
Proof.
  unfold recorded. intros Ht (Hlen & Hfl). unfold run_step.
  destruct (Hsolve (t st + dt)%Q (u_n st) (u st)) as (u' & ->). simpl.
  destruct Hspecies as [H | H]; rewrite H in *; simpl in *;
    eexists; (split; [reflexivity|]); simpl;
    (split; [reflexivity|]); (split; [reflexivity|]);
    rewrite ?length_app; simpl.
  - split; lia.
  - destruct Hfl. repeat split; lia.
Qed.

Lemma run_loop_from (m : nat) :
  forall (k : nat) (st : run_state fn),
    (t st == step_time k)%Q -> recorded st k ->
    (final_time <= step_time (k + m))%Q ->
    (forall j, (j < k)%nat -> (step_time j < final_time)%Q) ->
    exists n st' new,
      run_loop' m st = Some (Ok st')
      /\ (k <= n)%nat
      /\ (final_time <= step_time n)%Q
      /\ (forall j, (j < n)%nat -> (step_time j < final_time)%Q)
      /\ times st' = times st ++ new
      /\ Forall2 (fun x j => (x == step_time j)%Q) new (seq (S k) (n - k))
      /\ recorded st' n.
Proof.
  induction m as [|m IH]; intros k st Ht Hrec Hfuel Hbefore.
  - exists k, st, []. rewrite Nat.add_0_r in Hfuel.
    assert (Hstop : Qltb (t st) final_time = false).
    { apply GenericSimulationFacts.Qltb_false. rewrite Ht. exact Hfuel. }
    simpl. rewrite Hstop, Nat.sub_diag, app_nil_r.
    refine (conj eq_refl (conj (le_n k) (conj Hfuel (conj Hbefore (conj eq_refl
             (conj _ Hrec)))))). constructor.
  - destruct (Qltb (t st) final_time) eqn:Hloop.
    2:{ exists k, st, []. simpl. rewrite Hloop, Nat.sub_diag, app_nil_r.
        apply GenericSimulationFacts.Qltb_false in Hloop. rewrite Ht in Hloop.
        refine (conj eq_refl (conj (le_n k) (conj Hloop (conj Hbefore (conj eq_refl
                 (conj _ Hrec)))))). constructor. }
    pose proof Hloop as Hcontinue.
    apply GenericSimulationFacts.Qltb_true in Hloop. rewrite Ht in Hloop.
    destruct (run_step_spec st k Ht Hrec) as (st1 & Hstep & Ht1 & Htimes1 & Hrec1).
    destruct (IH (S k) st1) as (n & st' & new & Hrun & Hkn & Hend & Hleast & Htimes & Hnew & Hrec').
    { rewrite Ht1, Ht, step_time_succ. reflexivity. }
    { exact Hrec1. }
    { replace (S k + m)%nat with (k + S m)%nat by lia. exact Hfuel. }
    { intros j Hj. destruct (Nat.eq_dec j k) as [->|Hne]; [exact Hloop|].
      apply Hbefore. lia. }
    exists n, st', (t st1 :: new).
    split; [simpl; rewrite Hcontinue, Hstep; exact Hrun|].
    split; [lia|]. split; [exact Hend|]. split; [exact Hleast|].
    split; [rewrite Htimes, Htimes1, <- app_assoc; reflexivity|].
    split; [|exact Hrec'].
    replace (n - k)%nat with (S (n - S k)) by lia. simpl. constructor; [|exact Hnew].
    rewrite Ht1, Ht, step_time_succ. reflexivity.
Qed.

Lemma enough_steps : (0 < dt)%Q -> exists m : nat, (final_time <= step_time m)%Q.
Proof.
  intros Hdt. exists (Z.to_nat (Qceiling (final_time / dt))). unfold step_time.
  assert (Hc : (final_time / dt <= inject_Z (Z.of_nat (Z.to_nat (Qceiling (final_time / dt)))))%Q).
  { eapply Qle_trans; [apply Qle_ceiling|]. rewrite <- Zle_Qle. lia. }
  apply (Qmult_le_compat_r _ _ dt) in Hc; [|apply Qlt_le_weak, Hdt].
  eapply Qle_trans; [|exact Hc].
  unfold Qdiv. rewrite <- Qmult_assoc, (Qmult_comm (/ dt)), Qmult_inv_r.
  - rewrite Qmult_1_r. apply Qle_refl.
  - intros H0. rewrite H0 in Hdt. discriminate.
Qed.


End Run.


End HydrogenTransportRunFacts.
(** ** post_processing.py: [derived_quantities] *)

Module DerivedQuantitiesFacts.
Import PostProcessing PyIndex DerivedQuantities PyFacts.
Local Open Scope list_scope.

Lemma bind_Return {A B} (m : outcome A) (f : A -> outcome B) (b : B) :
  m ≫= f = Return b <-> exists a, m = Return a /\ f a = Return b.
Proof.
  destruct m as [a|e]; simpl; split.
  - eauto.
  - intros (a' & [= <-] & H). exact H.
  - discriminate.
  - intros (a' & H & _). discriminate.
Qed.

Lemma throws_false {A} (r : outcome A) : throws r = false <-> exists a, r = Return a.
Proof.
  destruct r as [a|e]; simpl; split; intros H; eauto; try discriminate.
  destruct H as [a H]. discriminate.
Qed.

Lemma throws_bind {A B} (m : outcome A) (f : A -> outcome B) :
  throws (m ≫= f) = false <-> exists a, m = Return a /\ throws (f a) = false.
Proof.
  destruct m as [a|e]; simpl; split.
  - eauto.
  - intros (a' & [= <-] & H). exact H.
  - discriminate.
  - intros (a' & H & _). discriminate.
Qed.

Lemma list_getitem_throws {A} (l : list A) (i : Z) :
  throws (list_getitem l i) = false
  <-> (- Z.of_nat (length l) <= i < Z.of_nat (length l))%Z.
Proof.
  unfold list_getitem.
  destruct (i <? 0)%Z eqn:Hi; [apply Z.ltb_lt in Hi | apply Z.ltb_ge in Hi].
  - destruct (i + Z.of_nat (length l) <? 0)%Z eqn:Hj;
      [apply Z.ltb_lt in Hj | apply Z.ltb_ge in Hj].
    + simpl. split; [discriminate | lia].
    + destruct (lookup_lt_is_Some_2 l (Z.to_nat (i + Z.of_nat (length l)))) as [x ->];
        [lia|]. simpl. split; [lia | reflexivity].
  - destruct (i <? 0)%Z eqn:Hj; [apply Z.ltb_lt in Hj; lia|].
    destruct (l !! Z.to_nat i) as [x|] eqn:Hx; simpl.
    + apply lookup_lt_Some in Hx. split; [lia | reflexivity].
    + apply lookup_ge_None in Hx. split; [discriminate | lia].
Qed.

Section DerivedQuantities.
Context {A Pr Mk : Type}.
Variable is_Expression : A -> bool.
Variable interpolate : A -> A.

Abbreviation quantity := (@quantity A Pr).

(** *** The keys of [field_to_sol] *)

Lemma fold_solutions_is_Some (solutions : list A) (l : list nat) (d : gmap string A)
      (key : string) :
  (forall i, In i l -> (i < length solutions)%nat) ->
  is_Some (fold_left (fun d i =>
                        match solutions !! i with
                        | Some x => <[pretty (Z.of_nat i) := x]> d
                        | None => d
                        end) l d !! key)
  <-> is_Some (d !! key) \/ exists i, In i l /\ key = pretty (Z.of_nat i).
Proof.
  revert d. induction l as [|i l IH]; intros d Hl; simpl.
  - split; [auto | intros [H|(i & [] & _)]; exact H].
  - rewrite IH by (intros j Hj; apply Hl; right; exact Hj).
    destruct (lookup_lt_is_Some_2 solutions i) as [x ->]; [apply Hl; left; reflexivity|].
    rewrite lookup_insert_is_Some'. split.
    + intros [[<-|H]|(j & Hj & ->)]; eauto.
    + intros [H|(j & [<-|Hj] & ->)]; eauto.
Qed.

Lemma field_to_sol_keys (solutions : list A) (s0 ret T : A) (key : string) :
  is_Some (field_to_sol is_Expression interpolate solutions s0 ret T !! key)
  <-> has_solution (length solutions) key = true.
Proof.
  unfold field_to_sol, has_solution.
  rewrite lookup_fmap, fmap_is_Some, fold_solutions_is_Some.
  - rewrite !lookup_insert_is_Some', lookup_empty, orb_true_iff, str_in_In,
      existsb_exists.
    simpl. split.
    + intros [[<-|[<-|[<-|H]]]|(i & Hi & ->)]; auto 6.
      * exfalso. eapply is_Some_None, H.
      * right. exists i. split; [exact Hi | apply String.eqb_refl].
    + intros [[<-|[<-|[<-|[]]]]|(i & Hi & Heq)]; auto 6.
      apply String.eqb_eq in Heq. eauto.
  - intros i Hi. apply in_seq in Hi. lia.
Qed.

Lemma dict_getitem_throws {V} (d : gmap string V) (key : string) :
  throws (dict_getitem d key) = false <-> is_Some (d !! key).
Proof.
  unfold dict_getitem. destruct (d !! key); simpl; split; eauto; try discriminate.
  intros H. exfalso. eapply is_Some_None, H.
Qed.

(** *** The loops over the entries *)

Lemma for_entries_throws (body : dq_item -> outcome (list quantity)) (l : list dq_item) :
  throws (for_entries body l) = false
  <-> forallb (fun f => negb (throws (body f))) l = true.
Proof.
  induction l as [|f l IH]; simpl; [split; reflexivity|].
  rewrite throws_bind, andb_true_iff, negb_true_iff, <- IH. split.
  - intros (q & Hq & H). rewrite Hq. split; [reflexivity|].
    apply throws_bind in H as (q' & -> & _). reflexivity.
  - intros [Hf Hl]. apply throws_false in Hf as [q Hq]. exists q. split; [exact Hq|].
    apply throws_false in Hl as [q' ->]. reflexivity.
Qed.

Lemma for_entries_length (body : dq_item -> outcome (list quantity))
      (count : dq_item -> nat) (l : list dq_item) (tab : list quantity) :
  (forall f q, body f = Return q -> length q = count f) ->
  for_entries body l = Return tab ->
  length tab = list_sum (map count l).
Proof.
  intros Hbody. revert tab. induction l as [|f l IH]; intros tab; simpl.
  - intros [= <-]. reflexivity.
  - intros H. apply bind_Return in H as (q & Hq & H).
    apply bind_Return in H as (q' & Hq' & [= <-]).
    rewrite length_app, (Hbody _ _ Hq), (IH _ Hq'). reflexivity.
Qed.

Lemma block_throws (d : list (string * dq_value)) (key : string)
      (body : dq_item -> outcome (list quantity)) (ok : dq_item -> bool) :
  (forall f, throws (body f) = false <-> ok f = true) ->
  throws (block d key body) = false <-> block_ready d key ok = true.
Proof.
  intros Hbody. unfold block, block_ready.
  destruct (dict_get d key) as [[l|[|c s]]|]; simpl; try (split; reflexivity);
    try (split; discriminate).
  rewrite for_entries_throws. rewrite !forallb_forall.
  split; intros H f Hf.
  - apply Hbody. specialize (H f Hf). apply negb_true_iff in H. exact H.
  - apply negb_true_iff, Hbody, H, Hf.
Qed.


(** *** When the body of each loop returns *)

Lemma has_solution_flux (n : nat) (key : string) :
  str_in key ["solute"; "T"] = true -> has_solution n key = true.
Proof.
  intros H. unfold has_solution. apply orb_true_iff. left.
  apply str_in_In. apply str_in_In in H. simpl in *. intuition.
Qed.

Lemma field_to_prop_keys (D thermal_cond : Pr) (key : string) :
  is_Some ((<["T" := thermal_cond]> (<["solute" := D]> ∅) : gmap string Pr) !! key)
  <-> str_in key ["solute"; "T"] = true.
Proof.
  rewrite !lookup_insert_is_Some', lookup_empty, str_in_In. simpl. split.
  - intros [<-|[<-|H]]; auto. exfalso. eapply is_Some_None, H.
  - intros [<-|[<-|[]]]; auto.
Qed.

Section Bodies.
Variable solutions : list A.
Variables s0 ret T : A.
Variables D thermal_cond : Pr.

Let fts := field_to_sol is_Expression interpolate solutions s0 ret T.
Let ftp : gmap string Pr := <["T" := thermal_cond]> (<["solute" := D]> ∅).

Lemma flux_body_throws (f : dq_item) (mk : Pr -> A -> string -> Z -> quantity) :
  throws (key ← field_key f;
          sol ← dict_getitem fts key;
          prop ← dict_getitem ftp key;
          surfs ← item_surfaces f;
          Return (map (mk prop sol key) surfs)) = false
  <-> flux_ready f = true.
Proof.
  unfold flux_ready, field_key, item_surfaces.
  destruct (field f) as [fld|]; [|split; discriminate].
  set (key := str_of_field fld).
  pose proof (field_to_sol_keys solutions s0 ret T key) as Hsol.
  pose proof (field_to_prop_keys D thermal_cond key) as Hprop.
  pose proof (has_solution_flux (length solutions) key) as Hflux.
  fold fts in Hsol. fold ftp in Hprop.
  destruct (str_in key ["solute"; "T"]) eqn:Hin.
  - destruct (proj2 Hprop eq_refl) as [prop Hp].
    destruct (proj2 Hsol (Hflux eq_refl)) as [sol Hs].
    unfold mbind, outcome_bind, dict_getitem. rewrite Hs, Hp.
    destruct (surfaces f); split; auto; discriminate.
  - assert (Hp : ftp !! key = None).
    { apply eq_None_not_Some. intros H. apply Hprop in H. discriminate. }
    unfold mbind, outcome_bind, dict_getitem. rewrite Hp.
    destruct (fts !! key); destruct (surfaces f); split; discriminate.
Qed.

Lemma surface_body_throws (f : dq_item) (mk : A -> Z -> quantity) :
  throws (key ← field_key f;
          sol ← dict_getitem fts key;
          surfs ← item_surfaces f;
          Return (map (mk sol) surfs)) = false
  <-> surface_ready (length solutions) f = true.
Proof.
  unfold surface_ready, field_key, item_surfaces.
  destruct (field f) as [fld|]; simpl; [|split; discriminate].
  pose proof (field_to_sol_keys solutions s0 ret T (str_of_field fld)) as Hsol.
  fold fts in Hsol. unfold dict_getitem.
  destruct (fts !! str_of_field fld) as [sol|]; simpl.
  - destruct (surfaces f); simpl; [|split; discriminate].
    rewrite <- Hsol. split; eauto.
  - destruct (surfaces f); [|split; discriminate].
    rewrite <- Hsol. split; [discriminate|]. intros H. exfalso. eapply is_Some_None, H.
Qed.

Lemma volume_body_throws (f : dq_item) (mk : A -> Z -> quantity) :
  throws (key ← field_key f;
          sol ← dict_getitem fts key;
          vols ← item_volumes f;
          Return (map (mk sol) vols)) = false
  <-> volume_ready (length solutions) f = true.
Proof.
  unfold volume_ready, field_key, item_volumes.
  destruct (field f) as [fld|]; simpl; [|split; discriminate].
  pose proof (field_to_sol_keys solutions s0 ret T (str_of_field fld)) as Hsol.
  fold fts in Hsol. unfold dict_getitem.
  destruct (fts !! str_of_field fld) as [sol|]; simpl.
  - destruct (volumes f); simpl; [|split; discriminate].
    rewrite <- Hsol. split; eauto.
  - destruct (volumes f); [|split; discriminate].
    rewrite <- Hsol. split; [discriminate|]. intros H. exfalso. eapply is_Some_None, H.
Qed.

Lemma extremum_body_throws (f : dq_item) (mk : A -> Z -> quantity)
      (of_retention : Z -> quantity) :
  throws (key ← field_key f;
          if String.eqb key "retention" then
            vols ← item_volumes f;
            Return (map of_retention vols)
          else
            sol ← dict_getitem fts key;
            vols ← item_volumes f;
            Return (map (mk sol) vols)) = false
  <-> volume_ready (length solutions) f = true.
Proof.
  destruct (field f) as [fld|] eqn:Hfld.
  - destruct (String.eqb (str_of_field fld) "retention") eqn:Hret.
    + unfold field_key, volume_ready. rewrite Hfld. simpl. rewrite Hret.
      apply String.eqb_eq in Hret. rewrite Hret.
      unfold item_volumes. destruct (volumes f); simpl; split; auto; discriminate.
    + rewrite <- (volume_body_throws f mk).
      unfold field_key. rewrite Hfld. simpl. rewrite Hret. reflexivity.
  - unfold field_key, volume_ready. rewrite Hfld. simpl. split; discriminate.
Qed.

End Bodies.

Lemma list_getitem_Return {X} (l : list X) (i : Z) :
  (- Z.of_nat (length l) <= i < Z.of_nat (length l))%Z ->
  exists x, list_getitem l i = Return x.
Proof. intros H. apply throws_false, list_getitem_throws, H. Qed.

Lemma list_getitem_Throw {X} (l : list X) (i : Z) :
  ~ (- Z.of_nat (length l) <= i < Z.of_nat (length l))%Z ->
  throws (list_getitem l i) = true.
Proof.
  intros H. destruct (throws (list_getitem l i)) eqn:E; [reflexivity|].
  apply list_getitem_throws in E. contradiction.
Qed.

Lemma throws_bind_Throw {X Y} (m : outcome X) (f : X -> outcome Y) :
  throws m = true -> throws (m ≫= f) = true.
Proof. destruct m; [discriminate | reflexivity]. Qed.

Lemma derived_quantities_ready soret d (solutions : list A) (markers : list Mk)
      (properties : list Pr) :
  throws (derived_quantities is_Expression interpolate soret d solutions markers
                             properties) = false
  <-> ((if soret_is_True soret then 3 else 2) <= length properties)%nat
      /\ (2 <= length markers)%nat
      /\ solutions <> []
      /\ ready d (length solutions) = true.
Proof.
  unfold derived_quantities.
  destruct (Nat.le_gt_cases 1 (length properties)) as [H0|H0].
  2:{ rewrite throws_bind_Throw by (apply list_getitem_Throw; lia).
      split; [discriminate|]. destruct (soret_is_True soret); lia. }
  destruct (list_getitem_Return properties 0) as [D ->]; [lia|]. simpl.
  destruct (Nat.le_gt_cases 2 (length properties)) as [H1|H1].
  2:{ rewrite throws_bind_Throw by (apply list_getitem_Throw; lia).
      split; [discriminate|]. destruct (soret_is_True soret); lia. }
  destruct (list_getitem_Return properties 1) as [tc ->]; [lia|]. simpl.
  assert (HQ : (exists Q, (if soret_is_True soret
                           then Some <$> list_getitem properties 2
                           else Return None) = Return Q)
               \/ (throws (if soret_is_True soret
                           then Some <$> list_getitem properties 2
                           else Return None) = true
                   /\ soret_is_True soret = true /\ (length properties < 3)%nat)).
  { destruct (soret_is_True soret); [|left; eauto].
    destruct (Nat.le_gt_cases 3 (length properties)) as [H2|H2].
    - destruct (list_getitem_Return properties 2) as [Q ->]; [lia|]. left. simpl. eauto.
    - right. repeat split; auto.
      pose proof (list_getitem_Throw properties 2) as H.
      destruct (list_getitem properties 2); [|reflexivity].
      simpl in H. apply H. lia. }
  destruct HQ as [[Q HQ]|(HQ & Hs & Hlen)].
  2:{ rewrite throws_bind_Throw by exact HQ. rewrite Hs.
      split; [discriminate | lia]. }
  assert (Hprops : ((if soret_is_True soret then 3 else 2) <= length properties)%nat).
  { destruct (soret_is_True soret); [|exact H1].
    destruct (Nat.le_gt_cases 3 (length properties)) as [H2|H2]; [exact H2|].
    exfalso. pose proof (list_getitem_Throw properties 2) as H.
    destruct (list_getitem properties 2); [|discriminate].
    simpl in H. assert (false = true) by (apply H; lia). discriminate. }
  rewrite HQ. simpl.
  destruct (Nat.le_gt_cases 1 (length markers)) as [M0|M0].
  2:{ rewrite throws_bind_Throw by (apply list_getitem_Throw; lia).
      split; [discriminate | lia]. }
  destruct (list_getitem_Return markers 0) as [m0 ->]; [lia|]. simpl.
  destruct (Nat.le_gt_cases 2 (length markers)) as [M1|M1].
  2:{ rewrite throws_bind_Throw by (apply list_getitem_Throw; lia).
      split; [discriminate | lia]. }
  destruct (list_getitem_Return markers 1) as [m1 ->]; [lia|]. simpl.
  destruct solutions as [|x sols] eqn:Hsols.
  { simpl. split; [discriminate | intros (_ & _ & H & _); congruence]. }
  rewrite <- Hsols.
  assert (Hlen : (1 <= length solutions)%nat) by (rewrite Hsols; simpl; lia).
  destruct (list_getitem_Return solutions 0) as [s0 ->]; [lia|]. simpl.
  destruct (list_getitem_Return solutions (Z.of_nat (length solutions) - 2))
    as [ret ->]; [lia|]. simpl.
  destruct (list_getitem_Return solutions (Z.of_nat (length solutions) - 1))
    as [T ->]; [lia|]. simpl.
  assert (B1 := block_throws d "surface_flux" _ flux_ready
                  (fun f => flux_body_throws solutions s0 ret T D tc f
                              (fun prop sol key surf =>
                                 QSurfaceFlux prop sol surf
                                   (match Q with
                                    | Some q => if String.eqb key "solute"
                                                then Some (q, T) else None
                                    | None => None
                                    end)))).
  assert (B2 := block_throws d "average_volume" _ (volume_ready (length solutions))
                  (fun f => volume_body_throws solutions s0 ret T f QAverageVolume)).
  assert (B3 := block_throws d "minimum_volume" _ (volume_ready (length solutions))
                  (fun f => extremum_body_throws solutions s0 ret T f QMinimumVolume
                              (QMinimumRetention (take (length solutions - 2) solutions)))).
  assert (B4 := block_throws d "maximum_volume" _ (volume_ready (length solutions))
                  (fun f => extremum_body_throws solutions s0 ret T f QMaximumVolume
                              (QMaximumRetention (take (length solutions - 2) solutions)))).
  assert (B5 := block_throws d "total_volume" _ (volume_ready (length solutions))
                  (fun f => volume_body_throws solutions s0 ret T f QTotalVolume)).
  assert (B6 := block_throws d "total_surface" _ (surface_ready (length solutions))
                  (fun f => surface_body_throws solutions s0 ret T f QTotalSurface)).
  cbv beta in B1.
  unfold ready. rewrite !andb_true_iff, <- B1, <- B2, <- B3, <- B4, <- B5, <- B6.
  clear B1 B2 B3 B4 B5 B6.
  destruct (block d "surface_flux" _); simpl;
    [|split; [discriminate | intros (_ & _ & _ & H); intuition discriminate]].
  destruct (block d "average_volume" _); simpl;
    [|split; [discriminate | intros (_ & _ & _ & H); intuition discriminate]].
  destruct (block d "minimum_volume" _); simpl;
    [|split; [discriminate | intros (_ & _ & _ & H); intuition discriminate]].
  destruct (block d "maximum_volume" _); simpl;
    [|split; [discriminate | intros (_ & _ & _ & H); intuition discriminate]].
  destruct (block d "total_volume" _); simpl;
    [|split; [discriminate | intros (_ & _ & _ & H); intuition discriminate]].
  destruct (block d "total_surface" _); simpl;
    [|split; [discriminate | intros (_ & _ & _ & H); intuition discriminate]].
  split; [intros _ | reflexivity].
  repeat split; auto. congruence.
Qed.



(** *** Fields that the validation accepts and that have no solution *)

Lemma pretty_Z_of_nat_0 (i : nat) : "0" = pretty (Z.of_nat i) -> i = 0%nat.
Proof.
  intros H. change "0" with (pretty 0%Z) in H.
  apply (inj pretty) in H. lia.
Qed.

Lemma has_solution_0 (n : nat) : has_solution n "0" = false.
Proof.
  unfold has_solution. apply orb_false_iff. split; [reflexivity|].
  apply not_true_iff_false. intros H. apply existsb_exists in H as (i & Hi & Heq).
  apply String.eqb_eq, pretty_Z_of_nat_0 in Heq. apply in_seq in Hi. lia.
Qed.

Lemma block_ready_In d key ok l f :
  dict_get d key = Some (DQItems l) -> In f l -> ok f = false ->
  block_ready d key ok = false.
Proof.
  intros Hd Hf Hok. unfold block_ready. rewrite Hd.
  apply not_true_iff_false. intros H. rewrite forallb_forall in H.
  rewrite (H f Hf) in Hok. discriminate.
Qed.

Lemma not_ready_throws soret d (solutions : list A) (markers : list Mk)
      (properties : list Pr) :
  ready d (length solutions) = false ->
  throws (derived_quantities is_Expression interpolate soret d solutions markers
                             properties) = true.
Proof.
  intros Hready. apply not_false_iff_true. intros H.
  apply derived_quantities_ready in H as (_ & _ & _ & H). congruence.
Qed.

(** X11.  The validation accepts the field [0] and the field ["0"] whatever
    the number of traps, but [field_to_sol] has no key ["0"]: a
    derived quantity of any kind on this field makes
    [derived_quantities] raise. *)
Theorem field_zero_accepted_but_unavailable
        (field_types : list string) (nb_traps : nat)
        soret d key l f fld (solutions : list A) (markers : list Mk)
        (properties : list Pr) :
  In key ["surface_flux"; "average_volume"; "minimum_volume"; "maximum_volume";
          "total_volume"; "total_surface"] ->
  dict_get d key = Some (DQItems l) ->
  In f l ->
  field f = Some fld ->
  fld = FInt 0 \/ fld = FStr "0" ->
  check_field field_types (Z.of_nat nb_traps) fld = Ok tt
  /\ throws (derived_quantities is_Expression interpolate soret d solutions markers
                                properties) = true.
Proof.
  intros Hkey Hd Hf Hfld Hzero. split.
  - destruct Hzero as [-> | ->]; simpl.
    + destruct (0 >? Z.of_nat nb_traps)%Z eqn:E; [|reflexivity].
      apply Z.gtb_lt in E. lia.
    + destruct (str_in "0" field_types); [reflexivity|]. simpl.
      change (int_of_str "0") with 0%Z.
      destruct (0 >? Z.of_nat nb_traps)%Z eqn:E; [|reflexivity].
      apply Z.gtb_lt in E. lia.
  - apply not_ready_throws.
    assert (Hstr : str_of_field fld = "0") by (destruct Hzero as [-> | ->]; reflexivity).
    assert (Hflux : flux_ready f = false).
    { unfold flux_ready. rewrite Hfld, Hstr. destruct (surfaces f); reflexivity. }
    assert (Hvol : volume_ready (length solutions) f = false).
    { unfold volume_ready. rewrite Hfld, Hstr, has_solution_0.
      destruct (volumes f); reflexivity. }
    assert (Hsurf : surface_ready (length solutions) f = false).
    { unfold surface_ready. rewrite Hfld, Hstr, has_solution_0.
      destruct (surfaces f); reflexivity. }
    unfold ready.
    destruct Hkey as [<-|[<-|[<-|[<-|[<-|[<-|[]]]]]]].
    + rewrite (block_ready_In _ _ _ _ _ Hd Hf Hflux). reflexivity.
    + rewrite (block_ready_In _ _ _ _ _ Hd Hf Hvol), !andb_false_r. reflexivity.
    + rewrite (block_ready_In _ _ _ _ _ Hd Hf Hvol), !andb_false_r. reflexivity.
    + rewrite (block_ready_In _ _ _ _ _ Hd Hf Hvol), !andb_false_r. reflexivity.
    + rewrite (block_ready_In _ _ _ _ _ Hd Hf Hvol), !andb_false_r. reflexivity.
    + rewrite (block_ready_In _ _ _ _ _ Hd Hf Hsurf), !andb_false_r. reflexivity.
Qed.

(** X12.  A surface flux is computed for the fields ['solute'] and ['T']
    only, the keys of [field_to_prop]: an entry of ["surface_flux"]
    on another field, the retention or a trap, makes
    [derived_quantities] raise. *)
Theorem surface_flux_needs_solute_or_T
        soret d l f fld (solutions : list A) (markers : list Mk)
        (properties : list Pr) :
  dict_get d "surface_flux" = Some (DQItems l) ->
  In f l ->
  field f = Some fld ->
  str_of_field fld <> "solute" ->
  str_of_field fld <> "T" ->
  throws (derived_quantities is_Expression interpolate soret d solutions markers
                             properties) = true.
Proof.
  intros Hd Hf Hfld Hsolute HT. apply not_ready_throws.
  unfold ready. rewrite (block_ready_In _ _ flux_ready _ _ Hd Hf); [reflexivity|].
  unfold flux_ready. rewrite Hfld. destruct (surfaces f); [|reflexivity].
  apply not_true_iff_false. intros H. apply str_in_In in H.
  simpl in H. intuition.
Qed.

(** *** The row and the header *)

Definition targets (on_surfaces : bool) (f : dq_item) : list Z :=
  default [] (if on_surfaces then surfaces f else volumes f).

Lemma bind_Ok {X Y} (m : result X) (f : X -> result Y) (b : Y) :
  m ≫= f = Ok b <-> exists a, m = Ok a /\ f a = Ok b.
Proof.
  destruct m as [a|e]; simpl; split.
  - eauto.
  - intros (a' & [= <-] & H). exact H.
  - discriminate.
  - intros (a' & H & _). discriminate.
Qed.

Lemma header_cells_length on_surfaces cell f h :
  header_cells on_surfaces cell f = Ok h ->
  length h = length (targets on_surfaces f).
Proof.
  unfold header_cells, targets.
  destruct (if on_surfaces then surfaces f else volumes f) as [[|x l]|];
    simpl; try discriminate.
  - intros [= <-]. reflexivity.
  - destruct (field f); [|discriminate]. intros [= <-]. simpl.
    rewrite length_map. reflexivity.
Qed.

Lemma header_entries_length on_surfaces cell l h :
  header_entries on_surfaces cell l = Ok h ->
  length h = list_sum (map (fun f => length (targets on_surfaces f)) l).
Proof.
  revert h. induction l as [|f l IH]; intros h; simpl.
  - intros [= <-]. reflexivity.
  - intros H. apply bind_Ok in H as (h1 & H1 & H).
    apply bind_Ok in H as (h2 & H2 & [= <-]).
    rewrite length_app, (header_cells_length _ _ _ _ H1), (IH _ H2). reflexivity.
Qed.

Lemma block_length d key on_surfaces cell body h (tab : list quantity) :
  (forall f q, body f = Return q -> length q = length (targets on_surfaces f)) ->
  header_block d key on_surfaces cell = Ok h ->
  block d key body = Return tab ->
  length h = length tab.
Proof.
  intros Hbody. unfold header_block, block.
  destruct (dict_get d key) as [[l|[|c s]]|]; try discriminate.
  - intros Hh Ht. rewrite (header_entries_length _ _ _ _ Hh).
    symmetry. eapply for_entries_length; [exact Hbody | exact Ht].
  - intros [= <-] [= <-]. reflexivity.
  - intros [= <-] [= <-]. reflexivity.
Qed.

Lemma item_surfaces_targets f surfs :
  item_surfaces f = Return surfs -> targets true f = surfs.
Proof.
  unfold item_surfaces, targets. destruct (surfaces f); [|discriminate].
  intros [= <-]. reflexivity.
Qed.

Lemma item_volumes_targets f vols :
  item_volumes f = Return vols -> targets false f = vols.
Proof.
  unfold item_volumes, targets. destruct (volumes f); [|discriminate].
  intros [= <-]. reflexivity.
Qed.

Lemma flux_body_length (fts : gmap string A) (ftp : gmap string Pr)
      (mk : Pr -> A -> string -> Z -> quantity) f q :
  (key ← field_key f;
   sol ← dict_getitem fts key;
   prop ← dict_getitem ftp key;
   surfs ← item_surfaces f;
   Return (map (mk prop sol key) surfs)) = Return q ->
  length q = length (targets true f).
Proof.
  intros H. apply bind_Return in H as (key & _ & H).
  apply bind_Return in H as (sol & _ & H).
  apply bind_Return in H as (prop & _ & H).
  apply bind_Return in H as (surfs & Hs & [= <-]).
  rewrite length_map, (item_surfaces_targets _ _ Hs). reflexivity.
Qed.

Lemma surface_body_length (fts : gmap string A) (mk : A -> Z -> quantity) f q :
  (key ← field_key f;
   sol ← dict_getitem fts key;
   surfs ← item_surfaces f;
   Return (map (mk sol) surfs)) = Return q ->
  length q = length (targets true f).
Proof.
  intros H. apply bind_Return in H as (key & _ & H).
  apply bind_Return in H as (sol & _ & H).
  apply bind_Return in H as (surfs & Hs & [= <-]).
  rewrite length_map, (item_surfaces_targets _ _ Hs). reflexivity.
Qed.

Lemma volume_body_length (fts : gmap string A) (mk : A -> Z -> quantity) f q :
  (key ← field_key f;
   sol ← dict_getitem fts key;
   vols ← item_volumes f;
   Return (map (mk sol) vols)) = Return q ->
  length q = length (targets false f).
Proof.
  intros H. apply bind_Return in H as (key & _ & H).
  apply bind_Return in H as (sol & _ & H).
  apply bind_Return in H as (vols & Hs & [= <-]).
  rewrite length_map, (item_volumes_targets _ _ Hs). reflexivity.
Qed.

Lemma extremum_body_length (fts : gmap string A) (mk : A -> Z -> quantity)
      (of_retention : Z -> quantity) f q :
  (key ← field_key f;
   if String.eqb key "retention" then
     vols ← item_volumes f;
     Return (map of_retention vols)
   else
     sol ← dict_getitem fts key;
     vols ← item_volumes f;
     Return (map (mk sol) vols)) = Return q ->
  length q = length (targets false f).
Proof.
  intros H. apply bind_Return in H as (key & _ & H).
  destruct (String.eqb key "retention").
  - apply bind_Return in H as (vols & Hs & [= <-]).
    rewrite length_map, (item_volumes_targets _ _ Hs). reflexivity.
  - apply bind_Return in H as (sol & _ & H).
    apply bind_Return in H as (vols & Hs & [= <-]).
    rewrite length_map, (item_volumes_targets _ _ Hs). reflexivity.
Qed.

(** X13.  When the header is built and [derived_quantities] returns for the
    same dictionary, the header has one cell more than the row: the
    cell ["t(s)"] of the time that the caller inserts in front of
    the row. *)
Theorem row_matches_header
        (quantity_types field_types : list string) (p : parameters)
        soret (solutions : list A) (markers : list Mk) (properties : list Pr)
        (h : list string) (tab : list quantity) :
  header_derived_quantities quantity_types field_types p = Ok h ->
  derived_quantities is_Expression interpolate soret
                     (PostProcessing.derived_quantities p)
                     solutions markers properties = Return tab ->
  length h = (1 + length tab)%nat.
Proof.
  unfold header_derived_quantities, derived_quantities.
  intros Hh Ht.
  apply bind_Ok in Hh as (_ & _ & Hh). cbv zeta in Hh.
  apply bind_Ok in Hh as (h1 & E1 & Hh).
  apply bind_Ok in Hh as (h2 & E2 & Hh).
  apply bind_Ok in Hh as (h3 & E3 & Hh).
  apply bind_Ok in Hh as (h4 & E4 & Hh).
  apply bind_Ok in Hh as (h5 & E5 & Hh).
  apply bind_Ok in Hh as (h6 & E6 & [= <-]).
  apply bind_Return in Ht as (D & _ & Ht).
  apply bind_Return in Ht as (tc & _ & Ht).
  apply bind_Return in Ht as (Q & _ & Ht).
  apply bind_Return in Ht as (m0 & _ & Ht).
  apply bind_Return in Ht as (m1 & _ & Ht).
  apply bind_Return in Ht as (s0 & _ & Ht).
  apply bind_Return in Ht as (ret & _ & Ht).
  apply bind_Return in Ht as (T & _ & Ht). cbv zeta in Ht.
  apply bind_Return in Ht as (t1 & F1 & Ht).
  apply bind_Return in Ht as (t2 & F2 & Ht).
  apply bind_Return in Ht as (t3 & F3 & Ht).
  apply bind_Return in Ht as (t4 & F4 & Ht).
  apply bind_Return in Ht as (t5 & F5 & Ht).
  apply bind_Return in Ht as (t6 & F6 & [= <-]).
  simpl. f_equal. rewrite !length_app.
  rewrite (block_length _ _ _ _ _ _ _
             (flux_body_length _ _ (fun prop sol key surf => _)) E1 F1).
  rewrite (block_length _ _ _ _ _ _ _ (volume_body_length _ _) E2 F2).
  rewrite (block_length _ _ _ _ _ _ _ (extremum_body_length _ _ _) E3 F3).
  rewrite (block_length _ _ _ _ _ _ _ (extremum_body_length _ _ _) E4 F4).
  rewrite (block_length _ _ _ _ _ _ _ (volume_body_length _ _) E5 F5).
  rewrite (block_length _ _ _ _ _ _ _ (surface_body_length _ _) E6 F6).
  reflexivity.
Qed.

End DerivedQuantities.


(** *** Examples *)

Lemma row_matches_header_witness :
  exists h tab,
    header_derived_quantities Helpers.quantity_types Helpers.field_types
                              DQSamples.sample_parameters = Ok h
    /\ DQSamples.sample_derived_quantities DQSamples.sample_dict = Return tab
    /\ length h = 6%nat
    /\ length tab = 5%nat.
Proof.
  unfold DQSamples.sample_derived_quantities.
  destruct (header_derived_quantities _ _ _) as [h|e] eqn:Hh;
    [|vm_compute in Hh; discriminate].
  destruct (derived_quantities _ _ _ _ _ _ _) as [tab|e] eqn:Ht;
    [|vm_compute in Ht; discriminate].
  pose proof (row_matches_header _ _ _ _ DQSamples.sample_parameters _ _ _ _ _ _ Hh Ht)
    as Hlen.
  pose proof Ht as Ht'. vm_compute in Ht'. injection Ht' as <-.
  exists h. eexists. split; [reflexivity|]. split; [reflexivity|].
  split; [rewrite Hlen; reflexivity | reflexivity].
Defined.

Lemma field_zero_accepted_but_unavailable_witness :
  check_field Helpers.field_types (Z.of_nat 1) (FInt 0) = Ok tt
  /\ throws (DQSamples.sample_derived_quantities DQSamples.zero_dict) = true.
Proof.
  apply (field_zero_accepted_but_unavailable
           (fun _ : string => false) (fun x => x) Helpers.field_types 1
           (Some (Some true)) DQSamples.zero_dict "average_volume"
           [DQSamples.on_volumes (FInt 0) [1%Z]] (DQSamples.on_volumes (FInt 0) [1%Z])
           (FInt 0)).
  - simpl. auto.
  - reflexivity.
  - left. reflexivity.
  - reflexivity.
  - left. reflexivity.
Defined.

Lemma surface_flux_needs_solute_or_T_witness :
  check_keys_derived_quantities
    Helpers.quantity_types Helpers.field_types
    {| PostProcessing.derived_quantities := DQSamples.trap_flux_dict; traps_len := 1 |}
  = Ok tt
  /\ throws (DQSamples.sample_derived_quantities DQSamples.trap_flux_dict) = true.
Proof.
  split; [vm_compute; reflexivity|].
  apply (surface_flux_needs_solute_or_T
           (fun _ : string => false) (fun x => x)
           (Some (Some true)) DQSamples.trap_flux_dict
           [DQSamples.on_surfaces (FInt 1) [1%Z]] (DQSamples.on_surfaces (FInt 1) [1%Z])
           (FInt 1)).
  - reflexivity.
  - left. reflexivity.
  - reflexivity.
  - intros H. vm_compute in H. discriminate.
  - intros H. vm_compute in H. discriminate.
Defined.

End DerivedQuantitiesFacts.
(** ** post_processing.py: fields, headers and properties *)

Module PostProcessingEdgeFacts.
Import PostProcessing PyFacts.
Local Open Scope list_scope.

(** *** Decimal strings *)

Definition digits_value (l : list ascii) (acc : Z) : Z :=
  fold_left (fun acc c => (10 * acc + (Z.of_nat (nat_of_ascii c) - 48))%Z) l acc.

Lemma pretty_N_char_value (d : N) :
  (d < 10)%N -> (Z.of_nat (nat_of_ascii (pretty_N_char d)) - 48 = Z.of_N d)%Z.
Proof.
  intros Hd.
  assert (H : (d = 0 \/ d = 1 \/ d = 2 \/ d = 3 \/ d = 4 \/ d = 5 \/ d = 6 \/ d = 7
               \/ d = 8 \/ d = 9)%N) by lia.
  repeat (destruct H as [->|H]; [reflexivity|]). rewrite H. reflexivity.
Qed.

Lemma pretty_N_go_value (x : N) (s : string) :
  (0 < x)%N ->
  digits_value (list_ascii_of_string (pretty_N_go x s)) 0
  = digits_value (list_ascii_of_string s) (Z.of_N x).
Proof.
  revert s. induction (N.lt_wf_0 x) as [x _ IH]. intros s Hx.
  rewrite pretty_N_go_step by assumption.
  assert (Hstep : (10 * Z.of_N (x `div` 10)
                   + (Z.of_nat (nat_of_ascii (pretty_N_char (x `mod` 10))) - 48)
                   = Z.of_N x)%Z).
  { rewrite pretty_N_char_value by (apply N.mod_lt; lia).
    rewrite (N.div_mod x 10) at 3 by lia. lia. }
  destruct (decide (x `div` 10 = 0)%N) as [E|Hne].
  - rewrite E in *. rewrite pretty_N_go_0. simpl. unfold digits_value.
    simpl fold_left at 1. f_equal. exact Hstep.
  - rewrite IH; [|apply N.div_lt; lia|apply N.neq_0_lt_0, Hne].
    simpl. unfold digits_value. f_equal. exact Hstep.
Qed.

Lemma pretty_N_go_digits (x : N) (s : string) :
  (0 < x)%N ->
  forallb is_digit_char (list_ascii_of_string (pretty_N_go x s))
  = forallb is_digit_char (list_ascii_of_string s)
  /\ pretty_N_go x s <> EmptyString.
Proof.
  revert s. induction (N.lt_wf_0 x) as [x _ IH]. intros s Hx.
  rewrite pretty_N_go_step by assumption.
  destruct (decide (x `div` 10 = 0)%N) as [E|Hne].
  - rewrite E, pretty_N_go_0. simpl.
    assert (Hd : is_digit_char (pretty_N_char (x `mod` 10)) = true).
    { unfold pretty_N_char. repeat case_match; reflexivity. }
    rewrite Hd. split; [reflexivity | discriminate].
  - destruct (IH (x `div` 10)%N) with (s := String (pretty_N_char (x `mod` 10)) s)
      as [Hall Hne'].
    + apply N.div_lt; lia.
    + apply N.neq_0_lt_0, Hne.
    + split; [|exact Hne']. rewrite Hall. simpl.
      assert (Hd : is_digit_char (pretty_N_char (x `mod` 10)) = true).
      { unfold pretty_N_char. repeat case_match; reflexivity. }
      rewrite Hd. reflexivity.
Qed.

(** [str(n).isdigit()] holds for the integers [n >= 0] and no other,
    and [int(str(n))] is [n]. *)
Lemma isdigit_pretty (n : Z) : isdigit (pretty n) = (0 <=? n)%Z.
Proof.
  destruct n as [|p|p]; [reflexivity| |reflexivity].
  change (pretty (Z.pos p)) with (pretty_N (N.pos p)). unfold pretty_N.
  destruct (decide (N.pos p = 0%N)); [discriminate|].
  destruct (pretty_N_go_digits (N.pos p) "") as [Hall Hne]; [lia|].
  unfold isdigit. destruct (pretty_N_go (N.pos p) "") eqn:E; [congruence|].
  rewrite Hall. reflexivity.
Qed.

Lemma int_of_str_pretty (n : Z) : (0 <= n)%Z -> int_of_str (pretty n) = n.
Proof.
  intros Hn. destruct n as [|p|p]; [reflexivity| |lia].
  change (pretty (Z.pos p)) with (pretty_N (N.pos p)). unfold pretty_N.
  destruct (decide (N.pos p = 0%N)); [discriminate|].
  unfold int_of_str. fold (digits_value (list_ascii_of_string (pretty_N_go (N.pos p) "")) 0).
  rewrite pretty_N_go_value by lia. reflexivity.
Qed.

(** *** [check_keys_derived_quantities]: a field given in decimal writing *)

(** X14.  A field given as the decimal writing of an integer is validated
    like the integer itself, with the same message when it is
    rejected, unless this writing is one of the field names. *)
Theorem decimal_field_checked_like_integer
        (field_types : list string) (nb_traps n : Z) :
  str_in (pretty n) field_types = false ->
  check_field field_types nb_traps (FStr (pretty n))
  = check_field field_types nb_traps (FInt n).
Proof.
  intros Hname. simpl. rewrite Hname, isdigit_pretty. simpl.
  destruct (0 <=? n)%Z eqn:Hn.
  - apply Z.leb_le in Hn. rewrite int_of_str_pretty by exact Hn. reflexivity.
  - apply Z.leb_gt in Hn.
    assert (Hneg : (n <? 0)%Z = true) by (apply Z.ltb_lt; exact Hn).
    rewrite Hneg, orb_true_r. reflexivity.
Qed.

Lemma decimal_field_checked_like_integer_witness :
  check_field Helpers.field_types 2 (FStr "3")
  = Raise (ValueError "Unknown field: 3")
  /\ check_field Helpers.field_types 2 (FInt 3)
     = Raise (ValueError "Unknown field: 3").
Proof.
  pose proof (decimal_field_checked_like_integer Helpers.field_types 2 3 eq_refl) as H.
  split; [exact (eq_trans H eq_refl) | reflexivity].
Defined.

(** *** [header_derived_quantities]: the key of the targets *)

Section Header.
Variable quantity_types : list string.
Variable field_types : list string.

(** The six blocks of the header: their key and whether they iterate
    over ["surfaces"] or over ["volumes"]. *)
Definition header_kinds : list (string * bool) :=
  [("surface_flux", true); ("average_volume", false); ("minimum_volume", false);
   ("maximum_volume", false); ("total_volume", false); ("total_surface", true)].

Lemma header_entries_raises (on_surfaces : bool) (cell : string -> string -> string)
      (l : list dq_item) (f : dq_item) :
  In f l ->
  (if on_surfaces then surfaces f else volumes f) = None ->
  raises (header_entries on_surfaces cell l) = true.
Proof.
  intros Hf Hnone. induction l as [|g l IH]; [destruct Hf|].
  simpl. destruct Hf as [->|Hf].
  - unfold header_cells. rewrite Hnone. reflexivity.
  - destruct (header_cells on_surfaces cell g); [|reflexivity]. simpl.
    specialize (IH Hf). destruct (header_entries on_surfaces cell l); [discriminate|].
    reflexivity.
Qed.

Lemma header_block_raises d key (on_surfaces : bool) (cell : string -> string -> string)
      (l : list dq_item) (f : dq_item) :
  dict_get d key = Some (DQItems l) ->
  In f l ->
  (if on_surfaces then surfaces f else volumes f) = None ->
  raises (header_block d key on_surfaces cell) = true.
Proof.
  intros Hd Hf Hnone. unfold header_block. rewrite Hd.
  eapply header_entries_raises; eassumption.
Qed.

(** X15.  The validation asks each entry for ["surfaces"] or ["volumes"],
    whichever the quantity; the header reads the one of the
    quantity.  An entry that does not hold the key of its quantity
    makes [header_derived_quantities] raise, also when it holds the
    other key and passes the validation. *)
Theorem header_needs_key_of_quantity (p : parameters) (key : string)
        (on_surfaces : bool) (l : list dq_item) (f : dq_item) :
  In (key, on_surfaces) header_kinds ->
  dict_get (derived_quantities p) key = Some (DQItems l) ->
  In f l ->
  (if on_surfaces then surfaces f else volumes f) = None ->
  raises (header_derived_quantities quantity_types field_types p) = true.
Proof.
  intros Hkind Hd Hf Hnone.
  unfold header_derived_quantities.
  destruct (check_keys_derived_quantities quantity_types field_types p);
    [|reflexivity].
  cbn [mbind result_bind].
  pose proof (fun cell => header_block_raises _ _ _ cell _ _ Hd Hf Hnone) as Hraise.
  simpl in Hkind.
  destruct Hkind as [E|[E|[E|[E|[E|[E|[]]]]]]]; injection E as <- <-;
    repeat match goal with
           | |- context [header_block ?d ?k ?b ?c] =>
               let r := fresh "r" in
               let Hr := fresh "Hr" in
               destruct (header_block d k b c) as [r|r] eqn:Hr;
               [|reflexivity];
               try (pose proof (Hraise c) as Hc; rewrite Hr in Hc; discriminate)
           end.
Qed.

End Header.

Lemma header_needs_key_of_quantity_witness :
  check_keys_derived_quantities
    Helpers.quantity_types Helpers.field_types
    {| derived_quantities :=
         [("surface_flux", DQItems [DQSamples.on_volumes (FStr "solute") [1%Z]])];
       traps_len := 0 |} = Ok tt
  /\ raises (header_derived_quantities
               Helpers.quantity_types Helpers.field_types
               {| derived_quantities :=
                    [("surface_flux", DQItems [DQSamples.on_volumes (FStr "solute") [1%Z]])];
                  traps_len := 0 |}) = true.
Proof.
  split; [vm_compute; reflexivity|].
  apply (header_needs_key_of_quantity
           Helpers.quantity_types Helpers.field_types
           {| derived_quantities :=
                [("surface_flux", DQItems [DQSamples.on_volumes (FStr "solute") [1%Z]])];
              traps_len := 0 |}
           "surface_flux" true
           [DQSamples.on_volumes (FStr "solute") [1%Z]]
           (DQSamples.on_volumes (FStr "solute") [1%Z])).
  - left. reflexivity.
  - reflexivity.
  - left. reflexivity.
  - reflexivity.
Defined.


(** *** [create_properties] *)

Definition some_material_has (key : string) (materials : list material) : bool :=
  existsb (fun mat => has_key mat key) materials.

Lemma fold_add_material_properties (materials : list material) (acc : properties) :
  let props := fold_left add_material_properties materials acc in
  D props = D acc
  /\ S props = (if some_material_has "S_0" materials
                then Some (ArheniusCoeff "S_0" "E_S") else S acc)
  /\ thermal_cond props = (if some_material_has "thermal_cond" materials
                           then Some (ThermalProp "thermal_cond") else thermal_cond acc)
  /\ cp props = (if some_material_has "thermal_cond" materials
                 then Some (ThermalProp "heat_capacity") else cp acc)
  /\ rho props = (if some_material_has "thermal_cond" materials
                  then Some (ThermalProp "rho") else rho acc)
  /\ H props = (if some_material_has "H" materials then Some HCoeff else H acc).
Proof.
  revert acc. induction materials as [|mat materials IH]; intros acc; simpl.
  - repeat split.
  - destruct (IH (add_material_properties acc mat)) as (HD & HS & Ht & Hc & Hr & HH).
    rewrite HD, HS, Ht, Hc, Hr, HH. clear.
    unfold add_material_properties.
    destruct (has_key mat "S_0"), (has_key mat "thermal_cond"), (has_key mat "H");
      simpl; repeat split;
      destruct (some_material_has _ materials); reflexivity.
Qed.

Lemma create_properties_fields (materials : list material) :
  S (create_properties materials)
  = (if some_material_has "S_0" materials then Some (ArheniusCoeff "S_0" "E_S") else None)
  /\ cp (create_properties materials)
     = (if some_material_has "thermal_cond" materials
        then Some (ThermalProp "heat_capacity") else None)
  /\ rho (create_properties materials)
     = (if some_material_has "thermal_cond" materials
        then Some (ThermalProp "rho") else None).
Proof.
  destruct (fold_add_material_properties
              materials
              {| D := ArheniusCoeff "D_0" "E_D"; thermal_cond := None; cp := None;
                 rho := None; H := None; S := None |})
    as (_ & HS & _ & Hcp & Hrho & _).
  auto.
Qed.

(** X16.  [create_properties] always creates the diffusivity; it creates the
    solubility when some material has the key ["S_0"], the enthalpy
    when some material has the key ["H"], and the thermal
    conductivity, the heat capacity and the density, all three, when
    some material has the key ["thermal_cond"]: the keys
    ["heat_capacity"] and ["rho"] are not looked at. *)
Theorem create_properties_keys (materials : list material) :
  let props := create_properties materials in
  D props = ArheniusCoeff "D_0" "E_D"
  /\ S props = (if some_material_has "S_0" materials
                then Some (ArheniusCoeff "S_0" "E_S") else None)
  /\ thermal_cond props = (if some_material_has "thermal_cond" materials
                           then Some (ThermalProp "thermal_cond") else None)
  /\ cp props = (if some_material_has "thermal_cond" materials
                 then Some (ThermalProp "heat_capacity") else None)
  /\ rho props = (if some_material_has "thermal_cond" materials
                  then Some (ThermalProp "rho") else None)
  /\ H props = (if some_material_has "H" materials then Some HCoeff else None).
Proof. apply fold_add_material_properties. Qed.

Section Coefficients.
Variable k_B : R.
Variable find_material_from_id : list material -> Z -> result material.

(** X17.  A property is created for all the materials as soon as one of
    them has its key: in a cell whose material has no ["S_0"] the
    solubility raises [KeyError], although [create_properties] has
    created it. *)
Theorem solubility_of_one_material
        (materials : list material) (id : Z) (T : R) (m : material) :
  some_material_has "S_0" materials = true ->
  find_material_from_id materials id = Ok m ->
  m !! "S_0" = None ->
  S (create_properties materials) = Some (ArheniusCoeff "S_0" "E_S")
  /\ solubility_coefficient k_B find_material_from_id materials id T
     = Raise (KeyError "S_0").
Proof.
  intros Hsome Hm Hkey. split.
  - destruct (create_properties_fields materials) as (HS & _).
    rewrite HS, Hsome. reflexivity.
  - unfold solubility_coefficient, ArheniusCoeff_eval_cell, getitem.
    rewrite Hm. simpl. rewrite Hkey. reflexivity.
Qed.

(** X18.  The heat capacity and the density are created from the key
    ["thermal_cond"] alone: in a cell whose material has no
    ["heat_capacity"], or no ["rho"], they raise [KeyError]. *)
Theorem thermal_properties_of_one_key
        (materials : list material) (id : Z) (T : R) (m : material) (key : string) :
  some_material_has "thermal_cond" materials = true ->
  find_material_from_id materials id = Ok m ->
  In key ["heat_capacity"; "rho"] ->
  m !! key = None ->
  cp (create_properties materials) = Some (ThermalProp "heat_capacity")
  /\ rho (create_properties materials) = Some (ThermalProp "rho")
  /\ ThermalProp_eval_cell find_material_from_id materials key id T
     = Raise (KeyError key).
Proof.
  intros Hsome Hm Hin Hkey.
  destruct (create_properties_fields materials) as (_ & Hcp & Hrho).
  rewrite Hcp, Hrho, Hsome. repeat split.
  unfold ThermalProp_eval_cell, getitem. rewrite Hm. simpl. rewrite Hkey. reflexivity.
Qed.


End Coefficients.

(** Two materials, the second one without solubility and with a
    thermal conductivity only. *)
Definition second_material : material :=
  <["id" := VInt 2]> (<["D_0" := VFloat 1]> (<["E_D" := VFloat 1]>
    (<["thermal_cond" := VFloat 3]> ∅))).

Lemma solubility_of_one_material_witness :
  S (create_properties [Samples.callable_material; second_material])
  = Some (ArheniusCoeff "S_0" "E_S")
  /\ solubility_coefficient 1 Helpers.find_material_from_id
       [Samples.callable_material; second_material] 2 300
     = Raise (KeyError "S_0").
Proof.
  apply (solubility_of_one_material 1 Helpers.find_material_from_id
           [Samples.callable_material; second_material] 2 300 second_material);
    reflexivity.
Defined.

Lemma thermal_properties_of_one_key_witness :
  cp (create_properties [Samples.callable_material; second_material])
  = Some (ThermalProp "heat_capacity")
  /\ rho (create_properties [Samples.callable_material; second_material])
     = Some (ThermalProp "rho")
  /\ ThermalProp_eval_cell Helpers.find_material_from_id
       [Samples.callable_material; second_material] "rho" 2 300
     = Raise (KeyError "rho").
Proof.
  apply (thermal_properties_of_one_key Helpers.find_material_from_id
           [Samples.callable_material; second_material] 2 300 second_material "rho");
    [reflexivity | reflexivity | right; left; reflexivity | reflexivity].
Defined.


End PostProcessingEdgeFacts.
(** ** The size of the residuals *)

Module CasTestSolubilitySizeFacts.
Import CasTestSolubility PyFacts CasTestSolubilityFacts.
Local Open Scope list_scope.

Section Formulation.
Variable k_B : R.
Variable find_material_from_id : list material -> Z -> result material.

Lemma concat_results_length {A} (f : A -> result form) (count : A -> nat)
      (l : list A) (F : form) :
  (forall x G, f x = Ok G -> length G = count x) ->
  concat_results (map f l) = Ok F ->
  length F = list_sum (map count l).
Proof.
  intros Hf. revert F. induction l as [|x l IH]; intros F HF; simpl in *.
  - injection HF as <-. reflexivity.
  - bind_inv HF. injection HF as <-.
    rewrite length_app, (Hf _ _ E), (IH _ eq_refl). reflexivity.
Qed.

Definition trap_size (transient : bool) (tr : trap) : nat :=
  (if transient then 1 else 0) + 2 * length (as_list (materials tr)) + 1.

Lemma trap_terms_length dt transient mats tr i G :
  trap_terms k_B find_material_from_id dt transient mats tr i = Ok G ->
  length G = trap_size transient tr.
Proof.
  intros HG. destruct (trap_terms_inv _ _ _ _ _ _ _ _ HG) as (per & Hper & ->).
  rewrite !length_app.
  rewrite (fun Hf => concat_results_length _ (fun _ : Z => 2%nat) _ _ Hf Hper).
  - unfold trap_size. simpl.
    assert (Hsum : forall l : list Z, list_sum (map (fun _ => 2%nat) l) = (2 * length l)%nat).
    { induction l as [|x l IH]; simpl; lia. }
    rewrite Hsum. destruct transient; simpl; lia.
  - intros sub H HH.
    destruct (trap_subdomain_terms_inv _ _ _ _ _ _ _ HH)
      as (m & D_0 & E_diff & alpha & beta & S_0 & E_S & _ & _ & _ & _ & _ & _ & _ & ->).
    reflexivity.
Qed.

Lemma traps_terms_length dt transient mats trs i F :
  traps_terms k_B find_material_from_id dt transient mats trs i = Ok F ->
  length F = list_sum (map (trap_size transient) trs).
Proof.
  revert i F. induction trs as [|tr trs IH]; intros i F HF; simpl in *.
  - injection HF as <-. reflexivity.
  - bind_inv HF. injection HF as <-.
    rewrite length_app, (trap_terms_length _ _ _ _ _ _ E), (IH _ _ E0). reflexivity.
Qed.

(** X20.  When [formulation] returns, the residual holds for each material
    its diffusion term, and in a transient run its time derivative;
    for each trap two terms for each of its subdomains and the rate
    of change of the trap in the mobile equation, and in a transient
    run the one in its own equation.  The expressions returned are
    the densities of the traps, in the order of the traps. *)
Theorem formulation_size (p : parameters) (dt : expr) (transient : bool)
        (Fx : form) (exprs : list expr) :
  formulation k_B find_material_from_id p dt transient = Ok (Fx, exprs) ->
  exprs = map (fun tr => Expression (density tr)) (p_traps p)
  /\ length Fx
     = ((if transient then 2 else 1) * length (p_materials p)
        + list_sum (map (trap_size transient) (p_traps p)))%nat.
Proof.
  intros HF.
  destruct (formulation_inv _ _ _ _ _ _ _ HF) as (Fm & Ft & HFm & HFt & ->).
  split.
  - unfold formulation in HF. bind_inv HF. injection HF as _ <-. reflexivity.
  - rewrite length_app, (traps_terms_length _ _ _ _ _ _ HFt).
    rewrite (fun Hf => concat_results_length
                         _ (fun _ : material => if transient then 2%nat else 1%nat)
                         _ _ Hf HFm).
    + f_equal. clear. generalize (p_materials p). intros l.
      destruct transient; induction l as [|m l IH]; simpl; lia.
    + intros m G HG.
      destruct (material_terms_inv _ _ _ _ _ HG)
        as (D_0 & E_diff & S_0 & E_S & sd & _ & _ & _ & _ & ->).
      destruct transient; reflexivity.
Qed.

End Formulation.

Lemma formulation_size_witness :
  exists Fx exprs,
    Samples.sample_formulation Dt true = Ok (Fx, exprs)
    /\ exprs = [Expression "1e20"]
    /\ length Fx = 6%nat.
Proof.
  unfold Samples.sample_formulation.
  destruct (formulation 1 Helpers.find_material_from_id Samples.sample_parameters Dt true)
    as [[Fx exprs]|e] eqn:HF.
  - destruct (formulation_size _ _ _ _ _ _ _ HF) as [Hexprs Hlen].
    exists Fx, exprs. split; [reflexivity|]. split; [exact Hexprs | exact Hlen].
  - exfalso. unfold formulation in HF. vm_compute in HF. discriminate.
Defined.

End CasTestSolubilitySizeFacts.

Module HydrogenTransportTermsFacts.
Import HydrogenTransport PyFacts.
Local Open Scope list_scope.

Section CreateFormulation.
Variables Material Source : Type.
Variable get_diffusion_coefficient : Material -> Species -> expr.

Lemma flat_map_volume_terms_length (spe : Species) (vols : list (VolumeSubdomain Material)) :
  length (flat_map (volume_terms get_diffusion_coefficient spe) vols)
  = (2 * length vols)%nat.
Proof. induction vols as [|vol vols IH]; simpl; [reflexivity | rewrite IH; lia]. Qed.

(** X21.  After [assign_functions_to_species], the formulation holds two
    terms for each species and each volume: the diffusion and the
    time derivative of this species over this volume, written with
    the solution, the previous solution and the test function of the
    species itself. *)
Theorem create_formulation_terms
        (names : list string) (vols : list (VolumeSubdomain Material))
        (srcs : list Source) (F : form) :
  create_formulation get_diffusion_coefficient
    {| species := assign_functions_to_species names;
       volume_subdomains := vols;
       sources := srcs |} = Ok F ->
  length F = (2 * (length names * length vols))%nat
  /\ forall tm, In tm F ->
       exists idx n vol,
         names !! idx = Some n
         /\ In vol vols
         /\ let spe := {| name := n; solution := Sol idx; prev_solution := Prev idx;
                          test_function := Test idx |} in
            let D := get_diffusion_coefficient (material vol) spe in
            (tm = (Dot (Mul D (Grad (Sol idx))) (Grad (Test idx)), dx_sub (SId (id vol)))
             \/ tm = (Mul (Div (Sub (Sol idx) (Prev idx)) Dt) (Test idx),
                      dx_sub (SId (id vol))))
            /\ tested_with (fst tm) = Some idx.
Proof.
  unfold create_formulation. simpl.
  destruct (1 <? length srcs)%nat; [discriminate|]. intros [= <-]. split.
  - unfold assign_functions_to_species.
    assert (H : forall (g : nat -> string -> Species) l,
               length (flat_map (fun spe =>
                                   flat_map (volume_terms get_diffusion_coefficient spe)
                                            vols) (imap g l))
               = (2 * (length l * length vols))%nat).
    { intros g l. revert g. induction l as [|n l IH]; intros g; simpl; [lia|].
      rewrite length_app, flat_map_volume_terms_length, IH. lia. }
    apply H.
  - intros tm Htm. apply in_flat_map in Htm as (spe & Hspe & Htm).
    apply in_flat_map in Htm as (vol & Hvol & Htm).
    unfold assign_functions_to_species in Hspe.
    apply list_elem_of_In, elem_of_lookup_imap_1 in Hspe as (idx & n & -> & Hn).
    exists idx, n, vol. split; [exact Hn|]. split; [exact Hvol|].
    simpl in Htm. destruct Htm as [<-|[<-|[]]]; simpl; auto.
Qed.

End CreateFormulation.

Lemma create_formulation_terms_witness :
  exists F,
    create_formulation (fun (m : expr) (spe : Species) => m)
      {| species := assign_functions_to_species ["H"; "D"];
         volume_subdomains := [{| id := 1; material := Cst 2 |}];
         sources := @nil unit |} = Ok F
    /\ length F = 4%nat.
Proof.
  eexists. split; [reflexivity|].
  apply (create_formulation_terms expr unit (fun (m : expr) (spe : Species) => m)
           ["H"; "D"] [{| id := 1; material := Cst 2 |}] []).
  reflexivity.
Defined.

End HydrogenTransportTermsFacts.
(** ** post_processing.py: [compute_error] *)

Module ComputeErrorFacts.
Import PyIndex ComputeError PyFacts DerivedQuantitiesFacts.
Import PostProcessing(pyfield, FInt, FStr, FOther).
Local Open Scope list_scope.

Lemma list_getitem_nat {X} (l : list X) (i : nat) :
  list_getitem l (Z.of_nat i)
  = match l !! i with
    | Some x => Return x
    | None => Throw (IndexError "list index out of range")
    end.
Proof.
  unfold list_getitem.
  destruct (Z.of_nat i <? 0)%Z eqn:E; [apply Z.ltb_lt in E; lia|].
  rewrite E, Nat2Z.id. reflexivity.
Qed.

Lemma list_getitem_map {X Y} (f : X -> Y) (l : list X) (i : Z) :
  list_getitem (map f l) i = f <$> list_getitem l i.
Proof.
  unfold list_getitem. rewrite length_map.
  destruct (_ <? 0)%Z; [reflexivity|].
  change (map f l) with (f <$> l). rewrite list_lookup_fmap.
  destruct (l !! _); reflexivity.
Qed.

Section ComputeError.
Context {A E : Type}.

Abbreviation error_dict := (error_dict E).
Abbreviation cell := (cell A E).

Variable res : list A.
Variable solution_dict : gmap string A.

(** *** The shape of the table *)

Lemma error_entries_length (error : error_dict) exacts i st r :
  error_entries res solution_dict error exacts i st = Return r ->
  length (fst r) = length exacts.
Proof.
  revert i st r. induction exacts as [|exact exacts IH]; intros i st r; simpl.
  - intros [= <-]. reflexivity.
  - intros H.
    apply bind_Return in H as (deg & _ & H).
    apply bind_Return in H as (computed & _ & H).
    apply bind_Return in H as (err & _ & H).
    apply bind_Return in H as (st' & _ & H).
    apply bind_Return in H as (nrm & _ & H).
    apply bind_Return in H as (c & _ & H).
    apply bind_Return in H as (rest & Hrest & [= <-]).
    simpl. rewrite (IH _ _ _ Hrest). reflexivity.
Qed.

Lemma error_rows_shape (t : Q) (parameters : list error_dict) st tab :
  error_rows t res solution_dict parameters st = Return tab ->
  Forall2 (fun row error =>
             exists exacts errs,
               exact_solutions error = Some exacts
               /\ row = CTime t :: errs
               /\ length errs = length exacts) tab parameters.
Proof.
  revert st tab. induction parameters as [|error parameters IH]; intros st tab; simpl.
  - intros [= <-]. constructor.
  - intros H.
    apply bind_Return in H as (exacts & Hex & H).
    apply bind_Return in H as (er & Her & H).
    apply bind_Return in H as (tab' & Htab & [= <-]).
    constructor; [|eapply IH; exact Htab].
    exists exacts, (fst er). split; [|split; [reflexivity|]].
    + destruct (exact_solutions error); [|discriminate].
      injection Hex as ->. reflexivity.
    + eapply error_entries_length, Her.
Qed.

(** *** Digit strings *)

Lemma select_as_integer st err :
  select res solution_dict st (as_integer err) = select res solution_dict st err.
Proof.
  destruct err as [n|s|r]; try reflexivity.
  simpl. destruct (isdigit s) eqn:Hd; simpl; rewrite ?Hd; reflexivity.
Qed.

Lemma error_entries_with_integers (error : error_dict) exacts i st :
  error_entries res solution_dict (with_integers error) exacts i st
  = error_entries res solution_dict error exacts i st.
Proof.
  revert i st. induction exacts as [|exact exacts IH]; intros i st; simpl;
    [reflexivity|].
  destruct (degree error) as [deg|]; [|reflexivity]. simpl.
  destruct (computed_solutions error) as [computed|]; [|reflexivity]. simpl.
  rewrite list_getitem_map.
  destruct (list_getitem computed (Z.of_nat i)) as [err|e]; [|reflexivity]. simpl.
  rewrite select_as_integer.
  destruct (select res solution_dict st err) as [st'|e]; [|reflexivity]. simpl.
  destruct (norm error) as [nrm|]; [|reflexivity]. simpl.
  destruct (read st') as [c|e]; [|reflexivity]. simpl.
  rewrite IH. reflexivity.
Qed.

Lemma error_rows_with_integers (t : Q) (parameters : list error_dict) st :
  error_rows t res solution_dict (map with_integers parameters) st
  = error_rows t res solution_dict parameters st.
Proof.
  revert st. induction parameters as [|error parameters IH]; intros st; simpl;
    [reflexivity|].
  destruct (exact_solutions error) as [exacts|]; [|reflexivity]. simpl.
  rewrite error_entries_with_integers.
  destruct (error_entries res solution_dict error exacts 0 st) as [er|e];
    [|reflexivity].
  simpl. rewrite IH. reflexivity.
Qed.

(** *** Entries that are neither strings nor integers *)

Lemma select_again st err st' :
  select res solution_dict st err = Return st' ->
  select res solution_dict st' err = Return st'.
Proof.
  destruct err as [n|s|r]; simpl.
  - intros H. exact H.
  - intros H. exact H.
  - intros [= ->]. reflexivity.
Qed.

Section Reuse.
Variable error : error_dict.
Variable c : list pyfield.
Variable k : nat.
Variable f : pyfield.
Variable r : string.
Hypothesis Hc : computed_solutions error = Some c.
Hypothesis Hk : c !! k = Some f.
Hypothesis HSk : c !! Datatypes.S k = Some (FOther r).

Let error' := with_computed_solutions (<[Datatypes.S k := f]> c) error.

Lemma entries_after exacts i st :
  (Datatypes.S k < i)%nat ->
  error_entries res solution_dict error' exacts i st
  = error_entries res solution_dict error exacts i st.
Proof.
  revert i st. induction exacts as [|exact exacts IH]; intros i st Hi; simpl;
    [reflexivity|].
  rewrite Hc. destruct (degree error) as [deg|]; [|reflexivity]. simpl.
  rewrite !list_getitem_nat, list_lookup_insert_ne by lia.
  destruct (c !! i) as [err|]; [|reflexivity]. simpl.
  destruct (select res solution_dict st err) as [st'|e]; [|reflexivity]. simpl.
  destruct (norm error) as [nrm|]; [|reflexivity]. simpl.
  destruct (read st') as [x|e]; [|reflexivity]. simpl.
  rewrite IH by lia. reflexivity.
Qed.

Lemma entries_at exacts st :
  select res solution_dict st f = Return st ->
  error_entries res solution_dict error' exacts (Datatypes.S k) st
  = error_entries res solution_dict error exacts (Datatypes.S k) st.
Proof.
  intros Hst. destruct exacts as [|exact exacts]; simpl; [reflexivity|].
  rewrite Hc. destruct (degree error) as [deg|]; [|reflexivity]. simpl.
  rewrite !list_getitem_nat, HSk.
  rewrite list_lookup_insert_eq by (apply lookup_lt_is_Some; eauto).
  simpl. rewrite Hst. simpl.
  destruct (norm error) as [nrm|]; [|reflexivity]. simpl.
  destruct (read st) as [x|e]; [|reflexivity]. simpl.
  rewrite entries_after by lia. reflexivity.
Qed.

Lemma entries_before exacts i st :
  (i <= k)%nat ->
  error_entries res solution_dict error' exacts i st
  = error_entries res solution_dict error exacts i st.
Proof.
  revert i st. induction exacts as [|exact exacts IH]; intros i st Hi; simpl;
    [reflexivity|].
  rewrite Hc. destruct (degree error) as [deg|]; [|reflexivity]. simpl.
  rewrite !list_getitem_nat, list_lookup_insert_ne by lia.
  destruct (c !! i) as [err|] eqn:Herr; [|reflexivity]. simpl.
  destruct (select res solution_dict st err) as [st'|e] eqn:Hsel; [|reflexivity].
  simpl.
  destruct (norm error) as [nrm|]; [|reflexivity]. simpl.
  destruct (read st') as [x|e]; [|reflexivity]. simpl.
  destruct (decide (i = k)) as [->|Hne].
  - rewrite entries_at; [reflexivity|].
    rewrite Hk in Herr. injection Herr as <-. eapply select_again, Hsel.
  - rewrite IH by lia. reflexivity.
Qed.

Lemma rows_reuse (t : Q) (before after : list error_dict) st :
  error_rows t res solution_dict (before ++ error' :: after) st
  = error_rows t res solution_dict (before ++ error :: after) st.
Proof.
  revert st. induction before as [|e0 before IH]; intros st; simpl.
  - destruct (exact_solutions error) as [exacts|]; [|reflexivity]. simpl.
    rewrite entries_before by lia. reflexivity.
  - destruct (exact_solutions e0) as [exacts|]; [|reflexivity]. simpl.
    destruct (error_entries res solution_dict e0 exacts 0 st) as [er|e];
      [|reflexivity].
    simpl. rewrite IH. reflexivity.
Qed.

End Reuse.

End ComputeError.

(** X22.  When [compute_error] returns, the table has one row for each error
    dictionary, and the row holds the time followed by one error for
    each exact solution of the dictionary. *)
Theorem compute_error_rows {A E} (parameters : list (error_dict E)) (t : Q)
        (res : list A) (tab : list (list (cell A E))) :
  compute_error parameters t res = Return tab ->
  Forall2 (fun row error =>
             exists exacts errs,
               exact_solutions error = Some exacts
               /\ row = CTime t :: errs
               /\ length errs = length exacts) tab parameters.
Proof.
  unfold compute_error. intros H.
  apply bind_Return in H as (s0 & _ & H).
  apply bind_Return in H as (ret & _ & H).
  apply bind_Return in H as (T & _ & H).
  eapply error_rows_shape, H.
Qed.

(** X23.  A computed solution given as a string of digits is the one given
    as the integer it denotes: the result is the same, exceptions
    included. *)
Theorem digit_string_selects_like_integer {A E} (parameters : list (error_dict E))
        (t : Q) (res : list A) :
  compute_error (map with_integers parameters) t res = compute_error parameters t res.
Proof.
  unfold compute_error.
  destruct (list_getitem res 0) as [s0|e]; [|reflexivity]. simpl.
  destruct (list_getitem res (Z.of_nat (length res) - 2)) as [ret|e]; [|reflexivity].
  simpl.
  destruct (list_getitem res (Z.of_nat (length res) - 1)) as [T|e]; [|reflexivity].
  simpl. apply error_rows_with_integers.
Qed.

(** X24.  An entry of ["computed_solutions"] that is neither a string nor an
    integer is not rejected: its error is computed on the solution of
    the entry before it.  Writing this entry a second time in its place
    changes nothing, exceptions included. *)
Theorem other_type_reuses_previous_solution {A E}
        (before after : list (error_dict E)) (error : error_dict E)
        (c : list pyfield) (k : nat) (f : pyfield) (r : string)
        (t : Q) (res : list A) :
  computed_solutions error = Some c ->
  c !! k = Some f ->
  c !! Datatypes.S k = Some (FOther r) ->
  compute_error (before ++ with_computed_solutions (<[Datatypes.S k := f]> c) error
                        :: after) t res
  = compute_error (before ++ error :: after) t res.
Proof.
  intros Hc Hk HSk. unfold compute_error.
  destruct (list_getitem res 0) as [s0|e]; [|reflexivity]. simpl.
  destruct (list_getitem res (Z.of_nat (length res) - 2)) as [ret|e]; [|reflexivity].
  simpl.
  destruct (list_getitem res (Z.of_nat (length res) - 1)) as [T|e]; [|reflexivity].
  simpl. eapply rows_reuse; eassumption.
Qed.

(** *** Examples *)

Lemma compute_error_rows_witness :
  compute_error [ErrorSamples.sample_error] 0 ErrorSamples.sample_res
  = Return ErrorSamples.sample_table
  /\ Forall2 (fun row error =>
                exists exacts errs,
                  exact_solutions error = Some exacts
                  /\ row = CTime 0 :: errs
                  /\ length errs = length exacts)
             ErrorSamples.sample_table [ErrorSamples.sample_error].
Proof.
  assert (H : compute_error [ErrorSamples.sample_error] 0 ErrorSamples.sample_res
              = Return ErrorSamples.sample_table) by (vm_compute; reflexivity).
  split; [exact H|]. exact (compute_error_rows _ _ _ _ H).
Defined.

Lemma other_type_reuses_previous_solution_witness :
  compute_error
    [with_computed_solutions [FStr "solute"; FStr "solute"] ErrorSamples.sample_error]
    0 ErrorSamples.sample_res
  = compute_error [ErrorSamples.sample_error] 0 ErrorSamples.sample_res.
Proof.
  apply (other_type_reuses_previous_solution
           [] [] ErrorSamples.sample_error [FStr "solute"; FOther "1.0"] 0
           (FStr "solute") "1.0" 0 ErrorSamples.sample_res); reflexivity.
Defined.

End ComputeErrorFacts.
(** ** FESTIM/generic_simulation.py: the objects created by [Simulation.__init__] *)

Module GenericSimulationSetupFacts.
Import PyIndex GenericSimulationSetup PyFacts DerivedQuantitiesFacts.
Local Open Scope list_scope.

(** *** [create_boundarycondition_objects] *)

Section BoundaryConditions.
Context {BC : Type}.
Variable type_of : BC -> option string.

Abbreviation bc_object := (@bc_object BC).

(** The object made for a dictionary that has a type. *)
Definition object_of (temperature : bool) (dc : list string) (bc : BC) : bc_object :=
  classify temperature dc bc (default "" (type_of bc)).

Lemma bc_loop_classify temperature dc neumann robin l my_BC acc :
  (forall ty, In ty neumann -> In ty robin -> False) ->
  Forall (fun bc => is_Some (type_of bc)) l ->
  exists my_BC',
    bc_loop type_of temperature dc neumann robin l my_BC acc
    = Return (my_BC', acc ++ map (object_of temperature dc) l).
Proof.
  intros Hdisjoint Hl. revert my_BC acc.
  induction Hl as [|bc l [ty Hty] _ IH]; intros my_BC acc; simpl.
  - rewrite app_nil_r. eauto.
  - rewrite Hty. simpl.
    assert (Hflux : negb (str_in ty neumann) || negb (str_in ty robin) = true).
    { destruct (str_in ty neumann) eqn:Hn; [|reflexivity].
      destruct (str_in ty robin) eqn:Hr; [|reflexivity].
      exfalso. apply (Hdisjoint ty); apply str_in_In; assumption. }
    rewrite Hflux.
    assert (Hobj : (if str_in ty dc then Some (DirichletBC temperature bc)
                    else Some (FluxBC temperature bc))
                   = Some (object_of temperature dc bc)).
    { unfold object_of, classify. rewrite Hty. simpl.
      destruct (str_in ty dc); reflexivity. }
    rewrite Hobj. simpl.
    destruct (IH (Some (object_of temperature dc bc))
                 (acc ++ [object_of temperature dc bc])) as [my' ->].
    rewrite <- app_assoc. simpl. eauto.
Qed.

(** X25.  The type of a boundary condition is not validated.  When no type
    belongs to both lists ["neumann"] and ["robin"], every dictionary
    gives one object, in the order of the concentrations then of the
    temperature: a [DirichletBC] for a type of ["dc"], a [FluxBC]
    for every other type, unknown types included. *)
Theorem boundary_condition_types_not_validated
        (dc neumann robin T_dc T_neumann T_robin : list string)
        (p : bc_parameters) :
  let l := default [] (boundary_conditions p) in
  let l_T := default [] (default None (temperature p)) in
  (forall ty, In ty neumann -> In ty robin -> False) ->
  (forall ty, In ty T_neumann -> In ty T_robin -> False) ->
  Forall (fun bc => is_Some (type_of bc)) (l ++ l_T) ->
  create_boundarycondition_objects type_of dc neumann robin T_dc T_neumann T_robin p
  = Return (map (object_of false dc) l ++ map (object_of true T_dc) l_T).
Proof.
  intros l l_T H1 H2 Hl. apply Forall_app in Hl as [Hl HT].
  unfold create_boundarycondition_objects.
  assert (Hfirst : exists my,
             match boundary_conditions p with
             | Some l => bc_loop type_of false dc neumann robin l None []
             | None => Return (None, [])
             end = Return (my, map (object_of false dc) l)).
  { subst l. destruct (boundary_conditions p) as [l0|]; simpl in *.
    - apply (bc_loop_classify false dc neumann robin l0 None [] H1 Hl).
    - eauto. }
  destruct Hfirst as [my ->]. simpl.
  subst l_T. destruct (temperature p) as [[lT|]|]; simpl in *.
  - destruct (bc_loop_classify true T_dc T_neumann T_robin lT my
                               (map (object_of false dc) l) H2 HT) as [my' ->].
    reflexivity.
  - rewrite app_nil_r. reflexivity.
  - rewrite app_nil_r. reflexivity.
Qed.

Lemma bc_loop_stale temperature dc neumann robin pre b1 b2 post ty my_BC acc :
  type_of b2 = Some ty ->
  str_in ty dc = false -> str_in ty neumann = true -> str_in ty robin = true ->
  bc_loop type_of temperature dc neumann robin (pre ++ b1 :: b2 :: post) my_BC acc
  = bc_loop type_of temperature dc neumann robin (pre ++ b1 :: b1 :: post) my_BC acc.
Proof.
  intros Hty Hdc Hn Hr. revert my_BC acc.
  induction pre as [|b pre IH]; intros my_BC acc.
  - simpl. destruct (type_of b1) as [ty1|]; [|reflexivity]. simpl.
    rewrite Hty. simpl. rewrite Hdc, Hn, Hr. simpl.
    set (my1 := if str_in ty1 dc then _ else _).
    destruct (read my1) as [obj|e] eqn:Hread; [|reflexivity]. simpl.
    assert (Hmy : (if str_in ty1 dc then Some (DirichletBC temperature b1)
                   else if negb (str_in ty1 neumann) || negb (str_in ty1 robin)
                        then Some (FluxBC temperature b1) else my1) = my1).
    { unfold my1. destruct (str_in ty1 dc); [reflexivity|].
      destruct (negb (str_in ty1 neumann) || negb (str_in ty1 robin)); reflexivity. }
    rewrite Hmy, Hread. reflexivity.
  - simpl. destruct (type_of b) as [ty0|]; [|reflexivity]. simpl.
    destruct (read _) as [obj|e]; [|reflexivity]. simpl. apply IH.
Qed.

(** X26.  A dictionary whose type belongs to both lists ["neumann"] and
    ["robin"], and not to ["dc"], gives no object of its own: the
    object of the dictionary before it is appended a second time. *)
Theorem boundary_condition_of_both_lists
        (dc neumann robin T_dc T_neumann T_robin : list string)
        (pre post : list BC) (b1 b2 : BC) (ty : string) (T : option (option (list BC))) :
  type_of b2 = Some ty ->
  str_in ty dc = false -> str_in ty neumann = true -> str_in ty robin = true ->
  create_boundarycondition_objects
    type_of dc neumann robin T_dc T_neumann T_robin
    {| boundary_conditions := Some (pre ++ b1 :: b2 :: post); temperature := T |}
  = create_boundarycondition_objects
      type_of dc neumann robin T_dc T_neumann T_robin
      {| boundary_conditions := Some (pre ++ b1 :: b1 :: post); temperature := T |}.
Proof.
  intros Hty Hdc Hn Hr. unfold create_boundarycondition_objects. simpl.
  rewrite (bc_loop_stale false dc neumann robin pre b1 b2 post ty None [] Hty Hdc Hn Hr).
  reflexivity.
Qed.

End BoundaryConditions.

Lemma boundary_condition_types_not_validated_witness :
  create_boundarycondition_objects
    Some ["dc"] ["flux"] ["recomb"] ["dc"] ["flux"] ["convective_flux"]
    {| boundary_conditions := Some ["dc"; "misspelled"]; temperature := Some (Some ["flux"]) |}
  = Return [DirichletBC false "dc"; FluxBC false "misspelled"; FluxBC true "flux"].
Proof.
  apply (boundary_condition_types_not_validated
           Some ["dc"] ["flux"] ["recomb"] ["dc"] ["flux"] ["convective_flux"]
           {| boundary_conditions := Some ["dc"; "misspelled"];
              temperature := Some (Some ["flux"]) |}).
  - intros ty [<-|[]] [H|[]]. discriminate.
  - intros ty [<-|[]] [H|[]]. discriminate.
  - simpl. repeat apply Forall_cons_2; try apply Forall_nil_2; eauto.
Defined.

Lemma boundary_condition_of_both_lists_witness :
  create_boundarycondition_objects
    Some ["dc"] ["flux"; "mixed"] ["recomb"; "mixed"] ["dc"] ["flux"] ["convective_flux"]
    {| boundary_conditions := Some ["dc"; "mixed"]; temperature := None |}
  = create_boundarycondition_objects
      Some ["dc"] ["flux"; "mixed"] ["recomb"; "mixed"] ["dc"] ["flux"] ["convective_flux"]
      {| boundary_conditions := Some ["dc"; "dc"]; temperature := None |}.
Proof.
  apply (boundary_condition_of_both_lists
           Some ["dc"] ["flux"; "mixed"] ["recomb"; "mixed"] ["dc"] ["flux"]
           ["convective_flux"] [] [] "dc" "mixed" "mixed" None); reflexivity.
Defined.

(** *** [create_exports] *)

Section Exports.
Context {XDMF DQ TXT XDMFExport TXTExport Field Exact Norm Degree : Type}.
Variable xdmf_exports : XDMF -> list XDMFExport.
Variable txt_exports : TXT -> list TXTExport.

Abbreviation error_dict := (@error_dict Field Exact Norm Degree).
Abbreviation export_object :=
  (@export_object DQ XDMFExport TXTExport Field Exact Norm Degree).
Abbreviation exports_dict := (@exports_dict XDMF DQ TXT Field Exact Norm Degree).
Abbreviation error_objects' :=
  (error_objects (DQ:=DQ) (XDMFExport:=XDMFExport) (TXTExport:=TXTExport)).
Abbreviation error_exports' :=
  (error_exports (DQ:=DQ) (XDMFExport:=XDMFExport) (TXTExport:=TXTExport)).

Lemma error_objects_spec (e : error_dict) (l : list (Field * Exact))
      (objs : list export_object) :
  error_objects e l = Return objs ->
  length objs = length l /\ Forall (fun x => is_Error x = true) objs.
Proof.
  revert objs. induction l as [|[f x] l IH]; intros objs; simpl.
  - intros [= <-]. split; [reflexivity | constructor].
  - intros H. apply bind_Return in H as (n & _ & H).
    apply bind_Return in H as (d & _ & H).
    apply bind_Return in H as (rest & Hrest & [= <-]).
    destruct (IH _ Hrest) as [Hlen Hall]. split.
    + simpl. rewrite Hlen. reflexivity.
    + constructor; [reflexivity | exact Hall].
Qed.

Lemma error_exports_spec (l : list error_dict) (objs : list export_object) :
  error_exports l = Return objs ->
  length objs = list_sum (map nb_pairs l) /\ Forall (fun x => is_Error x = true) objs.
Proof.
  revert objs. induction l as [|e l IH]; intros objs; simpl.
  - intros [= <-]. split; [reflexivity | constructor].
  - intros H. apply bind_Return in H as (fs & Hfs & H).
    apply bind_Return in H as (es & Hes & H).
    apply bind_Return in H as (o1 & H1 & H).
    apply bind_Return in H as (o2 & H2 & [= <-]).
    destruct (error_objects_spec _ _ _ H1) as [Hlen1 Hall1].
    destruct (IH _ H2) as [Hlen2 Hall2]. split.
    + rewrite length_app, Hlen1, Hlen2, length_combine. unfold nb_pairs.
      destruct (fields e); [|discriminate]. destruct (exact_solutions e); [|discriminate].
      injection Hfs as ->. injection Hes as ->. reflexivity.
    + apply Forall_app. split; assumption.
Qed.

(** X27.  When [create_exports] returns, the exports are in the order of
    the XDMF exports, the derived quantities, the TXT exports and
    the errors.  An error dictionary gives one [Error] export for
    each pair of [zip(fields, exact_solutions)]: the members of the
    longer list that have no partner are dropped. *)
Theorem create_exports_order (d : exports_dict) (exports : list export_object) :
  create_exports xdmf_exports txt_exports (Some d) = Return exports ->
  exists errors,
    exports
    = map OfXDMF (default [] (xdmf_exports <$> xdmf d))
          ++ option_list (DerivedQuantities <$> derived_quantities d)
          ++ map OfTXT (default [] (txt_exports <$> txt d))
          ++ errors
    /\ Forall (fun x => is_Error x = true) errors
    /\ length errors = list_sum (map nb_pairs (default [] (error d))).
Proof.
  unfold create_exports. intros H.
  apply bind_Return in H as (errors & Herr & [= <-]).
  exists errors. split.
  - destruct (xdmf d), (derived_quantities d), (txt d); reflexivity.
  - destruct (error d) as [l|]; simpl in *.
    + destruct (error_exports_spec _ _ Herr) as [Hlen Hall]. auto.
    + injection Herr as <-. split; [constructor | reflexivity].
Qed.

(** What [create_exports] asks of an error dictionary: the keys
    ["fields"] and ["exact_solutions"], and the keys ["norm"] and
    ["degree"] when [zip(fields, exact_solutions)] is not empty. *)
Definition error_dict_ready (e : error_dict) : bool :=
  match fields e, exact_solutions e with
  | Some fs, Some es =>
      match combine fs es with
      | [] => true
      | _ :: _ =>
          match norm e, degree e with
          | Some _, Some _ => true
          | _, _ => false
          end
      end
  | _, _ => false
  end.

Lemma error_objects_throws (e : error_dict) (l : list (Field * Exact)) :
  throws (error_objects' e l) = false
  <-> l = [] \/ (is_Some (norm e) /\ is_Some (degree e)).
Proof.
  induction l as [|[f x] l IH]; simpl.
  - split; auto.
  - destruct (norm e) as [n|]; simpl.
    + destruct (degree e) as [dg|]; simpl.
      * assert (Hrest : throws (error_objects' e l) = false) by (apply IH; eauto).
        destruct (error_objects' e l); [|discriminate]. simpl.
        split; eauto.
      * split; [discriminate|]. intros [H|[_ [? H]]]; discriminate.
    + split; [discriminate|]. intros [H|[[? H] _]]; discriminate.
Qed.

Lemma error_exports_throws (l : list error_dict) :
  throws (error_exports' l) = false <-> forallb error_dict_ready l = true.
Proof.
  induction l as [|e l IH]; simpl; [split; reflexivity|].
  rewrite andb_true_iff, <- IH. unfold error_dict_ready.
  destruct (fields e) as [fs|]; simpl; [|split; [discriminate | intros [H _]; discriminate]].
  destruct (exact_solutions e) as [es|]; simpl;
    [|split; [discriminate | intros [H _]; discriminate]].
  pose proof (error_objects_throws e (combine fs es)) as Hobjs.
  destruct (error_objects' e (combine fs es)) as [objs|ex]; simpl in *.
  - assert (Hready : match combine fs es with
                     | [] => true
                     | _ :: _ => match norm e, degree e with
                                 | Some _, Some _ => true
                                 | _, _ => false
                                 end
                     end = true).
    { destruct (proj1 Hobjs eq_refl) as [->|[[n ->] [dg ->]]]; [reflexivity|].
      destruct (combine fs es); reflexivity. }
    rewrite Hready.
    destruct (error_exports' l); simpl; split; auto; intros [_ H]; exact H.
  - split; [discriminate|]. intros [Hready _]. exfalso.
    assert (Hc : true = false); [|discriminate Hc].
    apply Hobjs. destruct (combine fs es) as [|pr prs]; [left; reflexivity|].
    right. destruct (norm e), (degree e); try discriminate. split; eauto.
Qed.

(** X28.  [create_exports] returns exactly when every error dictionary has
    the keys ["fields"] and ["exact_solutions"], and the keys
    ["norm"] and ["degree"] unless it has no pair of a field and an
    exact solution: an error dictionary without fields needs no
    norm. *)
Theorem create_exports_returns_iff (exports : option exports_dict) :
  (exists l, create_exports xdmf_exports txt_exports exports = Return l)
  <-> forallb error_dict_ready (default [] (exports ≫= error)) = true.
Proof.
  rewrite <- throws_false. unfold create_exports.
  destruct exports as [d|]; simpl; [|split; reflexivity].
  destruct (error d) as [l|]; simpl.
  - rewrite <- error_exports_throws. destruct (error_exports l); simpl; reflexivity.
  - split; reflexivity.
Qed.

End Exports.

Lemma create_exports_order_witness :
  exists errors,
    create_exports (fun x : list string => x) (fun x : list string => x)
      (Some {| xdmf := Some ["solute.xdmf"];
               derived_quantities := Some tt;
               txt := None;
               error := Some [{| fields := Some ["solute"; "1"];
                                 exact_solutions := Some ["x"];
                                 norm := Some "L2";
                                 degree := Some 2%Z |}] |})
    = Return ([OfXDMF "solute.xdmf"; DerivedQuantities tt] ++ errors)
    /\ length errors = 1%nat.
Proof.
  destruct (create_exports_order
              (fun x : list string => x) (fun x : list string => x)
              {| xdmf := Some ["solute.xdmf"];
                 derived_quantities := Some tt;
                 txt := None;
                 error := Some [{| fields := Some ["solute"; "1"];
                                   exact_solutions := Some ["x"];
                                   norm := Some "L2";
                                   degree := Some 2%Z |}] |}
              _ eq_refl) as (errors & Heq & _ & Hlen).
  exists errors. split; [|exact Hlen].
  simpl in Heq. injection Heq as <-. reflexivity.
Defined.

End GenericSimulationSetupFacts.
